(** * setup-helm: version resolution and tool acquisition (src/run.ts)

    A shallow embedding of [src/run.ts] and of the parts of its
    environment that the action observes: JavaScript string primitives,
    the [semver] package ([clean], [gt], [gte]), the parsed JSON release
    listing, the GraphQL reply, the runner's file system and the tool
    cache.  The action is one sequential [async] chain, so it is modelled
    as state passing over the runner, with exceptions.

    Modelling notes.
    - Strings are byte strings.  The JavaScript primitives are modelled
      on ASCII: [toLocaleLowerCase] folds [A-Z] only (default, non-Turkic
      locale) and [trim] strips the ASCII white space characters.  Every
      literal the program compares against (the family prefixes, rc,
      latest and the two wildcards) is ASCII, and UTF-8 never encodes a non-ASCII character with
      ASCII bytes, so prefix and substring tests against these literals
      agree with the UTF-16 ones.
    - [semver] is a dependency, not part of the repository; [clean],
      [valid], [gt] and [gte] are modelled in strict mode from its grammar
      and comparison rules.  Its range matcher [satisfies] is not
      interpreted: the runner carries its answers, and every statement
      holds whatever they are.
    - [@actions/tool-cache] is a dependency too.  [find] and [cacheDir]
      follow the library: an entry lives under the cache directory in
      [<tool>/<version>/<arch>], where [<version>] is
      [semver.clean(version) || version], and counts once its completion
      marker is written; [find] looks an explicit version up under its
      cleaned form and resolves any other specification against the
      explicit versions of the cache.
    - [path] is Node's module for the runner's platform, [path.posix] or
      [path.win32], with its normalisation.
    - [core.debug] output is not part of the trace. *)

From Stdlib Require Import ZArith NArith Ascii String List Bool Lia.
From Stdlib Require Import DecimalString DecimalN DecimalFacts.
From stdpp Require Import gmap strings.

Set Warnings "-register-all".

Local Open Scope string_scope.
Local Open Scope Z_scope.

(* ===================================================================== *)
(** ** JavaScript string primitives                                       *)
(* ===================================================================== *)

Module Js.

Definition code (c : ascii) : N := N_of_ascii c.

Definition is_upper (c : ascii) : bool :=
  ((65 <=? code c) && (code c <=? 90))%N.

Definition is_digit (c : ascii) : bool :=
  ((48 <=? code c) && (code c <=? 57))%N.

Definition is_alpha (c : ascii) : bool :=
  ((65 <=? code c) && (code c <=? 90) || (97 <=? code c) && (code c <=? 122))%N.

(** White space removed by [String.prototype.trim] (ASCII part):
    TAB, LF, VT, FF, CR and SPACE. *)
Definition is_white (c : ascii) : bool :=
  ((9 <=? code c) && (code c <=? 13) || (code c =? 32))%N.

Definition lower_char (c : ascii) : ascii :=
  if is_upper c then ascii_of_N (code c + 32) else c.

(** [s.toLocaleLowerCase()] *)
Fixpoint toLocaleLowerCase (s : string) : string :=
  match s with
  | EmptyString => EmptyString
  | String c r => String (lower_char c) (toLocaleLowerCase r)
  end.

(** [s.startsWith(p)] *)
Fixpoint startsWith (s p : string) {struct p} : bool :=
  match p, s with
  | EmptyString, _ => true
  | String _ _, EmptyString => false
  | String a p', String b s' => Ascii.eqb a b && startsWith s' p'
  end.

(** [s.indexOf(needle)]: the first position at which [needle] occurs,
    [-1] when it does not occur. *)
Fixpoint indexOf (s needle : string) : Z :=
  if startsWith s needle then 0
  else match s with
       | EmptyString => -1
       | String _ r =>
           let i := indexOf r needle in
           if i =? -1 then -1 else i + 1
       end.

Fixpoint trimStart (s : string) : string :=
  match s with
  | String c r => if is_white c then trimStart r else s
  | EmptyString => EmptyString
  end.

Fixpoint trimEnd (s : string) : string :=
  match s with
  | EmptyString => EmptyString
  | String c r =>
      match trimEnd r with
      | EmptyString => if is_white c then EmptyString else String c EmptyString
      | r' => String c r'
      end
  end.

(** [s.trim()] *)
Definition trim (s : string) : string := trimEnd (trimStart s).

Fixpoint all (p : ascii -> bool) (s : string) : bool :=
  match s with
  | EmptyString => true
  | String c r => p c && all p r
  end.

(** [s.split(sep)] for a one-character separator: never the empty
    list, [""] splits to [[""]]. *)
Fixpoint split (sep : ascii) (s : string) : list string :=
  match s with
  | EmptyString => [EmptyString]
  | String c r =>
      if Ascii.eqb c sep then EmptyString :: split sep r
      else match split sep r with
           | [] => [String c EmptyString]
           | w :: ws => String c w :: ws
           end
  end.

(** [parts.join(sep)] *)
Fixpoint join (sep : string) (parts : list string) : string :=
  match parts with
  | [] => EmptyString
  | [w] => w
  | w :: ws => w +:+ sep +:+ join sep ws
  end.

(** The text before the first [sep] and, when [sep] occurs, the text
    after it: how an optional regular-expression group introduced by a
    character that cannot occur before it is matched. *)
Fixpoint cut (sep : ascii) (s : string) : string * option string :=
  match s with
  | EmptyString => (EmptyString, None)
  | String c r =>
      if Ascii.eqb c sep then (EmptyString, Some r)
      else let '(a, b) := cut sep r in (String c a, b)
  end.

(** [s.length] *)
Definition length (s : string) : Z := Z.of_nat (String.length s).

(** [s.charCodeAt(i)] as a character; out of range it is the zero
    character, which like [NaN] equals none of the codes it is compared
    with. *)
Definition charCodeAt (s : string) (i : Z) : ascii :=
  if i <? 0 then zero
  else match String.get (Z.to_nat i) s with
       | Some c => c
       | None => zero
       end.

(** [s.slice(start, stop)] for [0 <= start]. *)
Definition slice (s : string) (start stop : Z) : string :=
  String.substring (Z.to_nat start) (Z.to_nat (stop - start)) s.

(** [s.lastIndexOf(c)] for a character. *)
Fixpoint lastIndexOf (s : string) (c : ascii) : Z :=
  match s with
  | EmptyString => -1
  | String a r =>
      let i := lastIndexOf r c in
      if i =? -1 then (if Ascii.eqb a c then 0 else -1) else i + 1
  end.

Fixpoint countWhile (p : ascii -> bool) (s : string) : Z :=
  match s with
  | String c r => if p c then 1 + countWhile p r else 0
  | EmptyString => 0
  end.

(** [while (j < s.length && p(s[j])) j++]: the value of [j] after the
    loop. *)
Definition skipWhile (p : ascii -> bool) (s : string) (j : Z) : Z :=
  if j <? length s then j + countWhile p (slice s j (length s)) else j.

(** [s] contains [needle] as a substring. *)
Definition contains (s needle : string) : Prop :=
  exists pre post, s = pre +:+ needle +:+ post.

End Js.

(* ===================================================================== *)
(** ** Exceptions and results                                             *)
(* ===================================================================== *)

(** A thrown JavaScript error: its [name] and its [message]. *)
Inductive exn := JsError (name message : string).

Definition Error (message : string) : exn := JsError "Error" message.
Definition TypeError (message : string) : exn := JsError "TypeError" message.
Definition SyntaxError (message : string) : exn := JsError "SyntaxError" message.

(** [err.toString()] *)
Definition exn_toString (e : exn) : string :=
  match e with JsError n m => n +:+ ": " +:+ m end.

Inductive result (A : Type) :=
| Ok (a : A)
| Throw (e : exn).
Arguments Ok {A} a.
Arguments Throw {A} e.

(* ===================================================================== *)
(** ** The semver package: [clean], [valid], [gt], [gte]                  *)
(* ===================================================================== *)

(** The functions of the npm package [semver] that [run.ts] and the
    tool cache call, in strict (non-loose) mode: the grammar of its [FULL] regular expression,
    the [SemVer] constructor, [parse], [clean] and the comparison. *)
Module Semver.

Definition MAX_LENGTH : nat := 256.
Definition MAX_SAFE_INTEGER : N := 9007199254740991.

(** A prerelease identifier is kept as a number when it is numeric and
    below [MAX_SAFE_INTEGER], as a string otherwise. *)
Inductive identifier :=
| Num (n : N)
| Str (s : string).

Record SemVer := mkSemVer {
  major : N;
  minor : N;
  patch : N;
  prerelease : list identifier;
  build : list string
}.

(** Decimal digits to a number and back. *)
Definition digits_to_N (s : string) : N :=
  match NilEmpty.uint_of_string s with
  | Some d => N.of_uint d
  | None => 0%N
  end.

Definition N_to_digits (n : N) : string :=
  NilZero.string_of_uint (N.to_uint n).

(** [+id] on a string of digits: the nearest IEEE double (ties to
    even), which is exact below [2^53].  Identifiers are shorter than
    257 characters, so the conversion never overflows. *)
Definition toNumber (n : N) : N :=
  if (n <? 2 ^ 53)%N then n
  else
    let k := (N.log2 n - 52)%N in
    let q := N.shiftr n k in
    let r := (n mod 2 ^ k)%N in
    let half := (2 ^ (k - 1))%N in
    let q' := if (half <? r)%N || ((r =? half)%N && N.odd q)
              then (q + 1)%N else q in
    N.shiftl q' k.

Definition is_ident_char (c : ascii) : bool :=
  Js.is_digit c || Js.is_alpha c || Ascii.eqb c "-".

(** [0|[1-9]\d*] *)
Definition isNumericIdentifier (s : string) : bool :=
  match s with
  | EmptyString => false
  | String c r =>
      if Ascii.eqb c "0" then String.eqb r EmptyString
      else Js.is_digit c && Js.all Js.is_digit r
  end.

(** [\d*[a-zA-Z-][a-zA-Z0-9-]*] *)
Definition isNonNumericIdentifier (s : string) : bool :=
  Js.all is_ident_char s && negb (Js.all Js.is_digit s).

Definition isPrereleaseIdentifier (s : string) : bool :=
  isNumericIdentifier s || isNonNumericIdentifier s.

(** [[0-9A-Za-z-]+] *)
Definition isBuildIdentifier (s : string) : bool :=
  negb (String.eqb s EmptyString) && Js.all is_ident_char s.

(** The capture groups of the [FULL] expression: an optional [v], three
    numeric identifiers separated by dots, then optionally [-] and
    dot-separated prerelease identifiers, then optionally [+] and
    dot-separated build identifiers, anchored at both ends. *)
Record groups := mkGroups {
  m1 : string; m2 : string; m3 : string;
  m4 : option string;
  m5 : option string
}.

Definition exec_FULL (s : string) : option groups :=
  let s := match s with
           | String "v" r => r
           | _ => s
           end in
  let '(mp, b) := Js.cut "+" s in
  let '(m, p) := Js.cut "-" mp in
  match Js.split "." m with
  | [x; y; z] =>
      if isNumericIdentifier x && isNumericIdentifier y && isNumericIdentifier z
         && match p with
            | Some p => forallb isPrereleaseIdentifier (Js.split "." p)
            | None => true
            end
         && match b with
            | Some b => forallb isBuildIdentifier (Js.split "." b)
            | None => true
            end
      then Some (mkGroups x y z p b)
      else None
  | _ => None
  end.

(** [/^[0-9]+$/.test(s)] *)
Definition isAllDigits (s : string) : bool :=
  negb (String.eqb s EmptyString) && Js.all Js.is_digit s.

Definition toIdentifier (id : string) : identifier :=
  if isAllDigits id then
    let num := toNumber (digits_to_N id) in
    if (num <? MAX_SAFE_INTEGER)%N then Num num else Str id
  else Str id.

(** [new SemVer(version)]; [None] when the constructor throws
    [TypeError]. *)
Definition construct (version : string) : option SemVer :=
  if (MAX_LENGTH <? String.length version)%nat then None
  else
    match exec_FULL (Js.trim version) with
    | None => None
    | Some m =>
        let major := toNumber (digits_to_N (m1 m)) in
        let minor := toNumber (digits_to_N (m2 m)) in
        let patch := toNumber (digits_to_N (m3 m)) in
        if (MAX_SAFE_INTEGER <? major)%N || (MAX_SAFE_INTEGER <? minor)%N
           || (MAX_SAFE_INTEGER <? patch)%N
        then None
        else
          Some (mkSemVer major minor patch
                  match m4 m with
                  | Some p => map toIdentifier (Js.split "." p)
                  | None => []
                  end
                  match m5 m with
                  | Some b => Js.split "." b
                  | None => []
                  end)
    end.

Definition identifier_text (i : identifier) : string :=
  match i with
  | Num n => N_to_digits n
  | Str s => s
  end.

(** [SemVer.prototype.format]: the [version] field. *)
Definition format (v : SemVer) : string :=
  let main := N_to_digits (major v) +:+ "." +:+ N_to_digits (minor v)
              +:+ "." +:+ N_to_digits (patch v) in
  match prerelease v with
  | [] => main
  | ids => main +:+ "-" +:+ Js.join "." (map identifier_text ids)
  end.

(** [parse(version)]: [null] unless the raw text matches. *)
Definition parse (version : string) : option SemVer :=
  if (MAX_LENGTH <? String.length version)%nat then None
  else match exec_FULL version with
       | None => None
       | Some _ => construct version
       end.

(** [.replace(/^[=v]+/, '')] *)
Fixpoint strip_eq_v (s : string) : string :=
  match s with
  | String c r =>
      if Ascii.eqb c "=" || Ascii.eqb c "v" then strip_eq_v r else s
  | EmptyString => EmptyString
  end.

(** [semver.clean(version)]: [None] is [null]. *)
Definition clean (version : string) : option string :=
  match parse (strip_eq_v (Js.trim version)) with
  | Some s => Some (format s)
  | None => None
  end.

(** [semver.valid(version)]: the [version] field of the parsed text. *)
Definition valid (version : string) : option string :=
  match parse version with
  | Some s => Some (format s)
  | None => None
  end.

(** The number an identifier compares as, when [/^[0-9]+$/] matches
    it. *)
Definition numeric_value (i : identifier) : option N :=
  match i with
  | Num n => Some n
  | Str s =>
      if isAllDigits s then Some (toNumber (digits_to_N s)) else None
  end.

Definition identifier_eqb (a b : identifier) : bool :=
  match a, b with
  | Num x, Num y => (x =? y)%N
  | Str x, Str y => String.eqb x y
  | _, _ => false
  end.

(** [compareIdentifiers(a, b)] *)
Definition compareIdentifiers (a b : identifier) : comparison :=
  match numeric_value a, numeric_value b with
  | Some x, Some y => (x ?= y)%N
  | Some _, None => Lt
  | None, Some _ => Gt
  | None, None =>
      let x := identifier_text a in
      let y := identifier_text b in
      if String.eqb x y then Eq
      else if String.ltb x y then Lt else Gt
  end.

Definition orElse (c d : comparison) : comparison :=
  match c with Eq => d | _ => c end.

(** [SemVer.prototype.compareMain] *)
Definition compareMain (a b : SemVer) : comparison :=
  orElse (compareIdentifiers (Num (major a)) (Num (major b)))
    (orElse (compareIdentifiers (Num (minor a)) (Num (minor b)))
       (compareIdentifiers (Num (patch a)) (Num (patch b)))).

(** The [do ... while (++i)] loop of [comparePre]. *)
Fixpoint comparePreLoop (a b : list identifier) : comparison :=
  match a, b with
  | [], [] => Eq
  | _ :: _, [] => Gt
  | [], _ :: _ => Lt
  | x :: a', y :: b' =>
      if identifier_eqb x y then comparePreLoop a' b'
      else compareIdentifiers x y
  end.

(** [SemVer.prototype.comparePre]: a version without prerelease is
    greater than one with. *)
Definition comparePre (a b : SemVer) : comparison :=
  match prerelease a, prerelease b with
  | _ :: _, [] => Lt
  | [], _ :: _ => Gt
  | [], [] => Eq
  | x, y => comparePreLoop x y
  end.

Definition compareVersions (a b : SemVer) : comparison :=
  orElse (compareMain a b) (comparePre a b).

(** [semver.compare(a, b)] builds both versions first and throws
    [TypeError] on an invalid one. *)
Definition compare (a b : string) : result comparison :=
  match construct a with
  | None => Throw (TypeError ("Invalid Version: " +:+ a))
  | Some x =>
      match construct b with
      | None => Throw (TypeError ("Invalid Version: " +:+ b))
      | Some y => Ok (compareVersions x y)
      end
  end.

(** [semver.gt(a, b)] is [compare(a, b) > 0]. *)
Definition gt (a b : string) : result bool :=
  match compare a b with
  | Ok Gt => Ok true
  | Ok _ => Ok false
  | Throw e => Throw e
  end.

(** [semver.gte(a, b)] is [compare(a, b) >= 0]. *)
Definition gte (a b : string) : result bool :=
  match compare a b with
  | Ok Lt => Ok false
  | Ok _ => Ok true
  | Throw e => Throw e
  end.

End Semver.

(* ===================================================================== *)
(** ** Parsed JSON values                                                 *)
(* ===================================================================== *)

(** What [JSON.parse] returns.  A number is held as the text
    [Number.prototype.toString] prints for it (a parsed number is never
    [NaN], so it is falsy exactly when that text is ["0"]); an object is
    held as its own properties, each key once. *)
Inductive json :=
| JNull
| JBool (b : bool)
| JNumber (text : string)
| JString (s : string)
| JArray (items : list json)
| JObject (fields : list (string * json)).

Module Json.

(** JavaScript truthiness. *)
Definition truthy (j : json) : bool :=
  match j with
  | JNull => false
  | JBool b => b
  | JNumber t => negb (String.eqb t "0")
  | JString s => negb (String.eqb s "")
  | JArray _ | JObject _ => true
  end.

Fixpoint assoc (key : string) (fields : list (string * json)) : option json :=
  match fields with
  | [] => None
  | (k, v) :: r => if String.eqb k key then Some v else assoc key r
  end.

(** [value.key] on a truthy value, for a key that no prototype
    defines: [None] is [undefined]. *)
Definition get (value : json) (key : string) : option json :=
  match value with
  | JObject fields => assoc key fields
  | _ => None
  end.

(** [value.toString()].  An array joins its elements with [","],
    [null] elements printing as the empty string; a parsed object prints
    as ["[object Object]"] unless an own property shadows [toString],
    which then is not callable. *)
Fixpoint toString (value : json) : result string :=
  match value with
  | JNull => Throw (TypeError "Cannot read properties of null")
  | JBool b => Ok (if b then "true" else "false")
  | JNumber t => Ok t
  | JString s => Ok s
  | JArray items =>
      (fix joinItems (l : list json) : result string :=
         match l with
         | [] => Ok ""
         | x :: r =>
             match match x with
                   | JNull => Ok ""
                   | _ => toString x
                   end with
             | Throw e => Throw e
             | Ok sx =>
                 match r with
                 | [] => Ok sx
                 | _ => match joinItems r with
                        | Ok sr => Ok (sx +:+ "," +:+ sr)
                        | Throw e => Throw e
                        end
                 end
             end
         end) items
  | JObject fields =>
      match assoc "toString" fields with
      | Some _ => Throw (TypeError "toString is not a function")
      | None => Ok "[object Object]"
      end
  end.

End Json.

(* ===================================================================== *)
(** ** The runner: network, file system, tool cache                       *)
(* ===================================================================== *)

(** A file system entry below a directory. *)
Inductive node :=
| File
| Directory (entries : list (string * node)).

(** What a regular file holds, as far as the action reads it. *)
Inductive content :=
| JsonText (value : json)                 (* a text that [JSON.parse] reads as [value] *)
| ZipArchive (entries : list (string * node))  (* a zip archive of these entries *)
| Opaque.                                 (* neither *)

(** One node of the GraphQL reply: [{ tagName }]. *)
Record release := mkRelease { tagName : string }.

(** Effects the action performs on the runner, in the order of
    [trace] (newest first).  [core.debug] lines are diagnostic output
    and are not recorded. *)
Inductive event :=
| EvDownload (url : string)                  (* toolCache.downloadTool *)
| EvExtractZip (file : string)               (* toolCache.extractZip *)
| EvCacheDir (dir tool version : string)     (* toolCache.cacheDir *)
| EvFind (tool version : string)             (* toolCache.find *)
| EvGraphql (authorization : string)         (* graphql request *)
| EvChmod (path mode : string)               (* fs.chmodSync *)
| EvWarning (message : string)               (* core.warning *)
| EvAddPath (dir : string)                   (* core.addPath *)
| EvLog (line : string)                      (* console.log *)
| EvSetOutput (name value : string)          (* core.setOutput *)
| EvSetFailed (error : exn).                 (* core.setFailed *)

(** The state of the runner.  The wording of errors raised by the engine
    and by libraries is the world's ([web], [graphql_endpoint]) or a
    short stand-in; only the errors that [run.ts] constructs itself carry
    their exact message. *)
Record world := mkWorld {
  os_type : string;                           (* os.type() *)
  os_arch : string;                           (* os.arch() *)
  inputs : gmap string string;                (* the action's inputs *)
  env : gmap string string;                   (* process.env *)
  web : string -> result content;             (* what fetching a URL yields *)
  graphql_endpoint : string -> result (option (list release));
      (* the reply to the releases query under an authorization header:
         [repository.releases.nodes], [None] for a null [repository] *)
  semver_satisfies : string -> string -> bool;
      (* semver.satisfies(version, range) of the installed package *)
  files : gmap string content;                (* regular files, by path *)
  dirs : gmap string (list (string * node));  (* directory trees, by root path *)
  cache_root : string;          (* the tool cache directory, RUNNER_TOOL_CACHE *)
  tool_cache : gset (string * string);
      (* the complete entries of the tool cache: tool and version directory *)
  temp : nat;                                 (* supply of temporary names *)
  trace : list event
}.

Definition with_files (f : gmap string content) (w : world) : world :=
  mkWorld (os_type w) (os_arch w) (inputs w) (env w) (web w) (graphql_endpoint w)
    (semver_satisfies w) f (dirs w) (cache_root w) (tool_cache w) (temp w) (trace w).
Definition with_dirs (d : gmap string (list (string * node))) (w : world) : world :=
  mkWorld (os_type w) (os_arch w) (inputs w) (env w) (web w) (graphql_endpoint w)
    (semver_satisfies w) (files w) d (cache_root w) (tool_cache w) (temp w) (trace w).
Definition with_tool_cache (c : gset (string * string)) (w : world) : world :=
  mkWorld (os_type w) (os_arch w) (inputs w) (env w) (web w) (graphql_endpoint w)
    (semver_satisfies w) (files w) (dirs w) (cache_root w) c (temp w) (trace w).
Definition with_temp (n : nat) (w : world) : world :=
  mkWorld (os_type w) (os_arch w) (inputs w) (env w) (web w) (graphql_endpoint w)
    (semver_satisfies w) (files w) (dirs w) (cache_root w) (tool_cache w) n (trace w).
Definition with_env (e : gmap string string) (w : world) : world :=
  mkWorld (os_type w) (os_arch w) (inputs w) e (web w) (graphql_endpoint w)
    (semver_satisfies w) (files w) (dirs w) (cache_root w) (tool_cache w) (temp w) (trace w).
Definition record (ev : event) (w : world) : world :=
  mkWorld (os_type w) (os_arch w) (inputs w) (env w) (web w) (graphql_endpoint w)
    (semver_satisfies w) (files w) (dirs w) (cache_root w) (tool_cache w) (temp w)
    (ev :: trace w).

(** *** Computations: state passing with exceptions *)

Definition M (A : Type) : Type := world -> result A * world.

Definition ret {A} (a : A) : M A := fun w => (Ok a, w).
Definition throw {A} (e : exn) : M A := fun w => (Throw e, w).
Definition bind {A B} (m : M A) (k : A -> M B) : M B :=
  fun w => match m w with
           | (Ok a, w') => k a w'
           | (Throw e, w') => (Throw e, w')
           end.
(** [try { m } catch (e) { handler e }] *)
Definition try_catch {A} (m : M A) (handler : exn -> M A) : M A :=
  fun w => match m w with
           | (Ok a, w') => (Ok a, w')
           | (Throw e, w') => handler e w'
           end.
Definition lift {A} (r : result A) : M A := fun w => (r, w).
Definition emit (ev : event) : M unit := fun w => (Ok tt, record ev w).
Definition gets {A} (f : world -> A) : M A := fun w => (Ok (f w), w).

Declare Scope run_scope.
Delimit Scope run_scope with run.
Notation "x <- m ;; k" := (bind m (fun x => k))
  (at level 100, m at next level, right associativity) : run_scope.
Notation "m ;;; k" := (bind m (fun _ => k))
  (at level 100, right associativity) : run_scope.
Local Open Scope run_scope.

(** *** Paths *)

Definition is_windows (os : string) : bool := Js.startsWith os "Win".

(** Node's [path] module: [path.posix] on a runner whose [os.type()]
    does not start with Win, [path.win32] on one where it does. *)
Module path.

Definition isPosixPathSeparator (code : ascii) : bool := Ascii.eqb code "/".

Definition isPathSeparator (code : ascii) : bool :=
  Ascii.eqb code "/" || Ascii.eqb code "\".

Definition isWindowsDeviceRoot (code : ascii) : bool := Js.is_alpha code.

(** The variables of the loop of [normalizeString]. *)
Record scan := mkScan {
  res : string;
  lastSegmentLength : Z;
  lastSlash : Z;
  dots : Z
}.

(** The body of the loop of [normalizeString] at a separator, at
    index [i] of [path]. *)
Definition atSeparator (path : string) (allowAboveRoot : bool) (separator : ascii)
  (i : Z) (s : scan) : scan :=
  let len := Js.length (res s) in
  if (lastSlash s =? i - 1) || (dots s =? 1) then
    mkScan (res s) (lastSegmentLength s) i 0
  else if dots s =? 2 then
    let above :=
      if allowAboveRoot then
        mkScan (if 0 <? len then res s +:+ String separator ".." else "..") 2 i 0
      else mkScan (res s) (lastSegmentLength s) i 0 in
    if (len <? 2) || negb (lastSegmentLength s =? 2)
       || negb (Ascii.eqb (Js.charCodeAt (res s) (len - 1)) ".")
       || negb (Ascii.eqb (Js.charCodeAt (res s) (len - 2)) ".")
    then
      if 2 <? len then
        let lastSlashIndex := Js.lastIndexOf (res s) separator in
        if lastSlashIndex =? -1 then mkScan "" 0 i 0
        else
          let res' := Js.slice (res s) 0 lastSlashIndex in
          mkScan res' (Js.length res' - 1 - Js.lastIndexOf res' separator) i 0
      else if negb (len =? 0) then mkScan "" 0 i 0
      else above
    else above
  else
    mkScan (if 0 <? len
            then res s +:+ String separator (Js.slice path (lastSlash s + 1) i)
            else Js.slice path (lastSlash s + 1) i)
      (i - lastSlash s - 1) i 0.

(** The loop of [normalizeString] from index [i] on, [rest] being the
    text from there and [code] the character read last. *)
Fixpoint normalizeLoop (path : string) (allowAboveRoot : bool) (separator : ascii)
  (isPathSeparator : ascii -> bool) (rest : string) (i : Z) (code : ascii) (s : scan)
  : string :=
  match rest with
  | String code rest =>
      normalizeLoop path allowAboveRoot separator isPathSeparator rest (i + 1) code
        (if isPathSeparator code then atSeparator path allowAboveRoot separator i s
         else if Ascii.eqb code "." && negb (dots s =? -1) then
           mkScan (res s) (lastSegmentLength s) (lastSlash s) (dots s + 1)
         else mkScan (res s) (lastSegmentLength s) (lastSlash s) (-1))
  | EmptyString =>
      if isPathSeparator code then res s
      else res (atSeparator path allowAboveRoot separator i s)
  end.

(** [normalizeString(path, allowAboveRoot, separator, isPathSeparator)]:
    resolves [.] and [..] elements and repeated separators. *)
Definition normalizeString (path : string) (allowAboveRoot : bool) (separator : ascii)
  (isPathSeparator : ascii -> bool) : string :=
  normalizeLoop path allowAboveRoot separator isPathSeparator path 0 zero
    (mkScan "" 0 (-1) 0).

Definition nonEmpty (arg : string) : bool := negb (String.eqb arg "").

Module posix.

Definition normalize (path : string) : string :=
  if Js.length path =? 0 then "."
  else
    let isAbsolute := Ascii.eqb (Js.charCodeAt path 0) "/" in
    let trailingSeparator := Ascii.eqb (Js.charCodeAt path (Js.length path - 1)) "/" in
    let path := normalizeString path (negb isAbsolute) "/" isPosixPathSeparator in
    if Js.length path =? 0 then
      if isAbsolute then "/" else if trailingSeparator then "./" else "."
    else
      let path := if trailingSeparator then path +:+ "/" else path in
      if isAbsolute then "/" +:+ path else path.

Definition join (paths : list string) : string :=
  match List.filter nonEmpty paths with
  | [] => "."
  | args => normalize (Js.join "/" args)
  end.

(** The loop of [dirname]: from index [offset + k - 1] down to
    [offset], the index of the separator before the last element, [-1]
    when there is none. *)
Fixpoint dirnameEnd (isPathSeparator : ascii -> bool) (path : string) (offset : Z)
  (k : nat) (matchedSlash : bool) : Z :=
  match k with
  | O => -1
  | S k =>
      let i := offset + Z.of_nat k in
      if isPathSeparator (Js.charCodeAt path i) then
        if negb matchedSlash then i
        else dirnameEnd isPathSeparator path offset k matchedSlash
      else dirnameEnd isPathSeparator path offset k false
  end.

Definition dirname (path : string) : string :=
  if Js.length path =? 0 then "."
  else
    let hasRoot := Ascii.eqb (Js.charCodeAt path 0) "/" in
    let end_ := dirnameEnd isPosixPathSeparator path 1
                  (Z.to_nat (Js.length path - 1)) true in
    if end_ =? -1 then (if hasRoot then "/" else ".")
    else if hasRoot && (end_ =? 1) then "//"
    else Js.slice path 0 end_.

End posix.

Module win32.

(** The root that [normalize] matches: the result at once for a bare
    UNC root, otherwise the device, where the root ends, and whether the
    path is absolute. *)
Definition matchRoot (path : string) : string + (option string * Z * bool) :=
  let len := Js.length path in
  let code := Js.charCodeAt path 0 in
  let notSeparator c := negb (isPathSeparator c) in
  if isPathSeparator code then
    if isPathSeparator (Js.charCodeAt path 1) then
      let last := 2 in
      let j := Js.skipWhile notSeparator path 2 in
      if (j <? len) && negb (j =? last) then
        let firstPart := Js.slice path last j in
        let last := j in
        let j := Js.skipWhile isPathSeparator path j in
        if (j <? len) && negb (j =? last) then
          let last := j in
          let j := Js.skipWhile notSeparator path j in
          if j =? len then
            inl ("\\" +:+ firstPart +:+ "\" +:+ Js.slice path last len +:+ "\")
          else if negb (j =? last) then
            inr (Some ("\\" +:+ firstPart +:+ "\" +:+ Js.slice path last j), j, true)
          else inr (None, 0, true)
        else inr (None, 0, true)
      else inr (None, 0, true)
    else inr (None, 1, true)
  else if isWindowsDeviceRoot code && Ascii.eqb (Js.charCodeAt path 1) ":" then
    if (2 <? len) && isPathSeparator (Js.charCodeAt path 2)
    then inr (Some (Js.slice path 0 2), 3, true)
    else inr (Some (Js.slice path 0 2), 2, false)
  else inr (None, 0, false).

Definition normalize (path : string) : string :=
  let len := Js.length path in
  if len =? 0 then "."
  else if len =? 1 then
    if isPosixPathSeparator (Js.charCodeAt path 0) then "\" else path
  else
    match matchRoot path with
    | inl root => root
    | inr (device, rootEnd, isAbsolute) =>
        let tail :=
          if rootEnd <? len
          then normalizeString (Js.slice path rootEnd len) (negb isAbsolute) "\"
                 isPathSeparator
          else "" in
        let tail := if (Js.length tail =? 0) && negb isAbsolute then "." else tail in
        let tail :=
          if (0 <? Js.length tail) && isPathSeparator (Js.charCodeAt path (len - 1))
          then tail +:+ "\" else tail in
        match device with
        | None => if isAbsolute then "\" +:+ tail else tail
        | Some device => if isAbsolute then device +:+ "\" +:+ tail else device +:+ tail
        end
    end.

Definition join (paths : list string) : string :=
  match List.filter nonEmpty paths with
  | [] => "."
  | (firstPart :: _) as args =>
      let joined := Js.join "\" args in
      (* a first part with exactly two leading separators is a UNC
         path; any other run of leading separators is cut to one *)
      let '(needsReplace, slashCount) :=
        if isPathSeparator (Js.charCodeAt firstPart 0) then
          let firstLen := Js.length firstPart in
          if (1 <? firstLen) && isPathSeparator (Js.charCodeAt firstPart 1) then
            if 2 <? firstLen then
              if isPathSeparator (Js.charCodeAt firstPart 2) then (true, 3)
              else (false, 2)
            else (true, 2)
          else (true, 1)
        else (true, 0) in
      let joined :=
        if needsReplace then
          let slashCount := Js.skipWhile isPathSeparator joined slashCount in
          if 2 <=? slashCount
          then "\" +:+ Js.slice joined slashCount (Js.length joined)
          else joined
        else joined in
      normalize joined
  end.

(** Where the root of [path] ends for [dirname]: [rootEnd] and the
    index the backward scan stops at; the result at once for a bare UNC
    root. *)
Definition dirnameRoot (path : string) : string + (Z * Z) :=
  let len := Js.length path in
  let code := Js.charCodeAt path 0 in
  let notSeparator c := negb (isPathSeparator c) in
  if isPathSeparator code then
    if isPathSeparator (Js.charCodeAt path 1) then
      let last := 2 in
      let j := Js.skipWhile notSeparator path 2 in
      if (j <? len) && negb (j =? last) then
        let last := j in
        let j := Js.skipWhile isPathSeparator path j in
        if (j <? len) && negb (j =? last) then
          let last := j in
          let j := Js.skipWhile notSeparator path j in
          if j =? len then inl path
          else if negb (j =? last) then inr (j + 1, j + 1)
          else inr (1, 1)
        else inr (1, 1)
      else inr (1, 1)
    else inr (1, 1)
  else if isWindowsDeviceRoot code && Ascii.eqb (Js.charCodeAt path 1) ":" then
    let rootEnd := if (2 <? len) && isPathSeparator (Js.charCodeAt path 2) then 3 else 2 in
    inr (rootEnd, rootEnd)
  else inr (-1, 0).

Definition dirname (path : string) : string :=
  let len := Js.length path in
  if len =? 0 then "."
  else if len =? 1 then
    if isPathSeparator (Js.charCodeAt path 0) then path else "."
  else
    match dirnameRoot path with
    | inl root => root
    | inr (rootEnd, offset) =>
        let end_ := posix.dirnameEnd isPathSeparator path offset
                      (Z.to_nat (len - offset)) true in
        if end_ =? -1 then
          if rootEnd =? -1 then "." else Js.slice path 0 rootEnd
        else Js.slice path 0 end_
    end.

End win32.

(** [path.join(...paths)] *)
Definition join (os : string) (paths : list string) : string :=
  if is_windows os then win32.join paths else posix.join paths.

(** [path.dirname(p)] *)
Definition dirname (os p : string) : string :=
  if is_windows os then win32.dirname p else posix.dirname p.

End path.

(** Every path of the tree [n] rooted at [p], [p] included. *)
Fixpoint node_paths (os p : string) (n : node) : list string :=
  p :: match n with
       | File => []
       | Directory entries =>
           (fix each (es : list (string * node)) : list string :=
              match es with
              | [] => []
              | (name, c) :: r => (node_paths os (path.join os [p; name]) c ++ each r)%list
              end) entries
       end.

Definition path_exists (w : world) (p : string) : bool :=
  match files w !! p with
  | Some _ => true
  | None =>
      existsb (fun '(root, entries) =>
                 existsb (String.eqb p) (node_paths (os_type w) root (Directory entries)))
        (map_to_list (dirs w))
  end.

(** *** Runner primitives *)

(** The [@actions/core] functions the action calls. *)
Module core.

(** [core.getInput(name, { required })]: the trimmed input; a required
    input that is missing or empty is refused. *)
Definition getInput (name : string) (required : bool) : M string :=
  fun w =>
    let val := default "" (inputs w !! name) in
    if required && String.eqb val "" then
      (Throw (Error ("Input required and not supplied: " +:+ name)), w)
    else (Ok (Js.trim val), w).

Definition warning (message : string) : M unit := emit (EvWarning message).

Definition setOutput (name value : string) : M unit := emit (EvSetOutput name value).

Definition setFailed (error : exn) : M unit := emit (EvSetFailed error).

(** [core.addPath(dir)] puts [dir] in front of [PATH]. *)
Definition addPath (dir : string) : M unit :=
  fun w =>
    let delimiter := if is_windows (os_type w) then ";" else ":" in
    (Ok tt,
     record (EvAddPath dir)
       (with_env (<["PATH" := dir +:+ delimiter +:+ default "" (env w !! "PATH")]> (env w)) w)).

End core.

(** [console.log(line)] *)
Definition console_log (line : string) : M unit := emit (EvLog line).

(** A fresh path under the runner's temporary directory. *)
Definition temp_path : M string :=
  fun w => (Ok ("/tmp/" +:+ Semver.N_to_digits (N.of_nat (temp w))),
            with_temp (S (temp w)) w).

Module fs.

(** [fs.chmodSync(p, mode)] *)
Definition chmodSync (p mode : string) : M unit :=
  fun w =>
    if path_exists w p then (Ok tt, record (EvChmod p mode) w)
    else (Throw (Error ("ENOENT: no such file or directory, chmod '" +:+ p +:+ "'")), w).

(** [fs.readdirSync(dir)] at the root of a walk. *)
Definition readdirSync (dir : string) : M (list (string * node)) :=
  fun w =>
    match dirs w !! dir with
    | Some entries => (Ok entries, w)
    | None => (Throw (Error ("ENOENT: no such file or directory, scandir '" +:+ dir +:+ "'")), w)
    end.

End fs.

(** [JSON.parse(fs.readFileSync(p, 'utf8').toString().trim())] *)
Definition readJson (p : string) : M json :=
  fun w =>
    match files w !! p with
    | None => (Throw (Error ("ENOENT: no such file or directory, open '" +:+ p +:+ "'")), w)
    | Some (JsonText value) => (Ok value, w)
    | Some _ => (Throw (SyntaxError "Unexpected token in JSON"), w)
    end.

(** The [@actions/tool-cache] functions the action calls. *)
Module toolCache.

(** [toolCache.downloadTool(url)]: fetches into a fresh temporary file
    and returns its path; throws when the transfer fails. *)
Definition downloadTool (url : string) : M string :=
  emit (EvDownload url) ;;;
  body <- (fun w => (web w url, w)) ;;
  dest <- temp_path ;;
  (fun w => (Ok dest, with_files (<[dest := body]> (files w)) w)).

(** [toolCache.extractZip(file)]: unpacks into a fresh temporary
    directory and returns its path. *)
Definition extractZip (file : string) : M string :=
  emit (EvExtractZip file) ;;;
  c <- gets (fun w => files w !! file) ;;
  match c with
  | Some (ZipArchive entries) =>
      dest <- temp_path ;;
      (fun w => (Ok dest, with_dirs (<[dest := entries]> (dirs w)) w))
  | _ => throw (Error ("failed to extract " +:+ file))
  end.

(** The directory of an entry:
    [path.join(_getCacheDirectory(), tool, semver.clean(version) || version, arch)]
    in [_createToolPath] and [_completeToolPath], and the name of its
    version directory. *)
Definition versionDirectory (version : string) : string :=
  default version (Semver.clean version).

Definition toolPath (tool version arch : string) (w : world) : string :=
  path.join (os_type w) [cache_root w; tool; versionDirectory version; arch].

(** [toolCache.cacheDir(sourceDir, tool, version)]: copies the children
    of the directory into a fresh entry of the cache, writes the
    completion marker and returns the entry's directory. *)
Definition cacheDir (sourceDir tool version : string) : M string :=
  emit (EvCacheDir sourceDir tool version) ;;;
  let version := default version (Semver.clean version) in
  arch <- gets os_arch ;;
  src <- gets (fun w => dirs w !! sourceDir) ;;
  match src with
  | None => throw (Error ("sourceDir is not a directory"))
  | Some entries =>
      destPath <- gets (toolPath tool version arch) ;;
      (fun w =>
         (Ok destPath,
          with_tool_cache ({[ (tool, versionDirectory version) ]} ∪ tool_cache w)
            (with_dirs (<[destPath := entries]> (dirs w)) w)))
  end.

(** [_isExplicitVersion(versionSpec)] *)
Definition _isExplicitVersion (versionSpec : string) : bool :=
  let c := default "" (Semver.clean versionSpec) in
  match Semver.valid c with
  | Some _ => true
  | None => false
  end.

(** [findAllVersions(toolName, arch)]: the explicit version
    directories of the tool that are complete. *)
Definition findAllVersions (toolName arch : string) : M (list string) :=
  gets (fun w =>
          map snd
            (List.filter (fun '(tool, child) =>
                            String.eqb tool toolName && _isExplicitVersion child)
               (elements (tool_cache w)))).

(** [versions.sort((a, b) => semver.gt(a, b) ? 1 : -1)] as an insertion
    sort; the comparison throws on a name that is not a version in strict
    mode.  Among names that [semver.gt] does not order the engine decides. *)
Fixpoint insertVersion (a : string) (sorted : list string) : result (list string) :=
  match sorted with
  | [] => Ok [a]
  | b :: rest =>
      match Semver.gt a b with
      | Throw e => Throw e
      | Ok true =>
          match insertVersion a rest with
          | Ok rest => Ok (b :: rest)
          | Throw e => Throw e
          end
      | Ok false => Ok (a :: sorted)
      end
  end.

Fixpoint sortVersions (versions : list string) : result (list string) :=
  match versions with
  | [] => Ok []
  | a :: rest =>
      match sortVersions rest with
      | Ok sorted => insertVersion a sorted
      | Throw e => Throw e
      end
  end.

(** [_evaluateVersions(versions, versionSpec)]: the greatest of the
    versions that satisfies the specification, the empty string when none
    does. *)
Definition _evaluateVersions (versions : list string) (versionSpec : string) : M string :=
  versions <- lift (sortVersions versions) ;;
  satisfies <- gets semver_satisfies ;;
  ret (default "" (List.find (fun potential => satisfies potential versionSpec)
                     (rev versions))).

(** [toolCache.find(toolName, versionSpec)]: the directory of the
    entry, the empty string when there is none. *)
Definition find (toolName versionSpec : string) : M string :=
  if String.eqb toolName "" then
    throw (Error "toolName parameter is required")
  else if String.eqb versionSpec "" then
    throw (Error "versionSpec parameter is required")
  else
    emit (EvFind toolName versionSpec) ;;;
    arch <- gets os_arch ;;
    versionSpec <-
      (if negb (_isExplicitVersion versionSpec) then
         localVersions <- findAllVersions toolName arch ;;
         _evaluateVersions localVersions versionSpec
       else ret versionSpec) ;;
    if negb (String.eqb versionSpec "") then
      let versionSpec := default "" (Semver.clean versionSpec) in
      cachePath <- gets (fun w => path.join (os_type w)
                                    [cache_root w; toolName; versionSpec; arch]) ;;
      complete <- gets (fun w => bool_decide ((toolName, versionSpec) ∈ tool_cache w)) ;;
      ret (if complete then cachePath else "")
    else ret "".

End toolCache.

(** [graphql(query, { headers: { authorization } })] for the releases
    query of [getLatestHelmVersionFor]; a null [repository] makes
    [repository.releases] throw. *)
Definition graphql_releases (authorization : string) : M (list release) :=
  emit (EvGraphql authorization) ;;;
  reply <- (fun w => (graphql_endpoint w authorization, w)) ;;
  match reply with
  | Some nodes => ret nodes
  | None => throw (TypeError "Cannot read properties of null (reading 'releases')")
  end.

(* ===================================================================== *)
(** ** src/run.ts                                                         *)
(* ===================================================================== *)

Definition helmToolName : string := "helm".
Definition stableHelmVersion : string := "v3.2.1".
Definition stableHelm3Version : string := "v3.5.3".
Definition stableHelm2Version : string := "v2.17.0".
Definition LATEST_HELM2_VERSION : string := "2.*".
Definition LATEST_HELM3_VERSION : string := "3.*".
Definition helmAllReleasesUrl : string :=
  "https://api.github.com/repos/helm/helm/releases".

Definition getExecutableExtension (os : string) : string :=
  if is_windows os then ".exe" else "".

Definition getHelmDownloadURL (os version : string) : string :=
  if String.eqb os "Linux" then
    "https://get.helm.sh/helm-" +:+ version +:+ "-linux-amd64.zip"
  else if String.eqb os "Darwin" then
    "https://get.helm.sh/helm-" +:+ version +:+ "-darwin-amd64.zip"
  else
    "https://get.helm.sh/helm-" +:+ version +:+ "-windows-amd64.zip".

(** [semver.gt(current, latest)] where [latest] may be [null]. *)
Definition gt_nullable (current : string) (latest : option string) : result bool :=
  match latest with
  | Some l => Semver.gt current l
  | None => Throw (TypeError "Invalid Version: null")
  end.

(** The body of the [forEach] callback of [getStableHelmVersion]: the
    value of [latestHelmVersion] after visiting [response]. *)
Definition visitResponse (latestHelmVersion : option string) (response : json)
  : result (option string) :=
  match (if Json.truthy response then Json.get response "tag_name" else None) with
  | Some tag_name =>
      if Json.truthy tag_name then
        match Json.toString tag_name with
        | Throw e => Throw e
        | Ok tag =>
            match Semver.clean tag with
            | Some currentHelmVerison =>
                if negb (String.eqb currentHelmVerison "") then
                  if Js.indexOf currentHelmVerison "rc" =? -1 then
                    match gt_nullable currentHelmVerison latestHelmVersion with
                    | Throw e => Throw e
                    | Ok true => Ok (Some currentHelmVerison)
                    | Ok false => Ok latestHelmVersion
                    end
                  else Ok latestHelmVersion
                else Ok latestHelmVersion
            | None => Ok latestHelmVersion
            end
        end
      else Ok latestHelmVersion
  | None => Ok latestHelmVersion
  end.

Fixpoint forEachResponse (items : list json) (latestHelmVersion : option string)
  : result (option string) :=
  match items with
  | [] => Ok latestHelmVersion
  | response :: rest =>
      match visitResponse latestHelmVersion response with
      | Ok latest' => forEachResponse rest latest'
      | Throw e => Throw e
      end
  end.

(** [responseArray.forEach(...)]: only an array has [forEach]. *)
Definition scanResponses (responseArray : json) (latestHelmVersion : option string)
  : result (option string) :=
  match responseArray with
  | JArray items => forEachResponse items latestHelmVersion
  | _ => Throw (TypeError "responseArray.forEach is not a function")
  end.

(** ["v" + latestHelmVersion] *)
Definition v_plus (latestHelmVersion : option string) : string :=
  "v" +:+ default "null" latestHelmVersion.

Definition getStableHelmVersion : M string :=
  try_catch
    (downloadPath <- toolCache.downloadTool helmAllReleasesUrl ;;
     responseArray <- readJson downloadPath ;;
     latestHelmVersion <- lift (scanResponses responseArray (Semver.clean stableHelmVersion)) ;;
     ret (v_plus latestHelmVersion))
    (fun error =>
       core.warning ("Cannot get the latest Helm info from " +:+ helmAllReleasesUrl
                        +:+ ". Error " +:+ exn_toString error
                        +:+ ". Using default Helm version " +:+ stableHelmVersion +:+ ".") ;;;
       ret stableHelmVersion).

(** [walkSync(dir, filelist, fileToFind)] over the tree [n] found at
    [dir].  The source pushes onto the one array it is given and returns
    it; the list returned here is that array. *)
Fixpoint walkSync (os dir : string) (n : node) (filelist : list string)
  (fileToFind : string) : list string :=
  match n with
  | File => filelist
  | Directory entries =>
      (fix forEach (files : list (string * node)) (filelist : list string) : list string :=
         match files with
         | [] => filelist
         | (file, c) :: rest =>
             forEach rest
               match c with
               | Directory _ =>
                   walkSync os (path.join os [dir; file]) c filelist fileToFind
               | File =>
                   if String.eqb file fileToFind
                   then (filelist ++ [path.join os [dir; file]])%list
                   else filelist
               end
         end) entries filelist
  end.

Definition findHelm (rootFolder : string) : M string :=
  fs.chmodSync rootFolder "777" ;;;
  os <- gets os_type ;;
  entries <- fs.readdirSync rootFolder ;;
  let filelist := walkSync os rootFolder (Directory entries) []
                    (helmToolName +:+ getExecutableExtension os) in
  match filelist with
  | [] => throw (Error ("Helm executable not found in path " +:+ rootFolder))
  | first :: _ => ret first
  end.

(** [downloadHelm(version)]; [None] is a missing ([undefined])
    argument. *)
Definition downloadHelm (version : option string) : M string :=
  version <- match version with
             | Some v => if String.eqb v "" then getStableHelmVersion else ret v
             | None => getStableHelmVersion
             end ;;
  os <- gets os_type ;;
  cachedToolpath <- toolCache.find helmToolName version ;;
  cachedToolpath <-
    (if String.eqb cachedToolpath "" then
       helmDownloadPath <-
         try_catch (toolCache.downloadTool (getHelmDownloadURL os version))
           (fun exception =>
              throw (Error ("Failed to download Helm from location "
                            +:+ getHelmDownloadURL os version))) ;;
       fs.chmodSync helmDownloadPath "777" ;;;
       unzipedHelmPath <- toolCache.extractZip helmDownloadPath ;;
       toolCache.cacheDir unzipedHelmPath helmToolName version
     else ret cachedToolpath) ;;
  helmpath <- findHelm cachedToolpath ;;
  (if String.eqb helmpath "" then
     throw (Error ("Helm executable not found in path " +:+ cachedToolpath))
   else
     fs.chmodSync helmpath "777" ;;;
     ret helmpath).

Definition getStableHelmVersionFor (type : string) : string :=
  if String.eqb type "v2" then stableHelm2Version else stableHelm3Version.

(** [isValidVersion] checks that the version matches the type and is a
    stable release. *)
Definition isValidVersion (version type : string) : bool :=
  if negb (Js.startsWith (Js.toLocaleLowerCase version) type) then false
  else Js.indexOf version "rc" =? -1.

Definition getLatestHelmVersionFor (type : string) : M string :=
  token <- core.getInput "token" true ;;
  found <-
    try_catch
      (nodes <- graphql_releases ("token " +:+ token) ;;
       let releases := rev nodes in
       let latestValidRelease :=
         List.find (fun release => isValidVersion (tagName release) type) releases in
       match latestValidRelease with
       | Some r => ret (Some (tagName r))
       | None => ret None
       end)
      (fun err =>
         core.warning ("Error while fetching the latest Helm " +:+ type
                          +:+ " release. Error: " +:+ exn_toString err
                          +:+ ". Using default Helm version "
                          +:+ getStableHelmVersionFor type +:+ ".") ;;;
         ret (Some (getStableHelmVersionFor type))) ;;
  match found with
  | Some version => ret version
  | None =>
      core.warning ("Could not find stable release for Helm " +:+ type
                       +:+ ". Using default Helm version "
                       +:+ getStableHelmVersionFor type +:+ ".") ;;;
      ret (getStableHelmVersionFor type)
  end.

(** The versioning block of [run] (lines 169-183): the version to
    download for the [version] input. *)
Definition run_version (version : string) : M string :=
  legacy <- gets (fun w => env w !! "HELM_INSTALLER_LEGACY_VERSIONING") ;;
  if bool_decide (legacy = Some "true") then
    if String.eqb (Js.toLocaleLowerCase version) "latest" then
      getStableHelmVersion
    else if negb (Js.startsWith (Js.toLocaleLowerCase version) "v") then
      ret ("v" +:+ version)
    else ret version
  else
    if String.eqb (Js.toLocaleLowerCase version) "latest"
       || String.eqb version LATEST_HELM3_VERSION then
      getLatestHelmVersionFor "v3"
    else if String.eqb version LATEST_HELM2_VERSION then
      getLatestHelmVersionFor "v2"
    else if negb (Js.startsWith (Js.toLocaleLowerCase version) "v") then
      ret ("v" +:+ version)
    else ret version.

Definition run : M unit :=
  version <- core.getInput "version" true ;;
  version <- run_version version ;;
  cachedPath <- downloadHelm (Some version) ;;
  os <- gets os_type ;;
  try_catch
    (PATH <- gets (fun w => env w !! "PATH") ;;
     match PATH with
     | None => throw (TypeError "Cannot read properties of undefined (reading 'startsWith')")
     | Some p =>
         if negb (Js.startsWith p (path.dirname os cachedPath))
         then core.addPath (path.dirname os cachedPath)
         else ret tt
     end)
    (fun _ => ret tt) ;;;
  console_log ("Helm tool version: '" +:+ version +:+ "' has been cached at " +:+ cachedPath) ;;;
  core.setOutput "helm-path" cachedPath.

(** [run().catch(core.setFailed)]: the entry point; a rejection of
    [run] is handed to [core.setFailed], which marks the run as failed. *)
Definition main : world -> world :=
  fun w =>
    match run w with
    | (Ok _, w') => w'
    | (Throw error, w') => snd (core.setFailed error w')
    end.

(* ===================================================================== *)
(** ** Vocabulary of the specification                                    *)
(* ===================================================================== *)

(** *** Inputs and modes *)

(** The [token] input as [core.getInput] reads it, and the authorization
    header built from it. *)
Definition token_input (w : world) : string := default "" (inputs w !! "token").
Definition token_supplied (w : world) : Prop := token_input w <> "".
Definition authorization (w : world) : string := "token " +:+ Js.trim (token_input w).

(** Legacy versioning is selected by the environment. *)
Definition legacy_mode (w : world) : Prop :=
  env w !! "HELM_INSTALLER_LEGACY_VERSIONING" = Some "true".

(** [s] starts with the letter v in either case. *)
Definition starts_with_v_ci (s : string) : Prop :=
  Js.startsWith s "v" = true \/ Js.startsWith s "V" = true.

(** The token asks for family-scoped discovery outside legacy mode. *)
Definition needs_family_discovery (version : string) : Prop :=
  Js.toLocaleLowerCase version = "latest" \/ version = "3.*" \/ version = "2.*".

(** *** Release tags *)

(** Some prefix of [tag] is [type] up to letter case. *)
Definition prefix_ci (type tag : string) : Prop :=
  exists p r, tag = p +:+ r /\ Js.toLocaleLowerCase p = type.

(** A tag of the family [type] that is not a release candidate. *)
Definition family_stable (type tag : string) : Prop :=
  prefix_ci type tag /\ ~ Js.contains tag "rc".

(** *** Discovery and its failures *)

(** What the GraphQL endpoint answers to this run's query. *)
Definition discovery_reply (w : world) : result (option (list release)) :=
  graphql_endpoint w (authorization w).

(** The GraphQL query throws or answers without a repository. *)
Definition graph_query_fails (w : world) : Prop :=
  discovery_reply w = Ok None \/ exists e, discovery_reply w = Throw e.

(** The release listing cannot be fetched, is not JSON, or is not an
    array. *)
Definition listing_fails (w : world) : Prop :=
  match web w helmAllReleasesUrl with
  | Ok (JsonText (JArray _)) => False
  | _ => True
  end.

(** The running maximum of global discovery holds a version that is not
    below the seed. *)
Definition above_seed (latest : option string) : Prop :=
  exists l, latest = Some l /\ Semver.gte l stableHelmVersion = Ok true.

(** *** Orders *)

(** Comparisons that compose lexicographically: [Gt] is transitive and
    [Eq] is a congruence on both sides. *)
Definition strong_order {A : Type} (c : A -> A -> comparison) : Prop :=
  (forall x y z, c x y = Gt -> c y z = Gt -> c x z = Gt)
  /\ (forall x y z, c x y = Eq -> c x z = c y z)
  /\ (forall x y z, c y z = Eq -> c x y = c x z).

(** What a running maximum needs: going up from something that is not
    below [z] stays not below [z]. *)
Definition weak_order {A : Type} (c : A -> A -> comparison) : Prop :=
  forall x y z, c x y = Gt -> c y z <> Lt -> c x z <> Lt.

(** *** Trees *)

(** A regular file named [name] somewhere below the tree. *)
Fixpoint has_file (name : string) (n : node) : Prop :=
  match n with
  | File => False
  | Directory entries =>
      (fix any (es : list (string * node)) : Prop :=
         match es with
         | [] => False
         | (file, c) :: r =>
             match c with
             | File => file = name
             | Directory _ => has_file name c
             end \/ any r
         end) entries
  end.

(** Some entry of the list is, or holds, a regular file named [name]. *)
Definition any_has_file (name : string) (es : list (string * node)) : Prop :=
  Exists (fun '(file, c) =>
            match c with
            | File => file = name
            | Directory _ => has_file name c
            end) es.

(** The loop of [walkSync] over the entries of [dir]. *)
Definition walkEntries (os dir fileToFind : string) (files : list (string * node))
  (filelist : list string) : list string :=
  fold_left
    (fun filelist '(file, c) =>
       match c with
       | Directory _ => walkSync os (path.join os [dir; file]) c filelist fileToFind
       | File => if String.eqb file fileToFind
                 then (filelist ++ [path.join os [dir; file]])%list
                 else filelist
       end) files filelist.

(** The executable's file name on this runner. *)
Definition helm_executable (w : world) : string :=
  helmToolName +:+ getExecutableExtension (os_type w).

(** Induction on trees, with the hypothesis for every entry of a
    directory. *)
Section Trees.

Variable P : node -> Prop.
Hypothesis P_File : P File.
Hypothesis P_Directory :
  forall entries, Forall (fun e => P (snd e)) entries -> P (Directory entries).

Fixpoint node_induction (n : node) : P n :=
  match n with
  | File => P_File
  | Directory entries =>
      P_Directory entries
        ((fix all (es : list (string * node)) : Forall (fun e => P (snd e)) es :=
            match es with
            | [] => List.Forall_nil _
            | (name, c) :: r =>
                List.Forall_cons _ (name, c) r (node_induction c) (all r)
            end) entries)
  end.

End Trees.

(** *** Effects of a run *)

(** [w'] is [w] after the effects [evs], newest first. *)
Definition extends (w w' : world) (evs : list event) : Prop :=
  trace w' = (evs ++ trace w)%list.

Definition is_download (ev : event) : bool :=
  match ev with EvDownload _ => true | _ => false end.
Definition is_extract (ev : event) : bool :=
  match ev with EvExtractZip _ => true | _ => false end.
Definition is_cacheDir (ev : event) : bool :=
  match ev with EvCacheDir _ _ _ => true | _ => false end.

(** The effects that fetch an archive, unpack it or put it in the
    cache. *)
Definition is_acquisition (ev : event) : bool :=
  is_download ev || is_extract ev || is_cacheDir ev.

Definition acquisitions (evs : list event) : list event :=
  List.filter is_acquisition evs.

Definition count_events (p : event -> bool) (evs : list event) : nat :=
  length (List.filter p evs).

(** No archive is fetched, unpacked or registered in [evs]. *)
Definition quiet (evs : list event) : Prop :=
  Forall (fun ev => is_acquisition ev = false) evs.

(** Only permission changes. *)
Definition only_chmod (evs : list event) : Prop :=
  Forall (fun ev => exists p mode, ev = EvChmod p mode) evs.


(** Every cache key among the effects is [version], and every download
    is that of its archive or of the release listing. *)
Definition about_version (os version : string) (ev : event) : Prop :=
  match ev with
  | EvDownload url => url = getHelmDownloadURL os version \/ url = helmAllReleasesUrl
  | EvFind _ v | EvCacheDir _ _ v => v = version
  | _ => True
  end.

(** A computation that only reads the runner. *)
Definition reads {A} (m : M A) : Prop := forall w, snd (m w) = w.

(** Two runners of the same platform: operating system, architecture,
    cache directory and installed packages. *)
Definition same_platform (w w' : world) : Prop :=
  os_type w = os_type w' /\ os_arch w = os_arch w' /\ cache_root w = cache_root w'
  /\ semver_satisfies w = semver_satisfies w'.

(** Two runners of the same platform with the same file system and
    tool cache. *)
Definition same_store (w w' : world) : Prop :=
  os_type w = os_type w' /\ files w = files w' /\ dirs w = dirs w'
  /\ tool_cache w = tool_cache w'
  /\ os_arch w = os_arch w' /\ cache_root w = cache_root w'
  /\ semver_satisfies w = semver_satisfies w'.

(** The directory of the cache entry of [tool] with version directory
    [key]. *)
Definition cache_path (w : world) (tool key : string) : string :=
  path.join (os_type w) [cache_root w; tool; key; os_arch w].

(** The directory [toolCache.cacheDir] gives an archive of [version]. *)
Definition cached_directory (w : world) (version : string) : string :=
  cache_path w helmToolName (toolCache.versionDirectory version).

(** What the cache lookup of [downloadHelm] answers for [version]: the
    directory of an entry, the empty string for none. *)
Definition cache_lookup (w : world) (version : string) : result string :=
  fst (toolCache.find helmToolName version w).

(** The two halves of [downloadHelm] after the cache lookup: lines 90-99
    (fetch, unpack, register) and lines 102-108 (locate the executable). *)
Definition fetchIntoCache (os version : string) : M string :=
  (helmDownloadPath <-
     try_catch (toolCache.downloadTool (getHelmDownloadURL os version))
       (fun exception =>
          throw (Error ("Failed to download Helm from location "
                        +:+ getHelmDownloadURL os version))) ;;
   fs.chmodSync helmDownloadPath "777" ;;;
   unzipedHelmPath <- toolCache.extractZip helmDownloadPath ;;
   toolCache.cacheDir unzipedHelmPath helmToolName version)%run.

Definition locateHelm (cachedToolpath : string) : M string :=
  (helmpath <- findHelm cachedToolpath ;;
   (if String.eqb helmpath "" then
      throw (Error ("Helm executable not found in path " +:+ cachedToolpath))
    else
      fs.chmodSync helmpath "777" ;;;
      ret helmpath))%run.

(** *** Sample runners *)

Definition helm_zip : content :=
  ZipArchive [("linux-amd64", Directory [("LICENSE", File); ("helm", File)])].

Definition sample_listing : json :=
  JArray [JObject [("tag_name", JString "v3.4.0")];
          JObject [("tag_name", JString "v3.6.0-rc.1")];
          JNull; JString "x"; JObject [("name", JString "v9.9.9")];
          JObject [("tag_name", JString "v3.5.3")]].

Definition sample_web (url : string) : result content :=
  if String.eqb url helmAllReleasesUrl then Ok (JsonText sample_listing)
  else if String.eqb url "https://get.helm.sh/helm-v3.5.0-linux-amd64.zip" then Ok helm_zip
  else Throw (Error "Unexpected HTTP response: 404").

Definition sample_nodes : list release :=
  [mkRelease "v3.5.3"; mkRelease "v3.6.0-rc.1"; mkRelease "v3.5.0"].

(** The sample caches hold no explicit version besides the one asked
    for, so no run on them consults the range matcher. *)
Definition no_match (version range : string) : bool := false.

(** A hosted Linux runner: its inputs, environment, network, files,
    directories and tool cache. *)
Definition linux_runner (inputs env : gmap string string)
  (web : string -> result content)
  (graphql_endpoint : string -> result (option (list release)))
  (dirs : gmap string (list (string * node))) (tool_cache : gset (string * string))
  : world :=
  mkWorld "Linux" "x64" inputs env web graphql_endpoint no_match
    ∅ dirs "/opt/hostedtoolcache" tool_cache 0 [].

(** A Linux runner with both inputs set, an empty tool cache, and the
    spec's three-tag listing behind the GraphQL endpoint. *)
Definition sample_world : world :=
  linux_runner
    {[ "version" := "latest"; "token" := "secret" ]}
    {[ "PATH" := "/usr/bin" ]}
    sample_web
    (fun auth => if String.eqb auth "token secret" then Ok (Some sample_nodes)
                 else Throw (Error "Bad credentials"))
    ∅ ∅.

(** The same runner in legacy mode. *)
Definition legacy_world : world :=
  with_env {[ "HELM_INSTALLER_LEGACY_VERSIONING" := "true" ]} sample_world.

(** The same runner without the [token] input. *)
Definition tokenless_world : world :=
  linux_runner {[ "version" := "latest" ]} {[ "PATH" := "/usr/bin" ]}
    sample_web (fun _ => Throw (Error "Bad credentials")) ∅ ∅.

(** A runner whose network is down: every fetch and the GraphQL query
    throw. *)
Definition offline_world : world :=
  linux_runner {[ "version" := "latest"; "token" := "secret" ]} ∅
    (fun _ => Throw (Error "getaddrinfo ENOTFOUND"))
    (fun _ => Throw (Error "getaddrinfo ENOTFOUND")) ∅ ∅.

Definition offline_legacy_world : world :=
  with_env {[ "HELM_INSTALLER_LEGACY_VERSIONING" := "true" ]} offline_world.

(** A runner whose cache holds an unpacked archive without the
    executable. *)
Definition broken_cache_world : world :=
  linux_runner {[ "version" := "v3.5.3"; "token" := "secret" ]} ∅
    sample_web (fun _ => Ok None)
    {[ "/opt/hostedtoolcache/helm/3.5.3/x64" :=
         [("linux-amd64", Directory [("README.md", File)])] ]}
    {[ ("helm", "3.5.3") ]}.

(** A runner whose download host serves archives without the
    executable. *)
Definition empty_archive_web (url : string) : result content :=
  Ok (ZipArchive [("linux-amd64", Directory [("LICENSE", File)])]).

Definition empty_archive_world : world :=
  linux_runner {[ "version" := "v3.5.3"; "token" := "secret" ]} ∅
    empty_archive_web (fun _ => Ok None) ∅ ∅.

(** A runner whose download host has an archive for every version
    text. *)
Definition mirror_world : world :=
  linux_runner {[ "version" := "v3.5"; "token" := "secret" ]} ∅
    (fun _ => Ok helm_zip) (fun _ => Ok None) ∅ ∅.

(** *** Further vocabulary *)

(** The number of regular files named [name] in the tree. *)
Fixpoint count_files (name : string) (n : node) : nat :=
  match n with
  | File => 0%nat
  | Directory entries =>
      (fix total (es : list (string * node)) : nat :=
         match es with
         | [] => 0%nat
         | (file, c) :: r =>
             (match c with
              | File => if String.eqb file name then 1 else 0
              | Directory _ => count_files name c
              end + total r)%nat
         end) entries
  end.

(** The paths of the directories of the tree [n] rooted at [p], the
    root included. *)
Fixpoint dir_paths (os p : string) (n : node) : list string :=
  match n with
  | File => []
  | Directory entries =>
      p :: (fix each (es : list (string * node)) : list string :=
              match es with
              | [] => []
              | (name, c) :: r => (dir_paths os (path.join os [p; name]) c ++ each r)%list
              end) entries
  end.

(** [p] is the path of an entry called [name] in a directory of the
    tree [n] found at [dir]: that directory's path joined with [name]. *)
Definition entry_of (os dir : string) (n : node) (name p : string) : Prop :=
  exists d, In d (dir_paths os dir n) /\ p = path.join os [d; name].

(** The text of a version without its build metadata, from the groups
    of a match of the [FULL] expression: what [format] prints. *)
Definition version_text (g : Semver.groups) : string :=
  Semver.m1 g +:+ "." +:+ Semver.m2 g +:+ "." +:+ Semver.m3 g
  +:+ match Semver.m4 g with Some p => "-" +:+ p | None => "" end.

(** A character of a formatted version: an identifier character or a
    dot. *)
Definition is_version_char (c : ascii) : bool :=
  Semver.is_ident_char c || Ascii.eqb c ".".

(** The version an entry of the release listing puts forward in global
    discovery: the cleaned tag name, when the entry has one and it has no
    "rc" in it. *)
Definition candidate (response : json) : option string :=
  match (if Json.truthy response then Json.get response "tag_name" else None) with
  | Some tag_name =>
      if Json.truthy tag_name then
        match Json.toString tag_name with
        | Ok tag =>
            match Semver.clean tag with
            | Some c =>
                if negb (String.eqb c "") && (Js.indexOf c "rc" =? -1)
                then Some c else None
            | None => None
            end
        | Throw _ => None
        end
      else None
  | None => None
  end.

Definition is_graphql (ev : event) : bool :=
  match ev with EvGraphql _ => true | _ => false end.
Definition is_warning (ev : event) : bool :=
  match ev with EvWarning _ => true | _ => false end.

(** A Windows runner with the executable in its cache. *)
Definition windows_world : world :=
  mkWorld "Windows_NT" "x64" {[ "version" := "v3.5.3"; "token" := "secret" ]}
    {[ "PATH" := "C:\Windows" ]}
    sample_web (fun _ => Ok None) no_match ∅
    {[ "C:\hostedtoolcache\windows\helm\3.5.3\x64" :=
         [("windows-amd64", Directory [("LICENSE", File); ("helm.exe", File)]);
          ("helm.exe", File)] ]}
    "C:\hostedtoolcache\windows"
    {[ ("helm", "3.5.3") ]} 0 [].

(* ===================================================================== *)
(** * Properties                                                          *)
(* ===================================================================== *)

(** Reduce the projections of an updated runner. *)
Ltac simpl_world :=
  cbn [os_type os_arch inputs env web graphql_endpoint semver_satisfies files dirs
       cache_root tool_cache temp trace
       record with_files with_dirs with_tool_cache with_temp with_env fst snd] in *.

(** ** The model at work *)

Example js_string_examples :
  Js.toLocaleLowerCase "LaTeSt" = "latest"
  /\ Js.indexOf "v3.6.0-rc.1" "rc" = 7
  /\ Js.indexOf "v3.5.0" "rc" = -1
  /\ Js.startsWith "v3.5.0" "v3" = true
  /\ Js.trim "  v3.2.1 " = "v3.2.1"
  /\ Js.split "." "a..b" = ["a"; ""; "b"].
Proof. repeat split. Qed.

Example semver_clean_examples :
  Semver.clean " =v3.2.1 " = Some "3.2.1"
  /\ Semver.clean "v3.6.0-rc.1+build.5" = Some "3.6.0-rc.1"
  /\ Semver.clean "v3.06.0" = None
  /\ Semver.clean "3.6" = None
  /\ Semver.clean "1.0.0-9007199254740993" = Some "1.0.0-9007199254740993".
Proof. vm_compute. repeat split. Qed.

Example semver_order_examples :
  Semver.gt "3.10.0" "3.9.9" = Ok true
  /\ Semver.gt "3.0.0-beta.2" "3.0.0-beta.10" = Ok false
  /\ Semver.gt "3.0.0" "3.0.0-rc.1" = Ok true
  /\ Semver.gt "3.0.0-alpha" "3.0.0-1" = Ok true
  /\ Semver.gte "v3.2.1" "3.2.1" = Ok true
  /\ Semver.gt "3.2" "3.2.1" = Throw (TypeError "Invalid Version: 3.2")
  /\ Semver.toNumber 9007199254740993 = 9007199254740992%N
  /\ Semver.compare "1.0.0-9007199254740993.5" "1.0.0-9007199254740992.7" = Ok Eq.
Proof. vm_compute. repeat split. Qed.

(** A complete run on the sample runner: the version is discovered,
    fetched, unpacked, cached, located and published. *)
Example sample_run :
  let '(r, w) := run sample_world in
  r = Ok tt
  /\ trace w
     = [EvSetOutput "helm-path" "/opt/hostedtoolcache/helm/3.5.0/x64/linux-amd64/helm";
        EvLog "Helm tool version: 'v3.5.0' has been cached at /opt/hostedtoolcache/helm/3.5.0/x64/linux-amd64/helm";
        EvAddPath "/opt/hostedtoolcache/helm/3.5.0/x64/linux-amd64";
        EvChmod "/opt/hostedtoolcache/helm/3.5.0/x64/linux-amd64/helm" "777";
        EvChmod "/opt/hostedtoolcache/helm/3.5.0/x64" "777";
        EvCacheDir "/tmp/1" "helm" "v3.5.0";
        EvExtractZip "/tmp/0";
        EvChmod "/tmp/0" "777";
        EvDownload "https://get.helm.sh/helm-v3.5.0-linux-amd64.zip";
        EvFind "helm" "v3.5.0";
        EvGraphql "token secret"]
  /\ env w !! "PATH" = Some "/opt/hostedtoolcache/helm/3.5.0/x64/linux-amd64:/usr/bin".
Proof. vm_compute. repeat split. Qed.

(** ** Strings *)

#[local] Arguments String.append : simpl nomatch.

Section StringFacts.

Lemma startsWith_app (p r : string) : Js.startsWith (p +:+ r) p = true.
Proof.
  induction p as [|c p IH]; simpl; [reflexivity|].
  now rewrite Ascii.eqb_refl, IH.
Qed.

Lemma startsWith_inv (s p : string) :
  Js.startsWith s p = true -> exists r, s = p +:+ r.
Proof.
  revert s; induction p as [|c p IH]; intros s H.
  - exists s; reflexivity.
  - destruct s as [|d s]; simpl in H; [discriminate|].
    apply andb_true_iff in H as [Hc Hs].
    apply Ascii.eqb_eq in Hc; subst d.
    destruct (IH _ Hs) as [r ->]. exists r; reflexivity.
Qed.

Lemma startsWith_iff (s p : string) :
  Js.startsWith s p = true <-> exists r, s = p +:+ r.
Proof.
  split; [apply startsWith_inv|]. intros [r ->]. apply startsWith_app.
Qed.

Lemma startsWith_trans (s p q : string) :
  Js.startsWith s p = true -> Js.startsWith p q = true -> Js.startsWith s q = true.
Proof.
  intros [r ->]%startsWith_inv [r' ->]%startsWith_inv.
  apply startsWith_iff. exists (r' +:+ r).
  clear. induction q as [|c q IH]; simpl; [reflexivity|]. now f_equal.
Qed.

Lemma indexOf_lower_bound (s n : string) : -1 <= Js.indexOf s n.
Proof.
  induction s as [|c s IH]; simpl.
  - destruct (Js.startsWith "" n); lia.
  - destruct (Js.startsWith (String c s) n); [lia|].
    destruct (Z.eqb_spec (Js.indexOf s n) (-1)); lia.
Qed.

Lemma indexOf_absent (s n : string) :
  Js.indexOf s n = -1 <-> ~ Js.contains s n.
Proof.
  induction s as [|c s IH].
  - simpl. destruct (Js.startsWith "" n) eqn:E.
    + split; [discriminate|]. intros H; exfalso; apply H.
      apply startsWith_inv in E as [r E]. exists "", r. exact E.
    + split; [|reflexivity]. intros _ (pre & post & H).
      destruct pre; simpl in H; [|discriminate].
      assert (Js.startsWith "" n = true) by (apply startsWith_iff; eauto).
      congruence.
  - cbn [Js.indexOf]. destruct (Js.startsWith (String c s) n) eqn:E.
    + split; [discriminate|]. intros H; exfalso; apply H.
      apply startsWith_inv in E as [r E]. exists "", r. exact E.
    + pose proof (indexOf_lower_bound s n) as Hlb.
      destruct (Z.eqb_spec (Js.indexOf s n) (-1)) as [Hi|Hi].
      * split; [|reflexivity]. intros _ (pre & post & H).
        destruct pre as [|d pre]; simpl in H.
        -- assert (Js.startsWith (String c s) n = true)
             by (apply startsWith_iff; eauto).
           congruence.
        -- injection H as _ H. apply IH in Hi. apply Hi. now exists pre, post.
      * split; [lia|]. intros H. exfalso. apply Hi, IH.
        intros (pre & post & ->). apply H. now exists (String c pre), post.
Qed.

Lemma indexOf_present (s n : string) :
  (Js.indexOf s n =? -1) = false <-> Js.contains s n.
Proof.
  rewrite Z.eqb_neq, indexOf_absent.
  split; [|tauto]. intros H.
  destruct (Z.eq_dec (Js.indexOf s n) (-1)) as [E|E].
  - apply indexOf_absent in E. tauto.
  - clear H. revert E. induction s as [|c s IH]; cbn [Js.indexOf].
    + destruct (Js.startsWith "" n) eqn:E; [|congruence].
      intros _. apply startsWith_inv in E as [r E]. now exists "", r.
    + destruct (Js.startsWith (String c s) n) eqn:E.
      * intros _. apply startsWith_inv in E as [r E]. now exists "", r.
      * destruct (Z.eqb_spec (Js.indexOf s n) (-1)); [congruence|].
        intros _. destruct (IH n0) as (pre & post & ->).
        now exists (String c pre), post.
Qed.

(** Lower-casing maps exactly ["v"] and ["V"] to ["v"]. *)
Lemma lower_char_v (c : ascii) :
  Js.lower_char c = "v"%char <-> c = "v"%char \/ c = "V"%char.
Proof.
  split.
  - destruct c as [[] [] [] [] [] [] [] []]; vm_compute; intros H;
      first [discriminate H | now left | now right].
  - intros [-> | ->]; reflexivity.
Qed.

Lemma lower_startsWith_v (s : string) :
  Js.startsWith (Js.toLocaleLowerCase s) "v" = true <->
  Js.startsWith s "v" = true \/ Js.startsWith s "V" = true.
Proof.
  destruct s as [|c s]; cbn [Js.startsWith Js.toLocaleLowerCase].
  - split; [discriminate | intros [H|H]; discriminate].
  - rewrite !andb_true_r, !Ascii.eqb_eq.
    rewrite (eq_comm "v"%char), lower_char_v. split; intros [H|H]; auto.
Qed.

Lemma lower_length (s : string) :
  String.length (Js.toLocaleLowerCase s) = String.length s.
Proof. induction s; simpl; congruence. Qed.

End StringFacts.

(** ** Family-scoped discovery *)

Section Discovery.

Lemma lower_app (p r : string) :
  Js.toLocaleLowerCase (p +:+ r) = Js.toLocaleLowerCase p +:+ Js.toLocaleLowerCase r.
Proof. induction p as [|c p IH]; simpl; [reflexivity|]. now rewrite IH. Qed.

Lemma lower_split (s a b : string) :
  Js.toLocaleLowerCase s = a +:+ b ->
  exists p r, s = p +:+ r /\ Js.toLocaleLowerCase p = a /\ Js.toLocaleLowerCase r = b.
Proof.
  revert s; induction a as [|c a IH]; intros s H.
  - exists "", s. simpl in *. auto.
  - destruct s as [|d s]; simpl in H; [discriminate|].
    injection H as Hc Hs. destruct (IH _ Hs) as (p & r & -> & Hp & Hr).
    exists (String d p), r. simpl. now rewrite Hc, Hp.
Qed.

Lemma prefix_ci_iff (type tag : string) :
  Js.startsWith (Js.toLocaleLowerCase tag) type = true <-> prefix_ci type tag.
Proof.
  rewrite startsWith_iff. split.
  - intros [r H]. apply lower_split in H as (p & r' & -> & Hp & _).
    now exists p, r'.
  - intros (p & r & -> & <-). exists (Js.toLocaleLowerCase r). apply lower_app.
Qed.

Lemma isValidVersion_iff (version type : string) :
  isValidVersion version type = true <-> family_stable type version.
Proof.
  unfold isValidVersion, family_stable.
  rewrite <- prefix_ci_iff, <- indexOf_absent.
  destruct (Js.startsWith _ type); simpl.
  - rewrite Z.eqb_eq. tauto.
  - split; [discriminate | intros [? _]; discriminate].
Qed.

Lemma isValidVersion_false (version type : string) :
  isValidVersion version type = false <-> ~ family_stable type version.
Proof.
  rewrite <- isValidVersion_iff. destruct (isValidVersion version type); split;
    congruence.
Qed.

Lemma find_first {A} (f : A -> bool) (before after : list A) (x : A) :
  (forall y, In y before -> f y = false) -> f x = true ->
  List.find f (before ++ x :: after)%list = Some x.
Proof.
  intros Hb Hx. induction before as [|y l IH]; simpl.
  - now rewrite Hx.
  - rewrite (Hb y) by now left. apply IH. intros z Hz. apply Hb. now right.
Qed.

Lemma getInput_token (w : world) :
  token_supplied w ->
  core.getInput "token" true w = (Ok (Js.trim (token_input w)), w).
Proof.
  unfold token_supplied, core.getInput, token_input. intros H.
  destruct (String.eqb_spec (default "" (inputs w !! "token")) ""); [tauto|reflexivity].
Qed.

Lemma getInput_token_missing (w : world) :
  ~ token_supplied w ->
  core.getInput "token" true w
  = (Throw (Error "Input required and not supplied: token"), w).
Proof.
  unfold token_supplied, core.getInput, token_input. intros H.
  destruct (String.eqb_spec (default "" (inputs w !! "token")) ""); [reflexivity|tauto].
Qed.

(** The three outcomes of family-scoped discovery once the token input
    is there. *)
Lemma getLatest_found (type : string) (w : world) nodes r :
  token_supplied w -> discovery_reply w = Ok (Some nodes) ->
  List.find (fun release => isValidVersion (tagName release) type) (rev nodes) = Some r ->
  getLatestHelmVersionFor type w
  = (Ok (tagName r), record (EvGraphql (authorization w)) w).
Proof.
  intros Ht Hr Hf. unfold getLatestHelmVersionFor, bind.
  rewrite (getInput_token w Ht). unfold try_catch, graphql_releases, bind, emit.
  fold (authorization w). cbn [graphql_endpoint record]. fold (discovery_reply w).
  rewrite Hr. unfold ret. now rewrite Hf.
Qed.

Lemma getLatest_none (type : string) (w : world) nodes :
  token_supplied w -> discovery_reply w = Ok (Some nodes) ->
  List.find (fun release => isValidVersion (tagName release) type) (rev nodes) = None ->
  exists w', getLatestHelmVersionFor type w = (Ok (getStableHelmVersionFor type), w').
Proof.
  intros Ht Hr Hf. unfold getLatestHelmVersionFor, bind.
  rewrite (getInput_token w Ht). unfold try_catch, graphql_releases, bind, emit.
  fold (authorization w). cbn [graphql_endpoint record]. fold (discovery_reply w).
  rewrite Hr. unfold ret. rewrite Hf. eauto.
Qed.

Lemma getLatest_failed (type : string) (w : world) :
  token_supplied w ->
  (discovery_reply w = Ok None \/ exists e, discovery_reply w = Throw e) ->
  exists msg,
    getLatestHelmVersionFor type w
    = (Ok (getStableHelmVersionFor type),
       record (EvWarning msg) (record (EvGraphql (authorization w)) w)).
Proof.
  intros Ht Hr. unfold getLatestHelmVersionFor, bind.
  rewrite (getInput_token w Ht). unfold try_catch, graphql_releases, bind, emit.
  fold (authorization w). cbn [graphql_endpoint record]. fold (discovery_reply w).
  destruct Hr as [-> | [e ->]]; unfold throw, ret; eauto.
Qed.

End Discovery.

(** ** Claims on family-scoped discovery *)

(** C2: family-scoped discovery reverses the fetched listing and returns
    the first entry of the reversed list that belongs to the family and is
    not a release candidate; for the listing v3.5.3, v3.6.0-rc.1, v3.5.0
    and the non-legacy input "latest" the resolved version is v3.5.0. *)
Theorem discovery_first_after_reversal (type : string) (w : world) (nodes : list release) :
  token_supplied w ->
  discovery_reply w = Ok (Some nodes) ->
  (forall before r after,
      rev nodes = (before ++ r :: after)%list ->
      (forall x, In x before -> ~ family_stable type (tagName x)) ->
      family_stable type (tagName r) ->
      fst (getLatestHelmVersionFor type w) = Ok (tagName r))
  /\ (nodes = [mkRelease "v3.5.3"; mkRelease "v3.6.0-rc.1"; mkRelease "v3.5.0"] ->
      ~ legacy_mode w ->
      fst (run_version "latest" w) = Ok "v3.5.0").
Proof.
  intros Ht Hr. split.
  - intros before r after Hrev Hb Hs.
    erewrite getLatest_found; eauto. rewrite Hrev.
    apply find_first.
    + intros y Hy. apply isValidVersion_false. auto.
    + now apply isValidVersion_iff.
  - intros -> Hl. unfold run_version, bind, gets.
    rewrite bool_decide_eq_false_2 by exact Hl.
    change (String.eqb (Js.toLocaleLowerCase "latest") "latest"
            || String.eqb "latest" LATEST_HELM3_VERSION) with true.
    cbv iota. erewrite getLatest_found; eauto. reflexivity.
Qed.

Lemma discovery_first_after_reversal_witness :
  token_supplied sample_world
  /\ discovery_reply sample_world = Ok (Some sample_nodes)
  /\ fst (getLatestHelmVersionFor "v3" sample_world) = Ok "v3.5.0"
  /\ fst (run_version "latest" sample_world) = Ok "v3.5.0".
Proof.
  assert (Ht : token_supplied sample_world) by (vm_compute; discriminate).
  assert (Hr : discovery_reply sample_world = Ok (Some sample_nodes)) by reflexivity.
  destruct (discovery_first_after_reversal "v3" sample_world sample_nodes Ht Hr)
    as [Hfirst Hscenario].
  split; [exact Ht|]. split; [exact Hr|]. split.
  - apply (Hfirst [] (mkRelease "v3.5.0") [mkRelease "v3.6.0-rc.1"; mkRelease "v3.5.3"]).
    + reflexivity.
    + intros x [].
    + apply isValidVersion_iff. reflexivity.
  - apply Hscenario; [reflexivity | vm_compute; discriminate].
Defined.

(** C7: for every listing, the tag that family-scoped discovery selects
    contains no "rc" and starts with the family prefix up to letter case;
    a listing without such a tag yields the family default. *)
Theorem discovery_excludes_rc (type : string) (w : world) (nodes : list release) :
  token_supplied w ->
  discovery_reply w = Ok (Some nodes) ->
  (forall version,
      isValidVersion version type = true
      <-> prefix_ci type version /\ ~ Js.contains version "rc")
  /\ exists v w',
      getLatestHelmVersionFor type w = (Ok v, w')
      /\ ((In (mkRelease v) nodes /\ prefix_ci type v /\ ~ Js.contains v "rc")
          \/ (v = getStableHelmVersionFor type
              /\ forall r, In r nodes ->
                   ~ (prefix_ci type (tagName r) /\ ~ Js.contains (tagName r) "rc"))).
Proof.
  intros Ht Hr. split; [intros version; apply isValidVersion_iff|].
  destruct (List.find (fun release => isValidVersion (tagName release) type) (rev nodes))
    as [r|] eqn:Hf.
  - exists (tagName r), (record (EvGraphql (authorization w)) w).
    split; [now apply getLatest_found with nodes|]. left.
    apply find_some in Hf as [Hin Hv]. apply isValidVersion_iff in Hv as [Hp Hc].
    apply in_rev in Hin. destruct r as [t]. auto.
  - destruct (getLatest_none type w nodes Ht Hr Hf) as [w' Hw'].
    exists (getStableHelmVersionFor type), w'. split; [exact Hw'|]. right.
    split; [reflexivity|]. intros r Hin.
    apply (isValidVersion_false (tagName r) type).
    apply (find_none _ _ Hf r). now apply in_rev in Hin.
Qed.

Lemma discovery_excludes_rc_witness :
  token_supplied sample_world
  /\ discovery_reply sample_world = Ok (Some sample_nodes)
  /\ (isValidVersion "v3.6.0-rc.1" "v3" = true
      <-> prefix_ci "v3" "v3.6.0-rc.1" /\ ~ Js.contains "v3.6.0-rc.1" "rc")
  /\ exists v w', getLatestHelmVersionFor "v3" sample_world = (Ok v, w').
Proof.
  assert (Ht : token_supplied sample_world) by (vm_compute; discriminate).
  assert (Hr : discovery_reply sample_world = Ok (Some sample_nodes)) by reflexivity.
  destruct (discovery_excludes_rc "v3" sample_world sample_nodes Ht Hr)
    as [Hvalid (v & w' & Hrun & _)].
  split; [exact Ht|]. split; [exact Hr|]. split; [apply Hvalid|].
  exists v, w'. exact Hrun.
Defined.

(** C10: the release-candidate test is case-sensitive.  A tag with an
    upper-case "RC", no lower-case "rc" and the family prefix is accepted
    as a stable release and selected by family-scoped discovery, while the
    prefix test itself ignores letter case; global discovery, which tests
    the cleaned tag the same way, selects such a tag too. *)
Theorem rc_test_is_case_sensitive :
  exists tag,
    Js.contains tag "RC" /\ ~ Js.contains tag "rc"
    /\ Js.startsWith tag "v3" = true
    /\ isValidVersion tag "v3" = true
    /\ isValidVersion "V3.1.0" "v3" = true
    /\ isValidVersion "v3.0.0-rc.1" "v3" = false
    /\ fst (getLatestHelmVersionFor "v3"
              (linux_runner {[ "token" := "secret" ]} ∅ sample_web
                 (fun _ => Ok (Some [mkRelease tag])) ∅ ∅)) = Ok tag
    /\ fst (getStableHelmVersion
              (linux_runner ∅ ∅
                 (fun _ => Ok (JsonText (JArray [JObject [("tag_name", JString "v9.0.0-RC.1")]])))
                 (fun _ => Ok None) ∅ ∅)) = Ok "v9.0.0-RC.1".
Proof.
  exists "v3.0.0-RC.1".
  split; [now exists "v3.0.0-", ".1"|].
  split; [apply indexOf_absent; reflexivity|].
  repeat (split; [reflexivity|]). vm_compute. reflexivity.
Qed.

(** ** Claims on the versioning block of [run] *)

Section Versioning.

Lemma starts_with_v_ci_iff (s : string) :
  Js.startsWith (Js.toLocaleLowerCase s) "v" = true <-> starts_with_v_ci s.
Proof. apply lower_startsWith_v. Qed.

Lemma starts_with_v_not_keyword (s : string) :
  starts_with_v_ci s ->
  Js.toLocaleLowerCase s <> "latest" /\ s <> "3.*" /\ s <> "2.*".
Proof.
  intros H. apply starts_with_v_ci_iff in H.
  repeat split; intros E; rewrite ?E in H; subst; discriminate H.
Qed.

Lemma getStableHelmVersion_returns (w : world) :
  exists r w', getStableHelmVersion w = (Ok r, w').
Proof.
  unfold getStableHelmVersion, try_catch.
  match goal with |- context [match ?m w with _ => _ end] => destruct (m w) as [[r|e] w'] end.
  - eauto.
  - unfold bind, emit, ret. eauto.
Qed.

Lemma getStableHelmVersion_degrades (w : world) :
  listing_fails w -> fst (getStableHelmVersion w) = Ok stableHelmVersion.
Proof.
  unfold listing_fails, getStableHelmVersion, try_catch, bind, toolCache.downloadTool, bind,
    emit, temp_path, readJson, lift, ret.
  cbn [web files record with_temp with_files].
  destruct (web w helmAllReleasesUrl) as [c|e]; [|reflexivity].
  cbn [files temp record with_temp with_files]. rewrite lookup_insert_eq.
  destruct c as [[]| |]; try reflexivity. tauto.
Qed.

Lemma getLatest_result (type : string) (w : world) (r : string) :
  fst (getLatestHelmVersionFor type w) = Ok r ->
  isValidVersion r type = true \/ r = getStableHelmVersionFor type.
Proof.
  destruct (String.eqb_spec (token_input w) "") as [E|E].
  - unfold getLatestHelmVersionFor, bind.
    rewrite getInput_token_missing by (unfold token_supplied; tauto). discriminate.
  - destruct (discovery_reply w) as [[nodes|]|e] eqn:Hr.
    + destruct (List.find (fun release => isValidVersion (tagName release) type) (rev nodes))
        as [x|] eqn:Hf.
      * rewrite (getLatest_found type w nodes x E Hr Hf). cbn [fst].
        intros [= <-]. left. now apply find_some in Hf as [_ Hv].
      * destruct (getLatest_none type w nodes E Hr Hf) as [w' ->]. cbn [fst].
        intros [= <-]. now right.
    + destruct (getLatest_failed type w E) as [msg ->]; [now left|].
      cbn [fst]. intros [= <-]. now right.
    + destruct (getLatest_failed type w E) as [msg ->]; [right; eauto|].
      cbn [fst]. intros [= <-]. now right.
Qed.

Lemma run_version_legacy (version : string) (w : world) :
  legacy_mode w ->
  run_version version w =
  if String.eqb (Js.toLocaleLowerCase version) "latest" then getStableHelmVersion w
  else if negb (Js.startsWith (Js.toLocaleLowerCase version) "v")
       then (Ok ("v" +:+ version), w) else (Ok version, w).
Proof.
  intros H. unfold run_version, bind, gets.
  rewrite bool_decide_eq_true_2 by exact H.
  repeat match goal with |- context [if ?b then _ else _] => destruct b end; reflexivity.
Qed.

Lemma run_version_default (version : string) (w : world) :
  ~ legacy_mode w ->
  run_version version w =
  if String.eqb (Js.toLocaleLowerCase version) "latest"
     || String.eqb version LATEST_HELM3_VERSION
  then getLatestHelmVersionFor "v3" w
  else if String.eqb version LATEST_HELM2_VERSION then getLatestHelmVersionFor "v2" w
  else if negb (Js.startsWith (Js.toLocaleLowerCase version) "v")
       then (Ok ("v" +:+ version), w) else (Ok version, w).
Proof.
  intros H. unfold run_version, bind, gets.
  rewrite bool_decide_eq_false_2 by exact H.
  repeat match goal with |- context [if ?b then _ else _] => destruct b end; reflexivity.
Qed.

Lemma classic_legacy (w : world) : legacy_mode w \/ ~ legacy_mode w.
Proof. unfold legacy_mode. destruct (decide (env w !! "HELM_INSTALLER_LEGACY_VERSIONING" = Some "true")); auto. Qed.

End Versioning.

(** C6: in legacy mode a token that does not start with "v" in either
    case and is not "latest" up to case resolves to "v" followed by the
    token, and a token that starts with "v" in either case is returned
    unchanged. *)
Theorem legacy_prefixes_v (version : string) (w : world) :
  legacy_mode w ->
  (~ starts_with_v_ci version ->
   Js.toLocaleLowerCase version <> "latest" ->
   run_version version w = (Ok ("v" +:+ version), w))
  /\ (starts_with_v_ci version -> run_version version w = (Ok version, w)).
Proof.
  intros Hl. rewrite (run_version_legacy version w Hl). split.
  - intros Hv Hlatest.
    destruct (String.eqb_spec (Js.toLocaleLowerCase version) "latest"); [tauto|].
    destruct (Js.startsWith (Js.toLocaleLowerCase version) "v") eqn:E; [|reflexivity].
    apply starts_with_v_ci_iff in E. tauto.
  - intros Hv. destruct (starts_with_v_not_keyword version Hv) as (Hlatest & _).
    destruct (String.eqb_spec (Js.toLocaleLowerCase version) "latest"); [tauto|].
    apply starts_with_v_ci_iff in Hv. now rewrite Hv.
Qed.

Lemma legacy_prefixes_v_witness :
  legacy_mode legacy_world
  /\ run_version "2.17.0" legacy_world = (Ok "v2.17.0", legacy_world)
  /\ run_version "V2.17.0" legacy_world = (Ok "V2.17.0", legacy_world).
Proof.
  assert (Hl : legacy_mode legacy_world) by reflexivity.
  split; [exact Hl|]. split.
  - apply (proj1 (legacy_prefixes_v "2.17.0" legacy_world Hl)).
    + intros [H|H]; discriminate H.
    + discriminate.
  - apply (proj2 (legacy_prefixes_v "V2.17.0" legacy_world Hl)).
    right. reflexivity.
Defined.

(** C5, as stated, fails: a token that starts with an upper-case "V" is
    returned unchanged, so the resolved version does not start with "v". *)
Lemma nonlegacy_result_can_start_with_capital_V :
  ~ legacy_mode sample_world
  /\ fst (run_version "V3.0.0" sample_world) = Ok "V3.0.0"
  /\ Js.startsWith "V3.0.0" "v" = false.
Proof.
  split; [vm_compute; discriminate|]. split; reflexivity.
Qed.

(** C5, amended: outside legacy mode "latest" (up to case) and "3.*"
    resolve by v3 discovery, "2.*" by v2 discovery, any other token that
    does not start with "v" in either case gets "v" put in front, a token
    that does is returned unchanged, and every resolved version starts
    with "v" or "V". *)
Theorem nonlegacy_resolution (version : string) (w : world) :
  ~ legacy_mode w ->
  ((Js.toLocaleLowerCase version = "latest" \/ version = "3.*") ->
   run_version version w = getLatestHelmVersionFor "v3" w)
  /\ (version = "2.*" -> run_version version w = getLatestHelmVersionFor "v2" w)
  /\ (Js.toLocaleLowerCase version <> "latest" -> version <> "3.*" -> version <> "2.*" ->
      ~ starts_with_v_ci version ->
      run_version version w = (Ok ("v" +:+ version), w))
  /\ (starts_with_v_ci version -> run_version version w = (Ok version, w))
  /\ (forall r, fst (run_version version w) = Ok r -> starts_with_v_ci r).
Proof.
  intros Hl. rewrite (run_version_default version w Hl).
  unfold LATEST_HELM3_VERSION, LATEST_HELM2_VERSION.
  assert (Hfam : forall type r, (type = "v3" \/ type = "v2") ->
            fst (getLatestHelmVersionFor type w) = Ok r -> starts_with_v_ci r).
  { intros type r Ht H. apply getLatest_result in H as [H | ->].
    - apply starts_with_v_ci_iff. apply isValidVersion_iff in H as [H _].
      apply prefix_ci_iff in H. apply (startsWith_trans _ _ _ H).
      destruct Ht as [-> | ->]; reflexivity.
    - left. destruct Ht as [-> | ->]; reflexivity. }
  destruct (String.eqb_spec (Js.toLocaleLowerCase version) "latest") as [E1|E1];
    destruct (String.eqb_spec version "3.*") as [E3|E3]; cbn [orb];
    try (repeat split; intros; try tauto; try reflexivity;
         try (exfalso; match goal with H : starts_with_v_ci _ |- _ =>
                apply starts_with_v_not_keyword in H; tauto end);
         try (subst version; discriminate);
         eauto; fail).
  destruct (String.eqb_spec version "2.*") as [E2|E2].
  - repeat split; intros; try tauto; try reflexivity; eauto.
    exfalso. match goal with H : starts_with_v_ci _ |- _ =>
                apply starts_with_v_not_keyword in H; tauto end.
  - destruct (Js.startsWith (Js.toLocaleLowerCase version) "v") eqn:Ev; cbn [negb].
    + apply starts_with_v_ci_iff in Ev.
      repeat split; intros; try tauto; try reflexivity.
      cbn [fst] in *. congruence.
    + assert (~ starts_with_v_ci version)
        by (rewrite <- starts_with_v_ci_iff; congruence).
      repeat split; intros; try tauto; try reflexivity.
      cbn [fst] in *. injection H0 as <-. left. reflexivity.
Qed.

Lemma nonlegacy_resolution_witness :
  ~ legacy_mode sample_world
  /\ run_version "LATEST" sample_world = getLatestHelmVersionFor "v3" sample_world
  /\ run_version "2.*" sample_world = getLatestHelmVersionFor "v2" sample_world
  /\ run_version "2.17.0" sample_world = (Ok "v2.17.0", sample_world)
  /\ run_version "V3.0.0" sample_world = (Ok "V3.0.0", sample_world)
  /\ starts_with_v_ci "v3.5.0".
Proof.
  assert (Hl : ~ legacy_mode sample_world) by (vm_compute; discriminate).
  split; [exact Hl|].
  split; [apply (nonlegacy_resolution "LATEST" sample_world Hl); now left|].
  split; [apply (nonlegacy_resolution "2.*" sample_world Hl); reflexivity|].
  split.
  { apply (nonlegacy_resolution "2.17.0" sample_world Hl); try discriminate.
    intros [H|H]; discriminate H. }
  split; [apply (nonlegacy_resolution "V3.0.0" sample_world Hl); now right|].
  apply (nonlegacy_resolution "latest" sample_world Hl). reflexivity.
Defined.

(** C1, as stated, fails: outside legacy mode a token that needs
    family-scoped discovery reads the required [token] input before the
    guarded query, and a missing input is raised to the caller. *)
Lemma resolver_raises_without_token :
  ~ legacy_mode tokenless_world
  /\ fst (run_version "latest" tokenless_world)
     = Throw (Error "Input required and not supplied: token").
Proof.
  split; [vm_compute; discriminate | reflexivity].
Qed.

(** C1, amended: unless the required [token] input is missing while the
    token needs family-scoped discovery outside legacy mode, resolution
    returns a version for every version token in either mode; and when
    discovery fails (the listing cannot be fetched or parsed, the graph
    query throws or has no repository) the result is the hardcoded global
    or per-family default. *)
Theorem resolver_degrades_to_default (version : string) (w : world) :
  token_supplied w \/ legacy_mode w \/ ~ needs_family_discovery version ->
  (exists r w', run_version version w = (Ok r, w'))
  /\ (legacy_mode w -> Js.toLocaleLowerCase version = "latest" -> listing_fails w ->
      fst (run_version version w) = Ok stableHelmVersion)
  /\ (~ legacy_mode w -> Js.toLocaleLowerCase version = "latest" \/ version = "3.*" ->
      graph_query_fails w ->
      fst (run_version version w) = Ok stableHelm3Version)
  /\ (~ legacy_mode w -> version = "2.*" -> graph_query_fails w ->
      fst (run_version version w) = Ok stableHelm2Version).
Proof.
  intros Hpre.
  assert (Hfam : forall type, token_supplied w ->
            exists r w', getLatestHelmVersionFor type w = (Ok r, w')).
  { intros type Ht. destruct (discovery_reply w) as [[nodes|]|e] eqn:Hr.
    - destruct (List.find (fun release => isValidVersion (tagName release) type) (rev nodes))
        as [x|] eqn:Hf.
      + rewrite (getLatest_found type w nodes x Ht Hr Hf). eauto.
      + destruct (getLatest_none type w nodes Ht Hr Hf) as [w' ->]. eauto.
    - destruct (getLatest_failed type w Ht) as [msg ->]; [now left | eauto].
    - destruct (getLatest_failed type w Ht) as [msg ->]; [right; eauto | eauto]. }
  assert (Htok : ~ legacy_mode w -> needs_family_discovery version -> token_supplied w)
    by (intros ? ?; destruct Hpre as [?|[?|?]]; [assumption | contradiction..]).
  split; [|split; [|split]].
  - destruct (classic_legacy w) as [Hl|Hl].
    + rewrite (run_version_legacy version w Hl).
      repeat match goal with |- context [if ?b then _ else _] => destruct b end;
        eauto using getStableHelmVersion_returns.
    + rewrite (run_version_default version w Hl).
      unfold LATEST_HELM3_VERSION, LATEST_HELM2_VERSION.
      destruct (String.eqb_spec (Js.toLocaleLowerCase version) "latest") as [E1|E1];
        [apply Hfam, Htok; [exact Hl | now left]|].
      destruct (String.eqb_spec version "3.*") as [E3|E3]; cbn [orb];
        [apply Hfam, Htok; [exact Hl | right; now left]|].
      destruct (String.eqb_spec version "2.*") as [E2|E2];
        [apply Hfam, Htok; [exact Hl | right; now right]|].
      destruct (negb _); eauto.
  - intros Hl Hv Hf. rewrite (run_version_legacy version w Hl), Hv. cbn [String.eqb].
    now apply getStableHelmVersion_degrades.
  - intros Hl Hv Hf. rewrite (run_version_default version w Hl).
    assert ((String.eqb (Js.toLocaleLowerCase version) "latest"
             || String.eqb version LATEST_HELM3_VERSION) = true) as ->.
    { apply orb_true_iff. destruct Hv as [-> | ->]; [left | right]; reflexivity. }
    assert (Ht : token_supplied w)
      by (apply Htok; [exact Hl | destruct Hv; [left | right; left]; assumption]).
    destruct (getLatest_failed "v3" w Ht Hf) as [msg ->]. reflexivity.
  - intros Hl -> Hf. rewrite (run_version_default "2.*" w Hl).
    change (String.eqb (Js.toLocaleLowerCase "2.*") "latest"
            || String.eqb "2.*" LATEST_HELM3_VERSION) with false.
    change (String.eqb "2.*" LATEST_HELM2_VERSION) with true. cbv iota.
    assert (Ht : token_supplied w)
      by (apply Htok; [exact Hl | right; now right]).
    destruct (getLatest_failed "v2" w Ht Hf) as [msg ->]. reflexivity.
Qed.

Lemma resolver_degrades_to_default_witness :
  token_supplied offline_world
  /\ (exists r w', run_version "2.17.0" tokenless_world = (Ok r, w'))
  /\ fst (run_version "Latest" offline_legacy_world) = Ok "v3.2.1"
  /\ fst (run_version "3.*" offline_world) = Ok "v3.5.3"
  /\ fst (run_version "2.*" offline_world) = Ok "v2.17.0".
Proof.
  assert (Ht : token_supplied offline_world) by (vm_compute; discriminate).
  assert (Hl : legacy_mode offline_legacy_world) by reflexivity.
  assert (Hn : ~ legacy_mode offline_world) by (vm_compute; discriminate).
  assert (Hg : graph_query_fails offline_world) by (right; eexists; reflexivity).
  assert (Hplain : ~ needs_family_discovery "2.17.0")
    by (intros [H|[H|H]]; discriminate H).
  split; [exact Ht|].
  split.
  { apply (resolver_degrades_to_default "2.17.0" tokenless_world).
    right; right; exact Hplain. }
  split.
  { apply (resolver_degrades_to_default "Latest" offline_legacy_world);
      [right; left; exact Hl | exact Hl | reflexivity | exact I]. }
  split.
  { apply (resolver_degrades_to_default "3.*" offline_world);
      [left; exact Ht | exact Hn | now right | exact Hg]. }
  apply (resolver_degrades_to_default "2.*" offline_world);
    [left; exact Ht | exact Hn | reflexivity | exact Hg].
Defined.

(** ** The order of semantic versions *)

Section Lexicographic.

Context {A : Type}.

Variables c d : A -> A -> comparison.

Lemma strong_orElse :
  strong_order c -> strong_order d ->
  strong_order (fun x y => Semver.orElse (c x y) (d x y)).
Proof.
  intros (c1 & c2 & c3) (d1 & d2 & d3). unfold Semver.orElse. repeat split.
  - intros x y z. destruct (c x y) eqn:Exy; try discriminate.
    + rewrite (c2 x y z Exy). intros H. destruct (c y z); eauto.
    + intros _. destruct (c y z) eqn:Eyz; try discriminate.
      * intros _. now rewrite <- (c3 x y z Eyz), Exy.
      * intros _. now rewrite (c1 x y z Exy Eyz).
  - intros x y z. destruct (c x y) eqn:Exy; try discriminate.
    intros H. rewrite (c2 x y z Exy). destruct (c y z); auto.
  - intros x y z. destruct (c y z) eqn:Eyz; try discriminate.
    intros H. rewrite (c3 x y z Eyz). destruct (c x z); auto.
Qed.

Lemma weak_orElse :
  strong_order c -> weak_order d ->
  weak_order (fun x y => Semver.orElse (c x y) (d x y)).
Proof.
  intros (c1 & c2 & c3) Hd x y z. unfold Semver.orElse.
  destruct (c x y) eqn:Exy; try discriminate.
  - rewrite (c2 x y z Exy). destruct (c y z); eauto.
  - intros _. destruct (c y z) eqn:Eyz; try congruence.
    + intros _. now rewrite <- (c3 x y z Eyz), Exy.
    + intros _. now rewrite (c1 x y z Exy Eyz).
Qed.

End Lexicographic.

Section SemverOrder.

Import Semver.

Lemma strong_on_N {A} (f : A -> N) :
  strong_order (fun x y => compareIdentifiers (Num (f x)) (Num (f y))).
Proof.
  unfold compareIdentifiers; cbn [numeric_value]. repeat split; intros x y z.
  - rewrite !N.compare_gt_iff. lia.
  - rewrite N.compare_eq_iff. now intros ->.
  - rewrite N.compare_eq_iff. now intros ->.
Qed.

Lemma compareMain_strong : strong_order compareMain.
Proof.
  unfold compareMain.
  apply (strong_orElse _ _ (strong_on_N major)).
  apply (strong_orElse _ _ (strong_on_N minor)). apply (strong_on_N patch).
Qed.

Lemma string_compare_refl (s : string) : String.compare s s = Eq.
Proof.
  induction s as [|a s IH]; simpl; [reflexivity|].
  unfold Ascii.compare. now rewrite N.compare_refl.
Qed.

(** Strings compare as [String.compare] does. *)
Lemma string_order (x y : string) :
  (if String.eqb x y then Eq else if String.ltb x y then Lt else Gt)
  = String.compare x y.
Proof.
  unfold String.ltb. destruct (String.eqb_spec x y) as [->|Hne].
  - symmetry. apply string_compare_refl.
  - destruct (String.compare x y) eqn:E; try reflexivity.
    apply String.compare_eq_iff in E. contradiction.
Qed.

Lemma string_compare_gt_trans (x y z : string) :
  String.compare x y = Gt -> String.compare y z <> Lt -> String.compare x z = Gt.
Proof.
  intros Hxy Hyz.
  destruct (String.compare x z) eqn:Hxz; [| |reflexivity]; exfalso.
  - apply String.compare_eq_iff in Hxz. subst z.
    rewrite String.compare_antisym, Hxy in Hyz. now apply Hyz.
  - assert (Hle1 : String.le x z) by (unfold String.le, String.leb; now rewrite Hxz).
    assert (Hle2 : String.le z y).
    { unfold String.le, String.leb. rewrite String.compare_antisym.
      destruct (String.compare y z); simpl; auto. }
    assert (Hle : String.le x y) by (etransitivity; eassumption).
    unfold String.le, String.leb in Hle. now rewrite Hxy in Hle.
Qed.

Lemma compareIdentifiers_refl (x : identifier) : compareIdentifiers x x = Eq.
Proof.
  unfold compareIdentifiers. destruct (numeric_value x).
  - apply N.compare_refl.
  - now rewrite String.eqb_refl.
Qed.

Lemma compareIdentifiers_gt_trans (x y z : identifier) :
  compareIdentifiers x y = Gt -> compareIdentifiers y z <> Lt ->
  compareIdentifiers x z = Gt.
Proof.
  unfold compareIdentifiers. rewrite !string_order.
  destruct (numeric_value x) as [a|], (numeric_value y) as [b|],
    (numeric_value z) as [c|]; try congruence.
  - rewrite !N.compare_gt_iff, N.compare_lt_iff. lia.
  - apply string_compare_gt_trans.
Qed.

Lemma identifier_eqb_eq (x y : identifier) : identifier_eqb x y = true -> x = y.
Proof.
  destruct x, y; simpl; try discriminate.
  - intros H. apply N.eqb_eq in H. now subst.
  - intros H. apply String.eqb_eq in H. now subst.
Qed.

Lemma identifier_eqb_refl (x : identifier) : identifier_eqb x x = true.
Proof. destruct x; simpl; [apply N.eqb_refl | apply String.eqb_refl]. Qed.

Lemma comparePreLoop_weak (a b c : list identifier) :
  comparePreLoop a b = Gt -> comparePreLoop b c <> Lt -> comparePreLoop a c <> Lt.
Proof.
  revert b c. induction a as [|x a IH]; intros [|y b] [|z c]; cbn [comparePreLoop];
    try congruence.
  destruct (identifier_eqb x y) eqn:Exy.
  - apply identifier_eqb_eq in Exy. subst y.
    destruct (identifier_eqb x z); [apply IH | congruence].
  - intros Hxy. destruct (identifier_eqb y z) eqn:Eyz.
    + apply identifier_eqb_eq in Eyz. subst z. rewrite Exy. congruence.
    + intros Hyz. pose proof (compareIdentifiers_gt_trans x y z Hxy Hyz) as Hxz.
      destruct (identifier_eqb x z) eqn:Exz; [|congruence].
      apply identifier_eqb_eq in Exz. subst z.
      rewrite compareIdentifiers_refl in Hxz. discriminate.
Qed.

Lemma comparePre_weak : weak_order comparePre.
Proof.
  intros x y z. unfold comparePre.
  destruct (prerelease x) as [|a x'], (prerelease y) as [|b y'],
    (prerelease z) as [|c z']; try congruence.
  apply comparePreLoop_weak.
Qed.

Lemma compareVersions_weak : weak_order compareVersions.
Proof.
  unfold compareVersions. apply weak_orElse.
  - apply compareMain_strong.
  - apply comparePre_weak.
Qed.

(** The string-level consequence: anything [gt] something that is
    [gte] a third version is [gte] it too. *)
Lemma gt_gte_trans (a b c : string) :
  gt a b = Ok true -> gte b c = Ok true -> gte a c = Ok true.
Proof.
  unfold gt, gte, compare.
  destruct (construct a) as [x|]; [|discriminate].
  destruct (construct b) as [y|]; [|discriminate].
  destruct (construct c) as [z|]; [|discriminate].
  intros Hxy Hyz.
  assert (compareVersions x y = Gt) by (destruct (compareVersions x y); congruence).
  assert (compareVersions y z <> Lt) by (destruct (compareVersions y z); congruence).
  pose proof (compareVersions_weak x y z) as Hw.
  destruct (compareVersions x z); tauto || reflexivity.
Qed.

End SemverOrder.

(** ** The text of a cleaned version *)

Section CleanText.

Import Semver.

Lemma string_length_app (a b : string) :
  String.length (a +:+ b) = (String.length a + String.length b)%nat.
Proof. induction a as [|c a IH]; simpl; [reflexivity | now rewrite IH]. Qed.

Lemma string_app_nil_r (s : string) : s +:+ "" = s.
Proof. induction s as [|c s IH]; simpl; [reflexivity | now rewrite IH]. Qed.

Lemma string_app_assoc (a b c : string) : (a +:+ b) +:+ c = a +:+ b +:+ c.
Proof. induction a as [|x a IH]; simpl; [reflexivity | now rewrite IH]. Qed.

Lemma all_app (q : ascii -> bool) (a b : string) :
  Js.all q (a +:+ b) = Js.all q a && Js.all q b.
Proof.
  induction a as [|c a IH]; cbn [Js.all String.append]; [reflexivity|].
  now rewrite IH, andb_assoc.
Qed.

Lemma all_impl (q q' : ascii -> bool) (s : string) :
  (forall c, q c = true -> q' c = true) -> Js.all q s = true -> Js.all q' s = true.
Proof.
  intros H. induction s as [|c s IH]; cbn [Js.all]; [reflexivity|].
  intros [Hc Hs]%andb_true_iff. now rewrite (H c Hc), IH.
Qed.

Lemma split_nonempty (sep : ascii) (s : string) : Js.split sep s <> [].
Proof.
  destruct s as [|c r]; cbn [Js.split]; [discriminate|].
  destruct (Ascii.eqb c sep); [discriminate|]. destruct (Js.split sep r); discriminate.
Qed.

Lemma join_split (sep : ascii) (s : string) :
  Js.join (String sep "") (Js.split sep s) = s.
Proof.
  induction s as [|c r IH]; cbn [Js.split]; [reflexivity|].
  pose proof (split_nonempty sep r) as Hne.
  destruct (Ascii.eqb_spec c sep) as [->|Hc].
  - destruct (Js.split sep r) as [|w ws]; [tauto|].
    change (Js.join (String sep "") ("" :: w :: ws))
      with ("" +:+ String sep "" +:+ Js.join (String sep "") (w :: ws)).
    now rewrite IH.
  - destruct (Js.split sep r) as [|w ws]; [tauto|]. rewrite <- IH.
    destruct ws as [|w' ws]; reflexivity.
Qed.

Lemma all_split (q : ascii -> bool) (sep : ascii) (s : string) :
  q sep = true -> Js.all q s = forallb (Js.all q) (Js.split sep s).
Proof.
  intros Hsep. induction s as [|c r IH]; cbn [Js.split Js.all]; [reflexivity|].
  pose proof (split_nonempty sep r) as Hne.
  destruct (Ascii.eqb_spec c sep) as [->|Hc].
  - cbn [forallb Js.all]. now rewrite Hsep, IH.
  - destruct (Js.split sep r) as [|w ws]; [tauto|].
    cbn [forallb Js.all] in *. now rewrite IH, andb_assoc.
Qed.

Lemma cut_spec (sep : ascii) (s : string) :
  Js.all (fun c => negb (Ascii.eqb c sep)) (fst (Js.cut sep s)) = true
  /\ s = fst (Js.cut sep s)
         +:+ match snd (Js.cut sep s) with
             | Some b => String sep b
             | None => ""
             end.
Proof.
  induction s as [|c r [IH1 IH2]]; cbn [Js.cut]; [split; reflexivity|].
  destruct (Ascii.eqb_spec c sep) as [->|Hc]; [split; reflexivity|].
  destruct (Js.cut sep r) as [a b]. cbn [fst snd] in *. split.
  - cbn [Js.all]. rewrite IH1. now destruct (Ascii.eqb_spec c sep).
  - cbn [String.append]. now rewrite <- IH2.
Qed.

Lemma cut_absent (sep : ascii) (a : string) :
  Js.all (fun c => negb (Ascii.eqb c sep)) a = true -> Js.cut sep a = (a, None).
Proof.
  induction a as [|c a IH]; cbn [Js.cut Js.all]; [reflexivity|].
  intros [Hc Ha]%andb_true_iff. destruct (Ascii.eqb c sep); [discriminate|].
  now rewrite IH.
Qed.

Lemma trim_plain (s : string) :
  Js.all (fun c => negb (Js.is_white c)) s = true -> Js.trim s = s.
Proof.
  intros H. unfold Js.trim.
  assert (Hstart : Js.trimStart s = s).
  { destruct s as [|c r]; [reflexivity|]. cbn [Js.all Js.trimStart] in *.
    apply andb_true_iff in H as [Hc _]. now destruct (Js.is_white c). }
  rewrite Hstart. induction s as [|c r IH]; [reflexivity|].
  cbn [Js.all Js.trimEnd] in *. apply andb_true_iff in H as [Hc Hr].
  rewrite IH; [|exact Hr|].
  - destruct r; [|reflexivity]. now destruct (Js.is_white c).
  - destruct r as [|d r]; [reflexivity|]. cbn [Js.all Js.trimStart] in *.
    apply andb_true_iff in Hr as [Hd _]. now destruct (Js.is_white d).
Qed.

Lemma trimStart_length (s : string) :
  (String.length (Js.trimStart s) <= String.length s)%nat.
Proof.
  induction s as [|c r IH]; cbn [Js.trimStart]; [lia|].
  destruct (Js.is_white c); cbn [String.length]; lia.
Qed.

Lemma trimEnd_length (s : string) :
  (String.length (Js.trimEnd s) <= String.length s)%nat.
Proof.
  induction s as [|c r IH]; cbn [Js.trimEnd]; [lia|].
  destruct (Js.trimEnd r); [destruct (Js.is_white c)|]; cbn [String.length] in *; lia.
Qed.

Lemma trim_length (s : string) : (String.length (Js.trim s) <= String.length s)%nat.
Proof.
  unfold Js.trim. pose proof (trimEnd_length (Js.trimStart s)).
  pose proof (trimStart_length s). lia.
Qed.

(** *** Digits *)

Lemma digit_not_white (c : ascii) : is_version_char c = true -> Js.is_white c = false.
Proof.
  destruct c as [[] [] [] [] [] [] [] []]; vm_compute; intros H;
    first [reflexivity | discriminate H].
Qed.

Lemma digit_is_ident (c : ascii) : Js.is_digit c = true -> is_ident_char c = true.
Proof. unfold is_ident_char. now intros ->. Qed.

Lemma digits_parse (s : string) :
  Js.all Js.is_digit s = true -> exists d, NilEmpty.uint_of_string s = Some d.
Proof.
  induction s as [|c r IH]; cbn [Js.all NilEmpty.uint_of_string]; [eauto|].
  intros [Hc Hr]%andb_true_iff. destruct (IH Hr) as [d ->].
  destruct c as [[] [] [] [] [] [] [] []]; vm_compute in Hc; try discriminate Hc;
    eexists; reflexivity.
Qed.

(** A numeric identifier is the decimal text of its value. *)
Lemma numeric_text (x : string) :
  isNumericIdentifier x = true -> N_to_digits (digits_to_N x) = x.
Proof.
  unfold isNumericIdentifier. destruct x as [|c r]; [discriminate|].
  destruct (Ascii.eqb_spec c "0") as [->|Hc].
  - intros ->%String.eqb_eq. reflexivity.
  - intros [Hd Hr]%andb_true_iff.
    destruct (digits_parse (String c r)) as [d Hp].
    { cbn [Js.all]. now rewrite Hd, Hr. }
    unfold digits_to_N, N_to_digits. rewrite Hp, Unsigned.to_of.
    pose proof (NilEmpty.sus _ _ Hp) as Hs.
    cbn [NilEmpty.uint_of_string] in Hp.
    destruct (NilEmpty.uint_of_string r) as [d'|]; [|discriminate Hp].
    assert (Hnorm : Decimal.unorm d = d).
    { destruct c as [[] [] [] [] [] [] [] []]; vm_compute in Hd; try discriminate Hd;
        cbn in Hp; injection Hp as <-; first [reflexivity | now contradiction Hc]. }
    rewrite Hnorm. destruct d; cbn in Hs |- *; first [discriminate Hs | exact Hs].
Qed.

(** A number that passed the [MAX_SAFE_INTEGER] test was converted
    exactly. *)
Lemma toNumber_safe (n : N) :
  (MAX_SAFE_INTEGER <? toNumber n)%N = false -> toNumber n = n.
Proof.
  unfold toNumber. destruct (n <? 2 ^ 53)%N eqn:E; [reflexivity|].
  intros H. exfalso. apply N.ltb_ge in E, H.
  set (k := (N.log2 n - 52)%N) in *. set (q := N.shiftr n k) in *.
  match type of H with context [N.shiftl ?x k] => set (q' := x) in * end.
  assert (Hq' : (q <= q')%N) by (subst q'; destruct (_ || _); lia).
  assert (HL : (53 <= N.log2 n)%N).
  { rewrite <- (N.log2_pow2 53) by lia. now apply N.log2_le_mono. }
  assert (Hpow : (2 ^ N.log2 n <= n)%N) by (apply N.log2_spec; lia).
  assert (Hsplit : (2 ^ N.log2 n = 2 ^ 52 * 2 ^ k)%N).
  { rewrite <- N.pow_add_r. f_equal. subst k. lia. }
  assert (Hq : (2 ^ 52 <= q)%N).
  { subst q. rewrite N.shiftr_div_pow2. apply N.div_le_lower_bound.
    - apply N.pow_nonzero. lia.
    - rewrite N.mul_comm, <- Hsplit. exact Hpow. }
  assert (Hk : (2 <= 2 ^ k)%N).
  { change 2%N with (2 ^ 1)%N at 1. apply N.pow_le_mono_r; [lia | subst k; lia]. }
  rewrite N.shiftl_mul_pow2 in H. unfold MAX_SAFE_INTEGER in H.
  assert ((2 ^ 52 * 2 <= q' * 2 ^ k)%N) by (apply N.mul_le_mono; lia).
  change (2 ^ 52 * 2)%N with 9007199254740992%N in *. lia.
Qed.

Lemma prerelease_is_ident (id : string) :
  isPrereleaseIdentifier id = true -> Js.all is_ident_char id = true.
Proof.
  unfold isPrereleaseIdentifier, isNumericIdentifier, isNonNumericIdentifier.
  intros [H | H]%orb_true_iff.
  - destruct id as [|c r]; [discriminate|]. cbn [Js.all].
    destruct (Ascii.eqb_spec c "0") as [->|_].
    + apply String.eqb_eq in H as ->. reflexivity.
    + apply andb_true_iff in H as [Hc Hr]. rewrite (digit_is_ident c Hc).
      apply (all_impl Js.is_digit); [exact digit_is_ident | exact Hr].
  - now apply andb_true_iff in H as [H _].
Qed.

(** A prerelease identifier is printed as it was read. *)
Lemma identifier_text_read (id : string) :
  isPrereleaseIdentifier id = true -> identifier_text (toIdentifier id) = id.
Proof.
  intros Hid. unfold toIdentifier.
  destruct (isAllDigits id) eqn:Hd; [|reflexivity].
  destruct (_ <? MAX_SAFE_INTEGER)%N eqn:Hn; [|reflexivity].
  cbn [identifier_text]. rewrite toNumber_safe.
  - apply numeric_text. unfold isPrereleaseIdentifier, isNonNumericIdentifier in Hid.
    unfold isAllDigits in Hd. apply andb_true_iff in Hd as [_ Hd].
    rewrite Hd, andb_false_r, orb_false_r in Hid. exact Hid.
  - apply N.ltb_ge. apply N.ltb_lt in Hn. lia.
Qed.

(** *** The groups of a match *)

(** What a match of [FULL] says about its groups: their text is part of
    the input, matches again with the same groups but the build, and is
    made of identifier characters and dots. *)
Lemma exec_FULL_text (u : string) (g : groups) :
  exec_FULL u = Some g ->
  exec_FULL (version_text g) = Some (mkGroups (m1 g) (m2 g) (m3 g) (m4 g) None)
  /\ (String.length (version_text g) <= String.length u)%nat
  /\ Js.all is_version_char (version_text g) = true
  /\ (exists d r, version_text g = String d r /\ Js.is_digit d = true)
  /\ isNumericIdentifier (m1 g) = true /\ isNumericIdentifier (m2 g) = true
  /\ isNumericIdentifier (m3 g) = true
  /\ match m4 g with
     | Some p => forallb isPrereleaseIdentifier (Js.split "." p) = true
     | None => True
     end.
Proof.
  unfold exec_FULL.
  set (u' := match u with String "v" r => r | _ => u end).
  assert (Hu : (String.length u' <= String.length u)%nat).
  { subst u'. destruct u as [|c r]; [lia|].
    destruct c as [[] [] [] [] [] [] [] []]; cbn [String.length]; lia. }
  pose proof (cut_spec "+" u') as [Hnoplus Hplus].
  destruct (Js.cut "+" u') as [mp b]. cbn [fst snd] in *.
  pose proof (cut_spec "-" mp) as [_ Hminus].
  destruct (Js.cut "-" mp) as [m p] eqn:Hcut. cbn [fst snd] in *.
  pose proof (join_split "." m) as Hdots.
  destruct (Js.split "." m) as [|x [|y [|z [|]]]] eqn:Hsplit; try discriminate.
  destruct (isNumericIdentifier x) eqn:Hx; [|discriminate].
  destruct (isNumericIdentifier y) eqn:Hy; [|discriminate].
  destruct (isNumericIdentifier z) eqn:Hz; [|discriminate].
  cbn [andb].
  destruct (match p with Some p => _ | None => true end) eqn:Hp; [|discriminate].
  destruct (match b with Some b => _ | None => true end); [|discriminate].
  cbn [andb]. intros [= <-]. cbn [m1 m2 m3 m4].
  assert (Hm : m = x +:+ "." +:+ y +:+ "." +:+ z) by (rewrite <- Hdots; reflexivity).
  assert (Htext : version_text (mkGroups x y z p b) = mp).
  { unfold version_text. cbn [m1 m2 m3 m4]. rewrite Hminus, Hm.
    rewrite !string_app_assoc. destruct p; reflexivity. }
  rewrite Htext.
  assert (Hfirst : exists d r, mp = String d r /\ Js.is_digit d = true).
  { rewrite Hminus, Hm.
    unfold isNumericIdentifier in Hx. destruct x as [|d r]; [discriminate|].
    exists d. eexists. split; [reflexivity|].
    destruct (Ascii.eqb_spec d "0") as [->|_]; [reflexivity|].
    now apply andb_true_iff in Hx as [Hx _]. }
  split; [|split; [|split; [|split]]].
  - destruct Hfirst as (d & r & -> & Hd).
    assert (Hv : match String d r with String "v" r' => r' | _ => String d r end
                 = String d r).
    { destruct d as [[] [] [] [] [] [] [] []]; vm_compute in Hd; try discriminate Hd;
        reflexivity. }
    rewrite Hv, (cut_absent "+" _ Hnoplus), Hcut, Hsplit, Hx, Hy, Hz, Hp. reflexivity.
  - rewrite Hplus in Hu. rewrite string_length_app in Hu. lia.
  - rewrite Hminus, Hm. rewrite !all_app.
    assert (Hnum : forall n, isNumericIdentifier n = true -> Js.all is_version_char n = true).
    { intros n Hn. apply (all_impl is_ident_char).
      - intros c Hc. unfold is_version_char. now rewrite Hc.
      - apply prerelease_is_ident. unfold isPrereleaseIdentifier. now rewrite Hn. }
    rewrite (Hnum x Hx), (Hnum y Hy), (Hnum z Hz). cbn [Js.all andb].
    destruct p as [p|]; [|reflexivity]. cbn [Js.all andb].
    rewrite (all_split is_version_char "." p) by reflexivity.
    apply forallb_forall. intros id Hid.
    apply (all_impl is_ident_char).
    + intros c Hc. unfold is_version_char. now rewrite Hc.
    + apply prerelease_is_ident. rewrite forallb_forall in Hp. now apply Hp.
  - exact Hfirst.
  - destruct p; auto.
Qed.

(** The constructor reads the groups of the trimmed text. *)
Lemma construct_inv (u : string) (s : SemVer) :
  construct u = Some s ->
  exists g,
    exec_FULL (Js.trim u) = Some g
    /\ (MAX_LENGTH <? String.length u)%nat = false
    /\ (MAX_SAFE_INTEGER <? toNumber (digits_to_N (m1 g)))%N = false
    /\ (MAX_SAFE_INTEGER <? toNumber (digits_to_N (m2 g)))%N = false
    /\ (MAX_SAFE_INTEGER <? toNumber (digits_to_N (m3 g)))%N = false
    /\ s = mkSemVer (toNumber (digits_to_N (m1 g))) (toNumber (digits_to_N (m2 g)))
             (toNumber (digits_to_N (m3 g)))
             match m4 g with
             | Some p => map toIdentifier (Js.split "." p)
             | None => []
             end
             match m5 g with
             | Some b => Js.split "." b
             | None => []
             end.
Proof.
  unfold construct. destruct (MAX_LENGTH <? String.length u)%nat eqn:Hlen; [discriminate|].
  destruct (exec_FULL (Js.trim u)) as [g|] eqn:Hg; [|discriminate].
  cbv zeta. destruct (_ || _ || _) eqn:Hmax; [discriminate|]. intros [= <-].
  apply orb_false_iff in Hmax as [Hmax Hc]. apply orb_false_iff in Hmax as [Ha Hb].
  exists g. repeat (split; [first [reflexivity | assumption]|]). reflexivity.
Qed.

(** [format] prints the text of the groups. *)
Lemma format_text (g : groups) (b : list string) :
  isNumericIdentifier (m1 g) = true -> isNumericIdentifier (m2 g) = true ->
  isNumericIdentifier (m3 g) = true ->
  match m4 g with
  | Some p => forallb isPrereleaseIdentifier (Js.split "." p) = true
  | None => True
  end ->
  (MAX_SAFE_INTEGER <? toNumber (digits_to_N (m1 g)))%N = false ->
  (MAX_SAFE_INTEGER <? toNumber (digits_to_N (m2 g)))%N = false ->
  (MAX_SAFE_INTEGER <? toNumber (digits_to_N (m3 g)))%N = false ->
  format (mkSemVer (toNumber (digits_to_N (m1 g))) (toNumber (digits_to_N (m2 g)))
            (toNumber (digits_to_N (m3 g)))
            match m4 g with
            | Some p => map toIdentifier (Js.split "." p)
            | None => []
            end b)
  = version_text g.
Proof.
  intros H1 H2 H3 H4 S1 S2 S3. unfold format, version_text.
  cbn [major minor patch prerelease].
  rewrite !toNumber_safe by assumption. rewrite !numeric_text by assumption.
  destruct (m4 g) as [p|].
  - pose proof (split_nonempty "." p) as Hne. pose proof (join_split "." p) as Hj.
    destruct (Js.split "." p) as [|id ids]; [tauto|].
    change (map toIdentifier (id :: ids)) with (toIdentifier id :: map toIdentifier ids).
    cbv iota.
    change (toIdentifier id :: map toIdentifier ids) with (map toIdentifier (id :: ids)).
    rewrite map_map. rewrite (map_ext_in _ (fun x => x)).
    + rewrite map_id, Hj. now rewrite !string_app_assoc.
    + intros x Hx. apply identifier_text_read. rewrite forallb_forall in H4. now apply H4.
  - now rewrite string_app_nil_r.
Qed.

(** [semver.clean] leaves a cleaned version as it is. *)
Lemma clean_fixed (v c : string) : clean v = Some c -> clean c = Some c.
Proof.
  unfold clean at 1. destruct (parse _) as [s|] eqn:Hp; [|discriminate]. intros [= <-].
  unfold parse in Hp.
  destruct (MAX_LENGTH <? _)%nat eqn:Hlen; [discriminate|].
  destruct (exec_FULL _) as [g0|]; [|discriminate].
  destruct (construct_inv _ _ Hp) as (g & Hg & _ & S1 & S2 & S3 & ->).
  destruct (exec_FULL_text _ _ Hg)
    as (Hre & Hlength & Hplain & (d & r & Hd & Hdig) & H1 & H2 & H3 & H4).
  rewrite (format_text g _ H1 H2 H3 H4 S1 S2 S3).
  assert (Htrim : Js.trim (version_text g) = version_text g).
  { apply trim_plain. eapply all_impl; [|exact Hplain].
    intros c Hc. now rewrite (digit_not_white c Hc). }
  assert (Hstrip : strip_eq_v (version_text g) = version_text g).
  { rewrite Hd. cbn [strip_eq_v].
    destruct d as [[] [] [] [] [] [] [] []]; vm_compute in Hdig; try discriminate Hdig;
      reflexivity. }
  assert (Hshort : (MAX_LENGTH <? String.length (version_text g))%nat = false).
  { apply Nat.ltb_ge. apply Nat.ltb_ge in Hlen.
    match type of Hlen with (String.length ?t <= _)%nat => pose proof (trim_length t) end.
    lia. }
  unfold clean. rewrite Htrim, Hstrip. unfold parse, construct.
  rewrite Hshort, Htrim, Hre. cbn [m1 m2 m3 m4 m5]. rewrite S1, S2, S3. cbn [orb].
  f_equal. exact (format_text g [] H1 H2 H3 H4 S1 S2 S3).
Qed.

(** A cleaned version is a valid one. *)
Lemma clean_valid (v c : string) : clean v = Some c -> valid c = Some c.
Proof.
  intros H. pose proof (clean_fixed v c H) as Hc. unfold clean in Hc. unfold valid.
  revert H Hc. unfold clean at 1. destruct (parse (strip_eq_v (Js.trim v))) as [s|] eqn:Hp;
    [|discriminate].
  intros [= <-].
  unfold parse in Hp.
  destruct (MAX_LENGTH <? _)%nat eqn:Hlen; [discriminate|].
  destruct (exec_FULL _) as [g0|]; [|discriminate].
  destruct (construct_inv _ _ Hp) as (g & Hg & _ & S1 & S2 & S3 & ->).
  destruct (exec_FULL_text _ _ Hg)
    as (Hre & Hlength & Hplain & (d & r & Hd & Hdig) & H1 & H2 & H3 & H4).
  rewrite (format_text g _ H1 H2 H3 H4 S1 S2 S3).
  assert (Htrim : Js.trim (version_text g) = version_text g).
  { apply trim_plain. eapply all_impl; [|exact Hplain].
    intros c Hc. now rewrite (digit_not_white c Hc). }
  assert (Hstrip : strip_eq_v (version_text g) = version_text g).
  { rewrite Hd. cbn [strip_eq_v].
    destruct d as [[] [] [] [] [] [] [] []]; vm_compute in Hdig; try discriminate Hdig;
      reflexivity. }
  now rewrite Htrim, Hstrip.
Qed.

End CleanText.

(** ** Global discovery *)

Section GlobalDiscovery.

Lemma seed_above_seed : above_seed (Semver.clean stableHelmVersion).
Proof. exists "3.2.1". split; vm_compute; reflexivity. Qed.

Lemma visitResponse_above_seed latest response latest' :
  visitResponse latest response = Ok latest' ->
  above_seed latest -> above_seed latest'.
Proof.
  unfold visitResponse. intros H Hinv.
  repeat match type of H with
         | context [match ?x with _ => _ end] =>
             destruct x eqn:?; try discriminate H
         end;
    injection H as <-; try exact Hinv.
  destruct Hinv as (l & -> & Hl). cbn [gt_nullable] in *.
  eexists; split; [reflexivity|]. eapply gt_gte_trans; eassumption.
Qed.

Lemma forEachResponse_above_seed items latest latest' :
  forEachResponse items latest = Ok latest' ->
  above_seed latest -> above_seed latest'.
Proof.
  revert latest. induction items as [|response rest IH]; intros latest; cbn [forEachResponse].
  - now intros [= <-].
  - destruct (visitResponse latest response) as [l1|e] eqn:Hv; [|discriminate].
    intros H Hinv. apply (IH l1 H). eapply visitResponse_above_seed; eassumption.
Qed.

Lemma scanResponses_above_seed responseArray latest :
  scanResponses responseArray (Semver.clean stableHelmVersion) = Ok latest ->
  above_seed latest.
Proof.
  destruct responseArray; try discriminate. cbn [scanResponses]. intros H.
  eapply forEachResponse_above_seed; [exact H | apply seed_above_seed].
Qed.

End GlobalDiscovery.

Ltac stable_events :=
  repeat first
    [ apply List.Forall_nil
    | apply List.Forall_cons; [first [now left | right; eexists; reflexivity]|] ].

Section GlobalDiscoveryRun.

(** Global discovery always returns: "v" and a version not below the
    seed, after fetching the listing once and at most one warning. *)
Lemma getStableHelmVersion_spec (w : world) :
  exists l w' evs,
    getStableHelmVersion w = (Ok ("v" +:+ l), w')
    /\ Semver.gte l stableHelmVersion = Ok true
    /\ extends w w' evs
    /\ Forall (fun ev => ev = EvDownload helmAllReleasesUrl
                         \/ exists msg, ev = EvWarning msg) evs
    /\ os_type w' = os_type w.
Proof.
  assert (Hseed : Semver.gte "3.2.1" stableHelmVersion = Ok true)
    by (vm_compute; reflexivity).
  unfold getStableHelmVersion, try_catch, bind, toolCache.downloadTool, bind, emit, temp_path,
    extends.
  simpl_world.
  destruct (web w helmAllReleasesUrl) as [body|e].
  2:{ exists "3.2.1". do 2 eexists. split; [reflexivity|]. split; [exact Hseed|].
      simpl_world. split; [instantiate (1 := [_; _]); reflexivity|].
      split; [|reflexivity]. stable_events. }
  match goal with |- context [readJson ?p ?w0] =>
    destruct (readJson p w0) as [[responseArray|e] w2] eqn:Hread
  end.
  2:{ unfold readJson in Hread. simpl_world. rewrite lookup_insert_eq in Hread.
      destruct body as [?| |]; try discriminate Hread; injection Hread as _ <-;
        (exists "3.2.1"; do 2 eexists; split; [reflexivity|]; split; [exact Hseed|];
         simpl_world; split; [instantiate (1 := [_; _]); reflexivity|];
         split; [stable_events | reflexivity]). }
  assert (Hw2 : trace w2 = EvDownload helmAllReleasesUrl :: trace w
                /\ os_type w2 = os_type w).
  { unfold readJson in Hread. simpl_world. rewrite lookup_insert_eq in Hread.
    destruct body as [?| |]; try discriminate Hread; injection Hread as _ <-;
      now simpl_world. }
  destruct Hw2 as [Htr Hos]. unfold lift.
  destruct (scanResponses responseArray (Semver.clean stableHelmVersion))
    as [latest|e] eqn:Hscan.
  - apply scanResponses_above_seed in Hscan as (l & -> & Hl).
    exists l, w2, [EvDownload helmAllReleasesUrl].
    split; [reflexivity|]. split; [exact Hl|]. split; [exact Htr|].
    split; [stable_events | exact Hos].
  - exists "3.2.1". do 2 eexists. split; [reflexivity|]. split; [exact Hseed|].
    simpl_world. rewrite Htr. split; [instantiate (1 := [_; _]); reflexivity|].
    split; [stable_events | exact Hos].
Qed.

End GlobalDiscoveryRun.

(** C4: for every runner, hence for every release listing, empty and
    malformed ones included, global discovery returns "v" followed by a
    version that is greater than or equal to the hardcoded default. *)
Theorem global_discovery_at_least_seed (w : world) :
  exists r w',
    getStableHelmVersion w = (Ok r, w')
    /\ Js.startsWith r "v" = true
    /\ exists l, r = "v" +:+ l /\ Semver.gte l stableHelmVersion = Ok true.
Proof.
  destruct (getStableHelmVersion_spec w) as (l & w' & _ & Hrun & Hl & _).
  exists ("v" +:+ l), w'. split; [exact Hrun|]. split; [reflexivity|]. now exists l.
Qed.

(** Global discovery on an empty listing, on a listing whose entries are
    all malformed, and on one with a release above the seed. *)
Example global_discovery_examples :
  let serve j := linux_runner ∅ ∅ (fun _ => Ok (JsonText j)) (fun _ => Ok None) ∅ ∅ in
  fst (getStableHelmVersion (serve (JArray []))) = Ok "v3.2.1"
  /\ fst (getStableHelmVersion
            (serve (JArray [JNull; JNumber "7"; JObject [("tag_name", JString "nightly")];
                            JObject [("tag_name", JObject [("toString", JNull)])]])))
     = Ok "v3.2.1"
  /\ fst (getStableHelmVersion (serve (JObject [("message", JString "rate limited")])))
     = Ok "v3.2.1"
  /\ fst (getStableHelmVersion
            (serve (JArray [JObject [("tag_name", JString "v3.1.9")];
                            JObject [("tag_name", JString "v3.9.0-rc.1")];
                            JObject [("tag_name", JString "v3.4.2")];
                            JObject [("tag_name", JString "v3.4.0")]])))
     = Ok "v3.4.2".
Proof. vm_compute. repeat split; reflexivity. Qed.

(** ** Acquisition *)




Section Walk.

Variables (os fileToFind : string).

Lemma walkSync_Directory dir entries filelist :
  walkSync os dir (Directory entries) filelist fileToFind
  = walkEntries os dir fileToFind entries filelist.
Proof.
  unfold walkEntries. cbn [walkSync].
  revert filelist. induction entries as [|[file c] rest IH]; intros filelist.
  - reflexivity.
  - cbn [fold_left]. rewrite <- IH. reflexivity.
Qed.

Lemma has_file_Directory entries :
  has_file fileToFind (Directory entries) <-> any_has_file fileToFind entries.
Proof.
  unfold any_has_file. cbn [has_file].
  induction entries as [|[file c] rest IH].
  - split; [tauto | intros H; inversion H].
  - rewrite Exists_cons, <- IH. reflexivity.
Qed.

(** The walk only appends to the list it is given. *)
Lemma walkSync_appends (n : node) :
  forall dir filelist,
    walkSync os dir n filelist fileToFind
    = (filelist ++ walkSync os dir n [] fileToFind)%list.
Proof.
  induction n as [|entries IH] using node_induction; intros dir filelist.
  - cbn [walkSync]. now rewrite app_nil_r.
  - rewrite !walkSync_Directory. unfold walkEntries.
    revert filelist. induction IH as [|[file c] rest Hc _ IHrest]; intros filelist.
    + cbn [fold_left]. now rewrite app_nil_r.
    + cbn [fold_left]. cbn [snd] in Hc. rewrite IHrest.
      rewrite (IHrest (match c with
                       | File => _ | Directory _ => _ end)).
      rewrite app_assoc. f_equal.
      destruct c as [|sub].
      * destruct (String.eqb file fileToFind); [reflexivity | now rewrite app_nil_r].
      * apply Hc.
Qed.

(** The walk finds nothing exactly when no regular file of the tree
    has the name looked for. *)
Lemma walkSync_nothing (n : node) :
  forall dir, walkSync os dir n [] fileToFind = [] <-> ~ has_file fileToFind n.
Proof.
  induction n as [|entries IH] using node_induction; intros dir.
  - cbn. tauto.
  - rewrite walkSync_Directory, has_file_Directory. unfold walkEntries, any_has_file.
    induction IH as [|[file c] rest Hc _ IHrest].
    + cbn [fold_left]. rewrite Exists_nil. tauto.
    + cbn [fold_left]. cbn [snd] in Hc. rewrite Exists_cons.
      fold (walkEntries os dir fileToFind rest
              (match c with
               | File => if String.eqb file fileToFind
                         then ([] ++ [path.join os [dir; file]])%list else []
               | Directory _ => walkSync os (path.join os [dir; file]) c [] fileToFind
               end)).
      rewrite <- walkSync_Directory, walkSync_appends, walkSync_Directory.
      unfold walkEntries. split.
      * intros H. apply app_nil in H as [H1 H2]. apply IHrest in H2.
        intros [Hhere | Hrest]; [|tauto].
        destruct c as [|sub].
        -- subst file. rewrite String.eqb_refl in H1. discriminate.
        -- apply (Hc (path.join os [dir; file])) in H1. tauto.
      * intros H. apply app_nil; split.
        -- destruct c as [|sub].
           ++ destruct (String.eqb_spec file fileToFind); [tauto | reflexivity].
           ++ apply Hc. tauto.
        -- apply IHrest. tauto.
Qed.

End Walk.

Section Paths.

Lemma append_nonempty_r (a b : string) (c : ascii) : a +:+ String c b <> "".
Proof. destruct a; discriminate. Qed.

Lemma append_nonempty (a b : string) : b <> "" -> a +:+ b <> "".
Proof. destruct a; [tauto | discriminate]. Qed.

Lemma length_nonzero (s : string) : (Js.length s =? 0) = false -> s <> "".
Proof. intros H ->. discriminate H. Qed.

Lemma posix_normalize_nonempty (p : string) : path.posix.normalize p <> "".
Proof.
  unfold path.posix.normalize. destruct (Js.length p =? 0); [discriminate|].
  set (q := path.normalizeString _ _ _ _).
  destruct (Js.length q =? 0) eqn:E.
  - repeat match goal with |- context [if ?b then _ else _] => destruct b end; discriminate.
  - apply length_nonzero in E.
    repeat match goal with |- context [if ?b then _ else _] => destruct b end;
      first [exact E | discriminate | apply append_nonempty_r].
Qed.

Lemma win32_matchRoot_nonempty (p root : string) :
  path.win32.matchRoot p = inl root -> root <> "".
Proof.
  unfold path.win32.matchRoot.
  repeat match goal with |- context [if ?b then _ else _] => destruct b end;
    intros [= <-]; discriminate.
Qed.

Lemma win32_normalize_nonempty (p : string) : path.win32.normalize p <> "".
Proof.
  unfold path.win32.normalize. destruct (Js.length p =? 0); [discriminate|].
  destruct (Js.length p =? 1) eqn:E1.
  - destruct (path.isPosixPathSeparator _); [discriminate|]. intros ->. discriminate E1.
  - destruct (path.win32.matchRoot p) as [root|[[device rootEnd] isAbsolute]] eqn:Hroot.
    + now apply win32_matchRoot_nonempty in Hroot.
    + set (tail0 := if rootEnd <? Js.length p then _ else "").
      destruct isAbsolute; cbn [negb andb].
      * rewrite andb_false_r. destruct device; [|discriminate].
        repeat match goal with |- context [if ?b then _ else _] => destruct b end;
          apply append_nonempty_r.
      * rewrite andb_true_r.
        assert (H : (if Js.length tail0 =? 0 then "." else tail0) <> "").
        { destruct (Js.length tail0 =? 0) eqn:E; [discriminate | now apply length_nonzero]. }
        set (tail1 := if Js.length tail0 =? 0 then "." else tail0) in *.
        assert (H' : (if (0 <? Js.length tail1)
                         && path.isPathSeparator (Js.charCodeAt p (Js.length p - 1))
                      then tail1 +:+ "\" else tail1) <> "").
        { destruct (_ && _); [apply append_nonempty_r | exact H]. }
        destruct device; [now apply append_nonempty | exact H'].
Qed.

(** [path.join] never returns the empty string. *)
Lemma path_join_nonempty (os : string) (paths : list string) : path.join os paths <> "".
Proof.
  unfold path.join, path.win32.join, path.posix.join.
  destruct (is_windows os); destruct (List.filter path.nonEmpty paths) as [|firstPart rest];
    try discriminate.
  - destruct (if path.isPathSeparator _ then _ else _) as [needsReplace slashCount].
    apply win32_normalize_nonempty.
  - apply posix_normalize_nonempty.
Qed.

End Paths.

Section Primitives.

Lemma path_exists_root (w : world) root entries :
  dirs w !! root = Some entries -> path_exists w root = true.
Proof.
  intros H. unfold path_exists. destruct (files w !! root); [reflexivity|].
  apply existsb_exists. exists (root, entries). split.
  - apply list_elem_of_In, elem_of_map_to_list. exact H.
  - cbn [node_paths existsb]. now rewrite String.eqb_refl.
Qed.

Lemma path_exists_file (w : world) p c :
  files w !! p = Some c -> path_exists w p = true.
Proof. intros H. unfold path_exists. now rewrite H. Qed.

Lemma path_exists_same (w w' : world) p :
  same_store w w' -> path_exists w p = path_exists w' p.
Proof. intros (Ho & Hf & Hd & _). unfold path_exists. now rewrite Ho, Hf, Hd. Qed.

Lemma same_store_refl w : same_store w w.
Proof. repeat split. Qed.

Lemma same_store_trans w1 w2 w3 :
  same_store w1 w2 -> same_store w2 w3 -> same_store w1 w3.
Proof.
  unfold same_store. intros (?&?&?&?&?&?&?) (?&?&?&?&?&?&?). repeat split; congruence.
Qed.

Lemma same_store_sym w1 w2 : same_store w1 w2 -> same_store w2 w1.
Proof. unfold same_store. intros (?&?&?&?&?&?&?). repeat split; congruence. Qed.

Lemma same_store_record ev w : same_store w (record ev w).
Proof. repeat split. Qed.

Lemma same_store_platform w w' : same_store w w' -> same_platform w w'.
Proof. intros (?&?&?&?&?&?&?). repeat split; assumption. Qed.

Lemma same_platform_refl w : same_platform w w.
Proof. repeat split. Qed.

Lemma same_platform_trans w1 w2 w3 :
  same_platform w1 w2 -> same_platform w2 w3 -> same_platform w1 w3.
Proof. unfold same_platform. intros (?&?&?&?) (?&?&?&?). repeat split; congruence. Qed.

(** [findHelm] reads the store and records one [chmod]. *)
Lemma findHelm_eq root w :
  findHelm root w =
  if path_exists w root then
    (match dirs w !! root with
     | None => Throw (Error ("ENOENT: no such file or directory, scandir '"
                             +:+ root +:+ "'"))
     | Some entries =>
         match walkSync (os_type w) root (Directory entries) [] (helm_executable w) with
         | [] => Throw (Error ("Helm executable not found in path " +:+ root))
         | first :: _ => Ok first
         end
     end, record (EvChmod root "777") w)
  else (Throw (Error ("ENOENT: no such file or directory, chmod '" +:+ root +:+ "'")), w).
Proof.
  unfold findHelm, bind, fs.chmodSync, gets, fs.readdirSync, helm_executable.
  destruct (path_exists w root); [|reflexivity]. simpl_world.
  destruct (dirs w !! root); [|reflexivity].
  match goal with |- context [walkSync ?a ?b ?c ?d ?e] => destruct (walkSync a b c d e) end;
    reflexivity.
Qed.

Lemma locateHelm_spec c w r w1 :
  locateHelm c w = (r, w1) ->
  same_store w w1
  /\ (exists evs, extends w w1 evs /\ only_chmod evs)
  /\ forall w', same_store w w' -> fst (locateHelm c w') = r.
Proof.
  unfold locateHelm, bind. rewrite findHelm_eq.
  assert (Hstable : forall w', same_store w w' ->
            fst (locateHelm c w') = fst (locateHelm c w)).
  { intros w' Hs. unfold locateHelm, bind. rewrite !findHelm_eq.
    rewrite <- (path_exists_same w w' c Hs).
    pose proof Hs as (Ho & Hf & Hd & Hc). unfold helm_executable. rewrite <- Ho, <- Hd.
    destruct (path_exists w c); [|reflexivity].
    destruct (dirs w !! c) as [entries|]; [|reflexivity].
    destruct (walkSync _ _ _ _ _) as [|first rest]; [reflexivity|].
    destruct (String.eqb first ""); [reflexivity|].
    unfold fs.chmodSync, ret.
    assert (Hp : path_exists (record (EvChmod c "777") w') first
                 = path_exists (record (EvChmod c "777") w) first).
    { apply path_exists_same.
      eapply same_store_trans; [apply same_store_sym, same_store_record|].
      eapply same_store_trans; [apply same_store_sym, Hs | apply same_store_record]. }
    rewrite Hp.
    destruct (path_exists (record (EvChmod c "777") w) first); reflexivity. }
  intros H.
  assert (Hr : fst (locateHelm c w) = r).
  { unfold locateHelm, bind. rewrite findHelm_eq. now rewrite H. }
  split; [|split; [|intros w' Hs; rewrite <- Hr; now apply Hstable]].
  - revert H. destruct (path_exists w c); [|intros [= _ <-]; apply same_store_refl].
    destruct (dirs w !! c) as [entries|]; [|intros [= _ <-]; apply same_store_record].
    destruct (walkSync _ _ _ _ _) as [|first rest];
      [intros [= _ <-]; apply same_store_record|].
    destruct (String.eqb first ""); [intros [= _ <-]; apply same_store_record|].
    unfold fs.chmodSync, ret. destruct (path_exists _ first); intros [= _ <-];
      repeat split.
  - revert H. unfold extends, only_chmod.
    destruct (path_exists w c); [|intros [= _ <-]; exists []; split; [reflexivity | constructor]].
    destruct (dirs w !! c) as [entries|];
      [|intros [= _ <-]; exists [EvChmod c "777"]; split; [reflexivity | repeat econstructor]].
    destruct (walkSync _ _ _ _ _) as [|first rest];
      [intros [= _ <-]; exists [EvChmod c "777"]; split; [reflexivity | repeat econstructor]|].
    destruct (String.eqb first "");
      [intros [= _ <-]; exists [EvChmod c "777"]; split; [reflexivity | repeat econstructor]|].
    unfold fs.chmodSync, ret. destruct (path_exists _ first); intros [= _ <-].
    + exists [EvChmod first "777"; EvChmod c "777"]. split; [reflexivity | repeat econstructor].
    + exists [EvChmod c "777"]. split; [reflexivity | repeat econstructor].
Qed.

(** A path that [locateHelm] returns is not empty and exists. *)
Lemma locateHelm_returns c w p w1 :
  locateHelm c w = (Ok p, w1) -> p <> "" /\ path_exists w1 p = true.
Proof.
  unfold locateHelm, bind. destruct (findHelm c w) as [[h|e] w0]; [|discriminate].
  destruct (String.eqb_spec h ""); [discriminate|].
  unfold fs.chmodSync, ret. destruct (path_exists w0 h) eqn:E; [|discriminate].
  intros [= <- <-]. split; [assumption | exact E].
Qed.

End Primitives.

Section Cache.

Lemma versionDirectory_fixed (version : string) :
  toolCache.versionDirectory (toolCache.versionDirectory version)
  = toolCache.versionDirectory version.
Proof.
  unfold toolCache.versionDirectory.
  destruct (Semver.clean version) as [c|] eqn:E; cbn [default from_option id].
  - now rewrite (clean_fixed _ _ E).
  - now rewrite E.
Qed.

(** An explicit version is one that [semver.clean] accepts. *)
Lemma explicit_clean (version : string) :
  toolCache._isExplicitVersion version = true <-> exists c, Semver.clean version = Some c.
Proof.
  unfold toolCache._isExplicitVersion.
  destruct (Semver.clean version) as [c|] eqn:E; cbn [default from_option id].
  - rewrite (clean_valid _ _ E). split; eauto.
  - split; [intros H; vm_compute in H; discriminate H | intros [c [=]]].
Qed.

Lemma explicit_nonempty (version : string) :
  toolCache._isExplicitVersion version = true -> version <> "".
Proof. intros H ->. vm_compute in H. discriminate H. Qed.

Lemma reads_bind {A B} (m : M A) (k : A -> M B) :
  reads m -> (forall a, reads (k a)) -> reads (bind m k).
Proof.
  intros Hm Hk w. unfold bind. specialize (Hm w).
  destruct (m w) as [[a|e] w']; cbn [snd] in *; subst; [apply Hk | reflexivity].
Qed.

Lemma reads_gets {A} (f : world -> A) : reads (gets f).
Proof. now intros w. Qed.

Lemma reads_ret {A} (a : A) : reads (ret a).
Proof. now intros w. Qed.

Lemma reads_lift {A} (r : result A) : reads (lift r).
Proof. now intros w. Qed.

(** The cache lookup changes nothing on the runner. *)
Lemma find_eq (version : string) (w : world) :
  version <> "" ->
  toolCache.find helmToolName version w
  = (cache_lookup w version, record (EvFind helmToolName version) w).
Proof.
  intros Hv. unfold cache_lookup.
  assert (H : snd (toolCache.find helmToolName version w)
              = record (EvFind helmToolName version) w).
  { unfold toolCache.find. change (String.eqb helmToolName "") with false. cbv iota.
    destruct (String.eqb_spec version ""); [tauto|].
    unfold bind at 1, emit.
    match goal with |- snd (?m ?w0) = _ => assert (Hr : reads m); [|apply Hr] end.
    unfold toolCache.findAllVersions, toolCache._evaluateVersions.
    repeat first [ apply reads_gets | apply reads_ret | apply reads_lift
                 | apply reads_bind; [|intros ?]
                 | match goal with |- reads (if ?b then _ else _) => destruct b end ]. }
  rewrite <- H. now destruct (toolCache.find helmToolName version w).
Qed.


(** The lookup of an explicit version: the entry of its cleaned form. *)
Lemma cache_lookup_explicit (w : world) (version c : string) :
  Semver.clean version = Some c ->
  cache_lookup w version
  = Ok (if bool_decide ((helmToolName, c) ∈ tool_cache w)
        then cache_path w helmToolName c else "").
Proof.
  intros Hc.
  assert (He : toolCache._isExplicitVersion version = true) by (apply explicit_clean; eauto).
  pose proof (explicit_nonempty version He) as Hv.
  unfold cache_lookup, toolCache.find. change (String.eqb helmToolName "") with false.
  cbv iota. destruct (String.eqb_spec version ""); [tauto|].
  rewrite He. cbn [negb]. unfold bind, emit, gets, ret. cbn [fst snd].
  destruct (String.eqb_spec version ""); [tauto|]. cbn [negb]. rewrite Hc.
  reflexivity.
Qed.

(** Whatever the lookup finds is the directory of a complete entry. *)
Lemma cache_lookup_entry (w : world) (version c : string) :
  cache_lookup w version = Ok c -> c <> "" ->
  exists key, c = cache_path w helmToolName key /\ (helmToolName, key) ∈ tool_cache w.
Proof.
  unfold cache_lookup, toolCache.find. change (String.eqb helmToolName "") with false.
  cbv iota. destruct (String.eqb version ""); [discriminate|].
  unfold bind at 1, emit. unfold bind at 1, gets at 1. unfold bind at 1.
  match goal with |- context [match ?m ?w0 with _ => _ end] => destruct (m w0) as [[spec|e] w1] eqn:Hm end;
    [|discriminate].
  assert (Hw : w1 = record (EvFind helmToolName version) w).
  { match type of Hm with ?m ?w0 = _ => assert (Hr : reads m) end.
    { unfold toolCache.findAllVersions, toolCache._evaluateVersions.
      repeat first [ apply reads_gets | apply reads_ret | apply reads_lift
                   | apply reads_bind; [|intros ?]
                   | match goal with |- reads (if ?b then _ else _) => destruct b end ]. }
    specialize (Hr (record (EvFind helmToolName version) w)). rewrite Hm in Hr.
    now cbn [snd] in Hr. }
  subst w1. destruct (negb (String.eqb spec "")); [|intros [= <-]; tauto].
  unfold bind, gets, ret. cbn [fst].
  destruct (bool_decide _) eqn:Hin; [|intros [= <-]; tauto].
  intros [= <-] _. apply bool_decide_eq_true in Hin. eexists. split; [reflexivity | exact Hin].
Qed.

Lemma cache_lookup_ext (w w' : world) (version : string) :
  same_platform w w' -> tool_cache w = tool_cache w' ->
  cache_lookup w' version = cache_lookup w version.
Proof.
  intros (Ho & Ha & Hr & Hs) Hc.
  unfold cache_lookup, toolCache.find.
  destruct (String.eqb helmToolName ""); [reflexivity|].
  destruct (String.eqb version ""); [reflexivity|].
  unfold bind, emit, gets, ret, lift, toolCache.findAllVersions, toolCache._evaluateVersions,
    bind, lift, gets, ret.
  cbn [os_type os_arch cache_root tool_cache semver_satisfies record fst snd].
  destruct (negb (toolCache._isExplicitVersion version)); cbv beta;
    cbn [tool_cache semver_satisfies record].
  - rewrite <- Hc, <- Hs. destruct (toolCache.sortVersions _) as [a|e]; [|reflexivity].
    destruct (negb (String.eqb _ "")); cbv beta;
      cbn [fst tool_cache os_type cache_root record]; [|reflexivity].
    now rewrite <- Hc, <- Ho, <- Hr, <- Ha.
  - destruct (negb (String.eqb version "")); cbv beta;
      cbn [fst tool_cache os_type cache_root record]; [|reflexivity].
    now rewrite <- Hc, <- Ho, <- Hr, <- Ha.
Qed.

Lemma cache_lookup_record (ev : event) (w : world) (version : string) :
  cache_lookup (record ev w) version = cache_lookup w version.
Proof. symmetry. apply cache_lookup_ext; repeat split. Qed.

Lemma cache_lookup_same (w w' : world) (version : string) :
  same_store w w' -> cache_lookup w' version = cache_lookup w version.
Proof.
  intros (Ho & _ & _ & Hc & Ha & Hr & Hs). apply cache_lookup_ext; [|exact Hc].
  repeat split; assumption.
Qed.

Lemma cache_lookup_cases (w : world) (version : string) :
  (exists c, cache_lookup w version = Ok c /\ c <> "")
  \/ cache_lookup w version = Ok ""
  \/ exists e, cache_lookup w version = Throw e.
Proof.
  destruct (cache_lookup w version) as [c|e]; [|right; right; eauto].
  destruct (String.eqb_spec c ""); [right; left; now subst | left; eauto].
Qed.

End Cache.

Section Fetch.

Lemma count_events_app p (a b : list event) :
  count_events p (a ++ b)%list = (count_events p a + count_events p b)%nat.
Proof. unfold count_events. now rewrite List.filter_app, length_app. Qed.

Lemma quiet_counts evs :
  quiet evs ->
  count_events is_download evs = 0%nat /\ count_events is_extract evs = 0%nat
  /\ count_events is_cacheDir evs = 0%nat /\ acquisitions evs = [].
Proof.
  unfold quiet, count_events, acquisitions.
  induction 1 as [|ev evs Hev _ IH]; [repeat split|].
  destruct IH as (I1 & I2 & I3 & I4).
  cbn [List.filter]. rewrite Hev. unfold is_acquisition in Hev.
  apply orb_false_iff in Hev as [Hev H3]. apply orb_false_iff in Hev as [H1 H2].
  rewrite H1, H2, H3. auto.
Qed.

Lemma cache_path_nonempty w tool key : cache_path w tool key <> "".
Proof. apply path_join_nonempty. Qed.

Lemma fetchIntoCache_failed version w e :
  web w (getHelmDownloadURL (os_type w) version) = Throw e ->
  fetchIntoCache (os_type w) version w
  = (Throw (Error ("Failed to download Helm from location "
                   +:+ getHelmDownloadURL (os_type w) version)),
     record (EvDownload (getHelmDownloadURL (os_type w) version)) w).
Proof.
  intros H. unfold fetchIntoCache, bind, try_catch, toolCache.downloadTool, bind, emit.
  simpl_world. now rewrite H.
Qed.

Lemma fetchIntoCache_spec version w r w1 :
  fetchIntoCache (os_type w) version w = (r, w1) ->
  exists evs,
    extends w w1 evs
    /\ Forall (about_version (os_type w) version) evs
    /\ count_events is_download evs = 1%nat
    /\ (count_events is_extract evs <= 1)%nat
    /\ same_platform w w1
    /\ match r with
       | Ok c =>
           c = cached_directory w version
           /\ tool_cache w1
              = {[ (helmToolName, toolCache.versionDirectory version) ]} ∪ tool_cache w
           /\ count_events is_extract evs = 1%nat
           /\ count_events is_cacheDir evs = 1%nat
           /\ exists entries,
               web w (getHelmDownloadURL (os_type w) version) = Ok (ZipArchive entries)
               /\ dirs w1 !! c = Some entries
       | Throw _ =>
           tool_cache w1 = tool_cache w /\ count_events is_cacheDir evs = 0%nat
       end.
Proof.
  unfold fetchIntoCache, bind, try_catch, toolCache.downloadTool, bind, emit, temp_path, throw.
  simpl_world. unfold extends.
  destruct (web w (getHelmDownloadURL (os_type w) version)) as [body|e] eqn:Hweb.
  - unfold fs.chmodSync. simpl_world.
    match goal with |- context [path_exists ?w0 ?p] =>
      assert (Hp : path_exists w0 p = true)
        by (apply (path_exists_file w0 p body); simpl_world; apply lookup_insert_eq)
    end.
    rewrite Hp. unfold toolCache.extractZip, bind, emit, gets, temp_path, throw. simpl_world.
    rewrite lookup_insert_eq.
    destruct body as [value|entries|].
    + intros [= <- <-]. simpl_world. eexists [_; _; _]. split; [reflexivity|].
      split; [repeat constructor; now left|].
      split; [reflexivity|]. split; [cbn; lia|]. split; [repeat split|].
      split; reflexivity.
    + unfold toolCache.cacheDir, bind, emit, gets, toolCache.toolPath. simpl_world.
      rewrite lookup_insert_eq.
      change (default version (Semver.clean version))
        with (toolCache.versionDirectory version).
      rewrite versionDirectory_fixed.
      intros [= <- <-]. simpl_world. eexists [_; _; _; _]. split; [reflexivity|].
      split; [repeat constructor; now left|].
      split; [reflexivity|]. split; [cbn; lia|]. split; [repeat split|].
      split; [reflexivity|]. split; [reflexivity|]. split; [reflexivity|].
      split; [reflexivity|].
      eexists. split; [reflexivity|]. apply lookup_insert_eq.
    + intros [= <- <-]. simpl_world. eexists [_; _; _]. split; [reflexivity|].
      split; [repeat constructor; now left|].
      split; [reflexivity|]. split; [cbn; lia|]. split; [repeat split|].
      split; reflexivity.
  - intros [= <- <-]. simpl_world. eexists [_]. split; [reflexivity|].
    split; [repeat constructor; now left|].
    split; [reflexivity|]. split; [cbn; lia|]. split; [repeat split|].
    split; reflexivity.
Qed.

Lemma downloadHelm_unfold version w :
  version <> "" ->
  downloadHelm (Some version) w
  = bind (toolCache.find helmToolName version)
      (fun cachedToolpath =>
         bind (if String.eqb cachedToolpath ""
               then fetchIntoCache (os_type w) version
               else ret cachedToolpath)
           locateHelm) w.
Proof.
  intros H. unfold downloadHelm.
  destruct (String.eqb_spec version ""); [tauto|]. reflexivity.
Qed.

End Fetch.

Section Calls.

Lemma only_chmod_quiet evs : only_chmod evs -> quiet evs.
Proof.
  unfold only_chmod, quiet. intros H. eapply Forall_impl; [exact H|].
  now intros ev (p & m & ->).
Qed.

Lemma only_chmod_about os version evs :
  only_chmod evs -> Forall (about_version os version) evs.
Proof.
  unfold only_chmod. intros H. eapply Forall_impl; [exact H|].
  now intros ev (p & m & ->).
Qed.

Lemma downloadHelm_hit version w c :
  version <> "" ->
  cache_lookup w version = Ok c -> c <> "" ->
  downloadHelm (Some version) w
  = locateHelm c (record (EvFind helmToolName version) w).
Proof.
  intros Hv Hc Hne. rewrite downloadHelm_unfold by assumption.
  unfold bind at 1. rewrite find_eq, Hc by assumption.
  destruct (String.eqb_spec c ""); [tauto | reflexivity].
Qed.

Lemma downloadHelm_miss version w :
  version <> "" ->
  cache_lookup w version = Ok "" ->
  downloadHelm (Some version) w
  = bind (fetchIntoCache (os_type w) version) locateHelm
      (record (EvFind helmToolName version) w).
Proof.
  intros Hv Hc. rewrite downloadHelm_unfold by assumption.
  unfold bind at 1. rewrite find_eq, Hc by assumption. reflexivity.
Qed.

(** An error of the lookup is the error of the call. *)
Lemma downloadHelm_lookup_throws version w e :
  version <> "" ->
  cache_lookup w version = Throw e ->
  downloadHelm (Some version) w = (Throw e, record (EvFind helmToolName version) w).
Proof.
  intros Hv Hc. rewrite downloadHelm_unfold by assumption.
  unfold bind at 1. rewrite find_eq, Hc by assumption. reflexivity.
Qed.

(** A call that finds the version in the cache only locates the
    executable. *)
Lemma downloadHelm_hit_spec version w c r w1 :
  version <> "" ->
  cache_lookup w version = Ok c -> c <> "" ->
  downloadHelm (Some version) w = (r, w1) ->
  same_store w w1
  /\ (exists evs, extends w w1 evs /\ quiet evs
                  /\ Forall (about_version (os_type w) version) evs)
  /\ forall w', same_store w w' -> fst (locateHelm c w') = r.
Proof.
  intros Hv Hc Hne. rewrite (downloadHelm_hit version w c) by assumption.
  intros H. apply locateHelm_spec in H as (Hs & (evs & He & Hq) & Hst).
  split; [|split].
  - eapply same_store_trans; [apply same_store_record | exact Hs].
  - exists (evs ++ [EvFind helmToolName version])%list.
    unfold extends in *. rewrite He. simpl_world. split; [now rewrite <- app_assoc|].
    split.
    + apply Forall_app. split; [now apply only_chmod_quiet | repeat constructor].
    + apply Forall_app. split; [now apply only_chmod_about | repeat constructor].
  - intros w' Hs'. apply Hst. eapply same_store_trans; [|exact Hs'].
    apply same_store_sym, same_store_record.
Qed.

(** A call that misses the cache fetches once; when it gets as far as
    registering the archive, the entry of the version is complete
    afterwards, whatever comes of locating the executable. *)
Lemma downloadHelm_miss_spec version w r w1 :
  version <> "" ->
  cache_lookup w version = Ok "" ->
  downloadHelm (Some version) w = (r, w1) ->
  exists evs,
    extends w w1 evs
    /\ Forall (about_version (os_type w) version) evs
    /\ count_events is_download evs = 1%nat
    /\ (count_events is_extract evs <= 1)%nat
    /\ same_platform w w1
    /\ ((count_events is_cacheDir evs = 0%nat
         /\ tool_cache w1 = tool_cache w /\ exists e, r = Throw e)
        \/ (count_events is_cacheDir evs = 1%nat
            /\ count_events is_extract evs = 1%nat
            /\ tool_cache w1
               = {[ (helmToolName, toolCache.versionDirectory version) ]} ∪ tool_cache w
            /\ forall w', same_store w1 w' ->
                          fst (locateHelm (cached_directory w version) w') = r)).
Proof.
  intros Hv Hc. rewrite (downloadHelm_miss version w) by assumption.
  unfold bind.
  destruct (fetchIntoCache (os_type w) version (record (EvFind helmToolName version) w))
    as [rf wf] eqn:Hf.
  change (os_type w) with (os_type (record (EvFind helmToolName version) w)) in Hf.
  apply fetchIntoCache_spec in Hf as (evsF & HeF & Hab & Hd & Hx & Hpf & Hr).
  simpl_world. unfold extends in *. simpl_world.
  destruct rf as [c|e].
  - destruct Hr as (-> & Hreg & Hx1 & Hcd & _). intros H.
    apply locateHelm_spec in H as (Hs & (evsL & HeL & Hq) & Hst).
    exists (evsL ++ evsF ++ [EvFind helmToolName version])%list.
    pose proof (quiet_counts evsL (only_chmod_quiet _ Hq)) as (Q1 & Q2 & Q3 & _).
    split; [rewrite HeL, HeF; now rewrite <- !app_assoc|].
    split.
    { apply Forall_app. split; [now apply only_chmod_about|].
      apply Forall_app. split; [exact Hab | repeat constructor]. }
    rewrite !count_events_app, Q1, Q2, Q3, Hd, Hcd, Hx1.
    split; [reflexivity|]. split; [cbn; lia|].
    split.
    { eapply same_platform_trans; [exact Hpf | now apply same_store_platform]. }
    right. split; [reflexivity|]. split; [reflexivity|]. split.
    + destruct Hs as (_ & _ & _ & <- & _). exact Hreg.
    + intros w' Hs'. apply Hst. eapply same_store_trans; eassumption.
  - destruct Hr as (Htc & Hcd). intros [= <- <-].
    exists (evsF ++ [EvFind helmToolName version])%list.
    split; [rewrite HeF; now rewrite <- app_assoc|].
    split; [apply Forall_app; split; [exact Hab | repeat constructor]|].
    rewrite !count_events_app, Hd, Hcd.
    split; [reflexivity|]. split; [cbn; lia|]. split; [exact Hpf|]. left. eauto.
Qed.

(** A path that [downloadHelm] returns is not empty and exists. *)
Lemma downloadHelm_returns version w p w1 :
  version <> "" ->
  downloadHelm (Some version) w = (Ok p, w1) -> p <> "" /\ path_exists w1 p = true.
Proof.
  intros Hv. rewrite downloadHelm_unfold by assumption. unfold bind at 1.
  rewrite find_eq by assumption. destruct (cache_lookup w version) as [c|e]; [|discriminate].
  unfold bind. destruct (String.eqb c "").
  - destruct (fetchIntoCache _ _ _) as [[d|e] w0]; [apply locateHelm_returns | discriminate].
  - unfold ret. apply locateHelm_returns.
Qed.

End Calls.

(** C3, as stated, fails: a version that is not an explicit semantic
    version (here v3.5, major and minor only) is registered under a
    directory that the lookup never reports.  The second call misses the
    cache and downloads, unpacks and registers the archive again, although
    it returns the same path as the first. *)
Lemma acquisition_repeats_for_partial_version :
  toolCache._isExplicitVersion "v3.5" = false
  /\ exists p w1 w2,
      downloadHelm (Some "v3.5") mirror_world = (Ok p, w1)
      /\ downloadHelm (Some "v3.5") w1 = (Ok p, w2)
      /\ extends w1 w2
           [EvChmod p "777";
            EvChmod "/opt/hostedtoolcache/helm/v3.5/x64" "777";
            EvCacheDir "/tmp/3" "helm" "v3.5";
            EvExtractZip "/tmp/2";
            EvChmod "/tmp/2" "777";
            EvDownload "https://get.helm.sh/helm-v3.5-linux-amd64.zip";
            EvFind "helm" "v3.5"].
Proof.
  split; [reflexivity|].
  exists "/opt/hostedtoolcache/helm/v3.5/x64/linux-amd64/helm".
  exists (snd (downloadHelm (Some "v3.5") mirror_world)).
  exists (snd (downloadHelm (Some "v3.5") (snd (downloadHelm (Some "v3.5") mirror_world)))).
  split; [|split]; vm_compute; reflexivity.
Qed.

(** C3, amended: acquisition is idempotent over the tool cache for an
    explicit semantic version, one that [semver.clean] accepts.  Each of
    two consecutive calls for it downloads and unpacks at most once, and
    at most one of them registers an archive; when the first call
    registers the archive or returns a path, the second one finds the
    entry in the cache and downloads, unpacks and registers nothing, so
    that each step is performed at most once over both calls; when the
    first returns a path, the second returns the same path, which is not
    empty and exists; and a first call that starts from a miss and returns
    a path has performed each step exactly once. *)
Theorem acquisition_is_idempotent (version : string) (w : world) :
  toolCache._isExplicitVersion version = true ->
  exists r1 w1 r2 w2 evs1 evs2,
    downloadHelm (Some version) w = (r1, w1)
    /\ downloadHelm (Some version) w1 = (r2, w2)
    /\ extends w w1 evs1 /\ extends w1 w2 evs2
    /\ (count_events is_download evs1 <= 1)%nat /\ (count_events is_extract evs1 <= 1)%nat
    /\ (count_events is_download evs2 <= 1)%nat /\ (count_events is_extract evs2 <= 1)%nat
    /\ (count_events is_cacheDir (evs2 ++ evs1) <= 1)%nat
    /\ (count_events is_cacheDir evs1 = 1%nat \/ (exists p, r1 = Ok p) ->
        acquisitions evs2 = []
        /\ (count_events is_download (evs2 ++ evs1) <= 1)%nat
        /\ (count_events is_extract (evs2 ++ evs1) <= 1)%nat)
    /\ (forall p, r1 = Ok p -> r2 = Ok p /\ p <> "" /\ path_exists w1 p = true)
    /\ (cache_lookup w version = Ok "" ->
        forall p, r1 = Ok p ->
          count_events is_download evs1 = 1%nat
          /\ count_events is_extract evs1 = 1%nat
          /\ count_events is_cacheDir evs1 = 1%nat).
Proof.
  intros He. pose proof (explicit_nonempty _ He) as Hv.
  apply explicit_clean in He as [c Hc].
  assert (Hdir : toolCache.versionDirectory version = c).
  { unfold toolCache.versionDirectory. now rewrite Hc. }
  destruct (downloadHelm (Some version) w) as [r1 w1] eqn:H1.
  destruct (downloadHelm (Some version) w1) as [r2 w2] eqn:H2.
  exists r1, w1, r2, w2.
  assert (Hret : forall p, r1 = Ok p -> p <> "" /\ path_exists w1 p = true).
  { intros p ->. exact (downloadHelm_returns version w p w1 Hv H1). }
  pose proof (cache_lookup_explicit w version c Hc) as Hl.
  pose proof (cache_path_nonempty w helmToolName c) as Hne.
  destruct (bool_decide ((helmToolName, c) ∈ tool_cache w)) eqn:Hin.
  - (* the version is cached from the start *)
    destruct (downloadHelm_hit_spec version w _ r1 w1 Hv Hl Hne H1)
      as (Hs1 & (evs1 & He1 & Hq1 & _) & Hst1).
    assert (Hl1 : cache_lookup w1 version = Ok (cache_path w helmToolName c))
      by (rewrite (cache_lookup_same w w1 version Hs1); exact Hl).
    destruct (downloadHelm_hit_spec version w1 _ r2 w2 Hv Hl1 Hne H2)
      as (Hs2 & (evs2 & He2 & Hq2 & _) & Hst2).
    exists evs1, evs2.
    pose proof (quiet_counts evs1 Hq1) as (A1 & A2 & A3 & _).
    pose proof (quiet_counts evs2 Hq2) as (B1 & B2 & B3 & B4).
    rewrite !count_events_app, A1, A2, A3, B1, B2, B3.
    repeat (split; [first [reflexivity | assumption | lia]|]).
    split; [intros _; repeat split; first [assumption | lia]|].
    split.
    + intros p Hp. split; [|now apply Hret]. subst r1.
      rewrite <- (Hst2 w1 (same_store_refl w1)). apply Hst1. exact Hs1.
    + intros Hm. rewrite Hl in Hm. injection Hm as Hm. contradiction.
  - (* the version is not cached *)
    destruct (downloadHelm_miss_spec version w r1 w1 Hv Hl H1)
      as (evs1 & He1 & _ & Hd1 & Hx1 & Hp1
          & [(Hcd1 & Htc & e & ->) | (Hcd1 & Hx1' & Htc & Hst1)]).
    + (* the first call fails before registering anything *)
      assert (Hl1 : cache_lookup w1 version = Ok "").
      { rewrite (cache_lookup_explicit w1 version c Hc), Htc, Hin. reflexivity. }
      destruct (downloadHelm_miss_spec version w1 r2 w2 Hv Hl1 H2)
        as (evs2 & He2 & _ & Hd2 & Hx2 & _ & Hcd2).
      assert (Hc2 : (count_events is_cacheDir evs2 <= 1)%nat)
        by (destruct Hcd2 as [(-> & _) | (-> & _)]; lia).
      exists evs1, evs2. rewrite !count_events_app, Hcd1.
      repeat (split; [first [reflexivity | assumption | lia]|]).
      split; [intros [[=] | (p & [=])]|].
      split; intros; discriminate.
    + (* the first call registers the archive *)
      assert (Hmem : (helmToolName, c) ∈ tool_cache w1).
      { rewrite Htc, Hdir. apply elem_of_union_l, elem_of_singleton. reflexivity. }
      assert (Hpath : cache_path w1 helmToolName c = cached_directory w version).
      { unfold cached_directory, cache_path. rewrite Hdir.
        destruct Hp1 as (<- & <- & <- & _). reflexivity. }
      assert (Hl1 : cache_lookup w1 version = Ok (cached_directory w version)).
      { rewrite (cache_lookup_explicit w1 version c Hc), <- Hpath.
        now rewrite (bool_decide_eq_true_2 _ Hmem). }
      assert (Hne1 : cached_directory w version <> "") by apply cache_path_nonempty.
      destruct (downloadHelm_hit_spec version w1 _ r2 w2 Hv Hl1 Hne1 H2)
        as (Hs2 & (evs2 & He2 & Hq2 & _) & Hst2).
      exists evs1, evs2.
      pose proof (quiet_counts evs2 Hq2) as (B1 & B2 & B3 & B4).
      rewrite !count_events_app, Hd1, Hcd1, Hx1', B1, B2, B3.
      repeat (split; [first [reflexivity | assumption | lia]|]).
      split; [intros _; repeat split; first [assumption | lia]|].
      split.
      * intros p Hp. split; [|now apply Hret]. subst r1.
        rewrite <- (Hst2 w1 (same_store_refl w1)). apply Hst1, same_store_refl.
      * intros _ p _. repeat split.
Qed.

Lemma acquisition_is_idempotent_witness :
  toolCache._isExplicitVersion "v3.5.0" = true
  /\ exists p w1 w2 evs1 evs2,
      downloadHelm (Some "v3.5.0") sample_world = (Ok p, w1)
      /\ downloadHelm (Some "v3.5.0") w1 = (Ok p, w2)
      /\ extends sample_world w1 evs1 /\ extends w1 w2 evs2
      /\ count_events is_download evs1 = 1%nat
      /\ acquisitions evs2 = [].
Proof.
  assert (Hx : toolCache._isExplicitVersion "v3.5.0" = true) by reflexivity.
  split; [exact Hx|].
  destruct (acquisition_is_idempotent "v3.5.0" sample_world Hx)
    as (r1 & w1 & r2 & w2 & evs1 & evs2 & H1 & H2 & He1 & He2 & _ & _ & _ & _ & _
        & Hq & Hsame & Hmiss).
  assert (Hfirst : fst (downloadHelm (Some "v3.5.0") sample_world)
                   = Ok "/opt/hostedtoolcache/helm/3.5.0/x64/linux-amd64/helm")
    by (vm_compute; reflexivity).
  rewrite H1 in Hfirst. cbn [fst] in Hfirst. subst r1.
  assert (Hl : cache_lookup sample_world "v3.5.0" = Ok "") by (vm_compute; reflexivity).
  destruct (Hsame _ eq_refl) as (-> & _).
  destruct (Hq (or_intror (ex_intro _ _ eq_refl))) as (Hq2 & _).
  destruct (Hmiss Hl _ eq_refl) as (Hd & _).
  exists "/opt/hostedtoolcache/helm/3.5.0/x64/linux-amd64/helm", w1, w2, evs1, evs2.
  repeat (split; [assumption|]). assumption.
Defined.

Section Failures.

Lemma fetchIntoCache_ok version w entries :
  web w (getHelmDownloadURL (os_type w) version) = Ok (ZipArchive entries) ->
  exists w1,
    fetchIntoCache (os_type w) version w = (Ok (cached_directory w version), w1)
    /\ dirs w1 !! cached_directory w version = Some entries
    /\ same_platform w w1
    /\ tool_cache w1
       = {[ (helmToolName, toolCache.versionDirectory version) ]} ∪ tool_cache w.
Proof.
  intros Hweb.
  destruct (fetchIntoCache (os_type w) version w) as [r w1] eqn:Hf.
  pose proof Hf as Hf'.
  apply fetchIntoCache_spec in Hf' as (evs & _ & _ & _ & _ & Hp & Hr).
  assert (Hok : exists c, r = Ok c).
  { revert Hf. unfold fetchIntoCache, bind, try_catch, toolCache.downloadTool, bind, emit,
      temp_path, throw.
    simpl_world. rewrite Hweb. unfold fs.chmodSync. simpl_world.
    match goal with |- context [path_exists ?w0 ?p] =>
      assert (Hpe : path_exists w0 p = true)
        by (apply (path_exists_file w0 p (ZipArchive entries)); simpl_world;
            apply lookup_insert_eq)
    end.
    rewrite Hpe. unfold toolCache.extractZip, bind, emit, gets, temp_path, throw. simpl_world.
    rewrite lookup_insert_eq.
    unfold toolCache.cacheDir, bind, emit, gets. simpl_world. rewrite lookup_insert_eq.
    intros [= <- _]. eauto. }
  destruct Hok as [c ->]. destruct Hr as (-> & Htc & _ & _ & entries' & Hweb' & Hd).
  rewrite Hweb in Hweb'. injection Hweb' as <-.
  exists w1. repeat (split; [first [reflexivity | assumption]|]). exact Htc.
Qed.

Lemma locateHelm_not_found dir w entries :
  dirs w !! dir = Some entries ->
  ~ has_file (helm_executable w) (Directory entries) ->
  locateHelm dir w
  = (Throw (Error ("Helm executable not found in path " +:+ dir)),
     record (EvChmod dir "777") w).
Proof.
  intros Hd Hno. unfold locateHelm, bind. rewrite findHelm_eq.
  rewrite (path_exists_root w dir entries Hd), Hd.
  apply (walkSync_nothing (os_type w) (helm_executable w) (Directory entries) dir) in Hno.
  now rewrite Hno.
Qed.

Lemma getInput_version (w : world) (raw : string) :
  inputs w !! "version" = Some raw -> raw <> "" ->
  core.getInput "version" true w = (Ok (Js.trim raw), w).
Proof.
  intros H Hne. unfold core.getInput. rewrite H. cbn [default from_option id].
  destruct (String.eqb_spec raw ""); [tauto | reflexivity].
Qed.

(** An error of [downloadHelm] is the error of [run], and the entry
    point hands its message to [core.setFailed]. *)
Lemma run_propagates (w0 w w1 : world) (raw version : string) (e : exn) :
  inputs w0 !! "version" = Some raw -> raw <> "" ->
  run_version (Js.trim raw) w0 = (Ok version, w) ->
  downloadHelm (Some version) w = (Throw e, w1) ->
  run w0 = (Throw e, w1) /\ main w0 = record (EvSetFailed e) w1.
Proof.
  intros Hin Hne Hres Hdl.
  assert (Hrun : run w0 = (Throw e, w1)).
  { unfold run. unfold bind at 1. rewrite (getInput_version w0 raw Hin Hne).
    unfold bind at 1. rewrite Hres. unfold bind at 1. now rewrite Hdl. }
  split; [exact Hrun|]. unfold main. rewrite Hrun. now destruct e.
Qed.

End Failures.

(** C8: acquisition failures are fatal and carry their context.  On a
    cache miss a failed transfer raises an error naming the download URL;
    when no file with the executable's name is below the cached
    directory, found in the cache or just registered, the error names
    that directory; and an error of the acquisition is the error of the
    run, which the entry point reports as the failure. *)
Theorem acquisition_failures_are_fatal (version : string) (w : world) :
  version <> "" ->
  (cache_lookup w version = Ok "" ->
   (exists e, web w (getHelmDownloadURL (os_type w) version) = Throw e) ->
   fst (downloadHelm (Some version) w)
   = Throw (Error ("Failed to download Helm from location "
                   +:+ getHelmDownloadURL (os_type w) version)))
  /\ (forall dir entries,
        cache_lookup w version = Ok dir -> dir <> "" ->
        dirs w !! dir = Some entries ->
        ~ has_file (helm_executable w) (Directory entries) ->
        fst (downloadHelm (Some version) w)
        = Throw (Error ("Helm executable not found in path " +:+ dir)))
  /\ (forall entries,
        cache_lookup w version = Ok "" ->
        web w (getHelmDownloadURL (os_type w) version) = Ok (ZipArchive entries) ->
        ~ has_file (helm_executable w) (Directory entries) ->
        fst (downloadHelm (Some version) w)
        = Throw (Error ("Helm executable not found in path "
                        +:+ cached_directory w version)))
  /\ (forall w0 raw e w1,
        inputs w0 !! "version" = Some raw -> raw <> "" ->
        run_version (Js.trim raw) w0 = (Ok version, w) ->
        downloadHelm (Some version) w = (Throw e, w1) ->
        run w0 = (Throw e, w1)
        /\ main w0 = record (EvSetFailed e) w1).
Proof.
  intros Hv. split; [|split; [|split]].
  - intros Hmiss [e He]. rewrite (downloadHelm_miss version w Hv Hmiss). unfold bind.
    change (os_type w) with (os_type (record (EvFind helmToolName version) w)).
    rewrite (fetchIntoCache_failed version _ e) by exact He. reflexivity.
  - intros dir entries Hc Hne Hd Hno.
    rewrite (downloadHelm_hit version w dir Hv Hc Hne).
    rewrite (locateHelm_not_found dir _ entries); [reflexivity | exact Hd | exact Hno].
  - intros entries Hmiss Hweb Hno.
    rewrite (downloadHelm_miss version w Hv Hmiss). unfold bind.
    change (os_type w) with (os_type (record (EvFind helmToolName version) w)).
    destruct (fetchIntoCache_ok version (record (EvFind helmToolName version) w) entries Hweb)
      as (w1 & -> & Hd & (Hos & _) & _).
    rewrite (locateHelm_not_found _ w1 entries); [reflexivity | exact Hd |].
    unfold helm_executable in *. simpl_world. now rewrite <- Hos.
  - intros w0 raw e w1. apply run_propagates.
Qed.

Lemma acquisition_failures_are_fatal_witness :
  "v3.5.3" <> ""
  /\ fst (downloadHelm (Some "v3.5.3") offline_world)
     = Throw (Error "Failed to download Helm from location https://get.helm.sh/helm-v3.5.3-linux-amd64.zip")
  /\ fst (downloadHelm (Some "v3.5.3") broken_cache_world)
     = Throw (Error "Helm executable not found in path /opt/hostedtoolcache/helm/3.5.3/x64")
  /\ fst (downloadHelm (Some "v3.5.3") empty_archive_world)
     = Throw (Error "Helm executable not found in path /opt/hostedtoolcache/helm/3.5.3/x64")
  /\ exists w1,
      main broken_cache_world
      = record (EvSetFailed
                  (Error "Helm executable not found in path /opt/hostedtoolcache/helm/3.5.3/x64")) w1.
Proof.
  assert (Hv : "v3.5.3" <> "") by discriminate.
  assert (Hno : forall os, ~ has_file ("helm" +:+ getExecutableExtension os)
                             (Directory [("linux-amd64", Directory [("README.md", File)])])).
  { intros os. cbn. intros [[H|[]]|[]]. destruct (is_windows os) in H; discriminate H. }
  assert (Hno' : forall os, ~ has_file ("helm" +:+ getExecutableExtension os)
                              (Directory [("linux-amd64", Directory [("LICENSE", File)])])).
  { intros os. cbn. intros [[H|[]]|[]]. destruct (is_windows os) in H; discriminate H. }
  split; [exact Hv|]. split; [|split; [|split]].
  - apply (acquisition_failures_are_fatal "v3.5.3" offline_world Hv);
      [vm_compute; reflexivity | eexists; reflexivity].
  - apply (proj1 (proj2 (acquisition_failures_are_fatal "v3.5.3" broken_cache_world Hv))
             "/opt/hostedtoolcache/helm/3.5.3/x64"
             [("linux-amd64", Directory [("README.md", File)])]);
      [vm_compute; reflexivity | discriminate | reflexivity | apply Hno].
  - apply (proj1 (proj2 (proj2 (acquisition_failures_are_fatal "v3.5.3" empty_archive_world Hv)))
             [("linux-amd64", Directory [("LICENSE", File)])]);
      [vm_compute; reflexivity | reflexivity | apply Hno'].
  - destruct (downloadHelm (Some "v3.5.3") broken_cache_world) as [r w1] eqn:Hdl.
    assert (Hr : fst (downloadHelm (Some "v3.5.3") broken_cache_world)
                 = Throw (Error "Helm executable not found in path /opt/hostedtoolcache/helm/3.5.3/x64"))
      by (vm_compute; reflexivity).
    rewrite Hdl in Hr. cbn [fst] in Hr. subst r. exists w1.
    destruct (proj2 (proj2 (proj2 (acquisition_failures_are_fatal "v3.5.3" broken_cache_world Hv)))
                broken_cache_world "v3.5.3"
                (Error "Helm executable not found in path /opt/hostedtoolcache/helm/3.5.3/x64")
                w1 eq_refl Hv eq_refl Hdl) as [_ Hmain].
    exact Hmain.
Defined.

Section EmptyVersion.






End EmptyVersion.


(** On the sample runner the missing version resolves to the newest
    stable release of the listing, which is then looked up and fetched. *)
Example empty_version_example :
  let '(r, w1) := downloadHelm None
                    (linux_runner ∅ ∅
                       (fun url =>
                          if String.eqb url helmAllReleasesUrl then Ok (JsonText sample_listing)
                          else Ok helm_zip)
                       (fun _ => Ok None) ∅ ∅) in
  r = Ok "/opt/hostedtoolcache/helm/3.5.3/x64/linux-amd64/helm"
  /\ In (EvFind "helm" "v3.5.3") (trace w1)
  /\ In (EvDownload "https://get.helm.sh/helm-v3.5.3-linux-amd64.zip") (trace w1).
Proof. vm_compute. repeat split; auto 10. Qed.

(* ===================================================================== *)
(** * Further properties of src/run.ts                                    *)
(* ===================================================================== *)

(** ** The walk over the cached directory *)

Section WalkMore.

Variables (os fileToFind : string).

Lemma walkEntries_app dir es1 es2 filelist :
  walkEntries os dir fileToFind (es1 ++ es2) filelist
  = walkEntries os dir fileToFind es2 (walkEntries os dir fileToFind es1 filelist).
Proof. unfold walkEntries. apply fold_left_app. Qed.

Lemma walkEntries_cons dir file c rest :
  walkEntries os dir fileToFind ((file, c) :: rest) []
  = (walkEntries os dir fileToFind [(file, c)] []
     ++ walkEntries os dir fileToFind rest [])%list.
Proof.
  change ((file, c) :: rest) with ([(file, c)] ++ rest)%list.
  rewrite walkEntries_app.
  rewrite <- !walkSync_Directory. apply walkSync_appends.
Qed.

Lemma walkEntries_single dir file c :
  walkEntries os dir fileToFind [(file, c)] []
  = match c with
    | File => if String.eqb file fileToFind then [path.join os [dir; file]] else []
    | Directory _ => walkSync os (path.join os [dir; file]) c [] fileToFind
    end.
Proof. unfold walkEntries. cbn [fold_left]. now destruct c. Qed.

(** What the walk finds: entries named [fileToFind] in directories of
    the tree, which are paths of regular files of the tree. *)
Lemma walkSync_sound (n : node) :
  forall dir p,
    In p (walkSync os dir n [] fileToFind) ->
    entry_of os dir n fileToFind p
    /\ In p (node_paths os dir n)
    /\ has_file fileToFind n.
Proof.
  induction n as [|entries IH] using node_induction; intros dir p.
  - cbn [walkSync]. intros [].
  - rewrite walkSync_Directory, has_file_Directory. unfold any_has_file, entry_of.
    cbn [node_paths dir_paths].
    induction IH as [|[file c] rest Hc _ IHrest].
    + cbn. intros [].
    + rewrite walkEntries_cons, walkEntries_single. cbn [snd] in Hc.
      intros Hin. apply in_app_or in Hin as [Hin | Hin].
      * destruct c as [|sub].
        -- destruct (String.eqb_spec file fileToFind) as [->|]; [|destruct Hin].
           destruct Hin as [<- | []]. split; [|split].
           ++ exists dir. split; [now left | reflexivity].
           ++ right. apply in_or_app. left. now left.
           ++ apply Exists_cons. now left.
        -- destruct (Hc _ _ Hin) as ((d & Hd & ->) & Hpaths & Hfile).
           split; [|split].
           ++ exists d. split; [|reflexivity]. right. apply in_or_app. now left.
           ++ right. apply in_or_app. now left.
           ++ apply Exists_cons. now left.
      * destruct (IHrest Hin) as ((d & Hd & ->) & Hpaths & Hfile). split; [|split].
        -- exists d. split; [|reflexivity].
           destruct Hd as [Hd | Hd]; [now left|]. right. apply in_or_app. now right.
        -- destruct Hpaths as [Hp | Hp]; [now left|]. right.
           apply in_or_app. now right.
        -- apply Exists_cons. now right.
Qed.

Lemma count_files_cons file c rest :
  count_files fileToFind (Directory ((file, c) :: rest))
  = (match c with
     | File => if String.eqb file fileToFind then 1 else 0
     | Directory _ => count_files fileToFind c
     end + count_files fileToFind (Directory rest))%nat.
Proof. reflexivity. Qed.

Lemma walkSync_length (n : node) :
  forall dir, length (walkSync os dir n [] fileToFind) = count_files fileToFind n.
Proof.
  induction n as [|entries IH] using node_induction; intros dir.
  - reflexivity.
  - rewrite walkSync_Directory.
    induction IH as [|[file c] rest Hc _ IHrest]; [reflexivity|].
    rewrite walkEntries_cons, walkEntries_single, length_app, IHrest, count_files_cons.
    cbn [snd] in Hc. f_equal.
    destruct c as [|sub]; [now destruct (String.eqb file fileToFind) | apply Hc].
Qed.

End WalkMore.

(** X1: the walk visits the entries of a directory in listing order and
    only appends: over two lists of entries in a row it returns the list
    it was given, then what it finds in the first, then what it finds in
    the second. *)
Theorem walkSync_in_listing_order (os dir fileToFind : string)
  (es1 es2 : list (string * node)) (filelist : list string) :
  walkSync os dir (Directory (es1 ++ es2)) filelist fileToFind
  = (filelist ++ walkSync os dir (Directory es1) [] fileToFind
       ++ walkSync os dir (Directory es2) [] fileToFind)%list.
Proof.
  rewrite (walkSync_appends os fileToFind (Directory (es1 ++ es2)) dir filelist).
  f_equal. rewrite !walkSync_Directory, walkEntries_app.
  rewrite <- !walkSync_Directory. apply walkSync_appends.
Qed.

(** X2: every path the walk returns is that of a regular file of the
    tree whose name is exactly the one looked for: the path of a
    directory of the tree joined with that name.  It is never the empty
    string. *)
Theorem walkSync_finds_only_matches (os dir fileToFind p : string) (n : node) :
  In p (walkSync os dir n [] fileToFind) ->
  entry_of os dir n fileToFind p
  /\ In p (node_paths os dir n)
  /\ has_file fileToFind n
  /\ p <> "".
Proof.
  intros Hin.
  destruct (walkSync_sound os fileToFind n dir p Hin) as (Hentry & Hpaths & Hfile).
  split; [exact Hentry|]. split; [exact Hpaths|]. split; [exact Hfile|].
  destruct Hentry as (d & _ & ->). apply path_join_nonempty.
Qed.

Lemma walkSync_finds_only_matches_witness :
  In "cache/linux-amd64/helm"
     (walkSync "Linux" "./cache"
        (Directory [("linux-amd64", Directory [("LICENSE", File); ("helm", File)])])
        [] "helm")
  /\ has_file "helm"
       (Directory [("linux-amd64", Directory [("LICENSE", File); ("helm", File)])])
  /\ Js.startsWith "cache/linux-amd64/helm" "./cache" = false.
Proof.
  assert (Hin : In "cache/linux-amd64/helm"
                  (walkSync "Linux" "./cache"
                     (Directory [("linux-amd64", Directory [("LICENSE", File); ("helm", File)])])
                     [] "helm")) by (left; reflexivity).
  split; [exact Hin|]. split; [|reflexivity].
  apply (walkSync_finds_only_matches _ _ _ _ _ Hin).
Defined.

(** X3: the walk misses nothing: it returns as many paths as the tree
    has regular files with the name looked for, hence none exactly when
    the tree has no such file. *)
Theorem walkSync_finds_every_match (os dir fileToFind : string) (n : node) :
  length (walkSync os dir n [] fileToFind) = count_files fileToFind n
  /\ (count_files fileToFind n = 0%nat <-> ~ has_file fileToFind n).
Proof.
  pose proof (walkSync_length os fileToFind n dir) as Hlen.
  split; [exact Hlen|]. rewrite <- Hlen.
  rewrite <- (walkSync_nothing os fileToFind n dir).
  destruct (walkSync os dir n [] fileToFind); cbn; split; congruence.
Qed.

(** ** Locating the executable *)

Section Locate.

Lemma path_exists_in_tree (w : world) root entries p :
  dirs w !! root = Some entries ->
  In p (node_paths (os_type w) root (Directory entries)) ->
  path_exists w p = true.
Proof.
  intros Hd Hin. unfold path_exists. destruct (files w !! p); [reflexivity|].
  apply existsb_exists. exists (root, entries). split.
  - apply list_elem_of_In, elem_of_map_to_list. exact Hd.
  - apply existsb_exists. exists p. split; [exact Hin | apply String.eqb_refl].
Qed.

Lemma findHelm_found root w p w1 :
  findHelm root w = (Ok p, w1) ->
  w1 = record (EvChmod root "777") w
  /\ exists entries rest,
      dirs w !! root = Some entries
      /\ walkSync (os_type w) root (Directory entries) [] (helm_executable w) = p :: rest.
Proof.
  rewrite findHelm_eq. destruct (path_exists w root); [|discriminate].
  destruct (dirs w !! root) as [entries|]; [|discriminate].
  destruct (walkSync _ _ _ _ _) as [|first rest] eqn:Hwalk; [discriminate|].
  intros [= <- <-]. split; [reflexivity|]. now exists entries, rest.
Qed.

End Locate.

(** X4: when the root directory exists, [findHelm] returns a path
    exactly when the tree below it has a regular file with the
    executable's name, the path of a directory of the tree joined with
    that name, and throws the not-found error naming the root otherwise;
    either way it only changes the permissions of the root. *)
Theorem findHelm_finds_iff_present (root : string) (w : world)
  (entries : list (string * node)) :
  dirs w !! root = Some entries ->
  (has_file (helm_executable w) (Directory entries) ->
   exists p, findHelm root w = (Ok p, record (EvChmod root "777") w)
             /\ entry_of (os_type w) root (Directory entries) (helm_executable w) p)
  /\ (~ has_file (helm_executable w) (Directory entries) ->
      findHelm root w
      = (Throw (Error ("Helm executable not found in path " +:+ root)),
         record (EvChmod root "777") w)).
Proof.
  intros Hd. rewrite findHelm_eq, (path_exists_root w root entries Hd), Hd.
  destruct (walkSync (os_type w) root (Directory entries) [] (helm_executable w))
    as [|first rest] eqn:Hwalk.
  - apply walkSync_nothing in Hwalk. split; [tauto | reflexivity].
  - assert (Hin : In first (walkSync (os_type w) root (Directory entries) []
                             (helm_executable w))) by (rewrite Hwalk; now left).
    apply walkSync_sound in Hin as (Hbelow & _ & Hfile).
    split; [|tauto]. intros _. now exists first.
Qed.

Lemma findHelm_finds_iff_present_witness :
  dirs broken_cache_world !! "/opt/hostedtoolcache/helm/3.5.3/x64"
  = Some [("linux-amd64", Directory [("README.md", File)])]
  /\ fst (findHelm "/opt/hostedtoolcache/helm/3.5.3/x64" broken_cache_world)
     = Throw (Error "Helm executable not found in path /opt/hostedtoolcache/helm/3.5.3/x64")
  /\ exists p, fst (findHelm "C:\hostedtoolcache\windows\helm\3.5.3\x64" windows_world) = Ok p.
Proof.
  split; [reflexivity|]. split.
  - rewrite (proj2 (findHelm_finds_iff_present "/opt/hostedtoolcache/helm/3.5.3/x64"
                       broken_cache_world
                       [("linux-amd64", Directory [("README.md", File)])] eq_refl));
      [reflexivity|].
    cbn. intros [[H|[]]|[]]. discriminate H.
  - destruct (proj1 (findHelm_finds_iff_present "C:\hostedtoolcache\windows\helm\3.5.3\x64" windows_world
                       [("windows-amd64", Directory [("LICENSE", File); ("helm.exe", File)]);
                        ("helm.exe", File)] eq_refl))
      as (p & Hp & _).
    + cbn. right. left. reflexivity.
    + exists p. now rewrite Hp.
Defined.

(** X5: what [findHelm] returns is never the empty string and always
    exists, so the not-found test that follows it in [downloadHelm] is
    never taken and the final permission change never fails: with the
    version in the cache, [downloadHelm] returns exactly what [findHelm]
    found. *)
Theorem downloadHelm_returns_what_findHelm_found (version : string) (w w1 : world)
  (c p : string) :
  version <> "" ->
  cache_lookup w version = Ok c -> c <> "" ->
  findHelm c (record (EvFind helmToolName version) w) = (Ok p, w1) ->
  p <> ""
  /\ path_exists w1 p = true
  /\ downloadHelm (Some version) w = (Ok p, record (EvChmod p "777") w1).
Proof.
  intros Hv Hc Hne Hfind.
  destruct (findHelm_found _ _ _ _ Hfind) as (Hw1 & entries & rest & Hd & Hwalk).
  assert (Hin : In p (walkSync (os_type w) c (Directory entries) []
                        (helm_executable w))).
  { change (os_type w) with (os_type (record (EvFind helmToolName version) w)).
    change (helm_executable w)
      with (helm_executable (record (EvFind helmToolName version) w)).
    rewrite Hwalk. now left. }
  apply walkSync_sound in Hin as ((d & _ & Hp) & Hpaths & _).
  assert (Hnonempty : p <> "") by (rewrite Hp; apply path_join_nonempty).
  assert (Hex : path_exists w1 p = true).
  { subst w1. apply (path_exists_in_tree _ c entries); [exact Hd | exact Hpaths]. }
  split; [exact Hnonempty|]. split; [exact Hex|].
  rewrite (downloadHelm_hit version w c Hv Hc Hne).
  unfold locateHelm, bind. rewrite Hfind.
  destruct (String.eqb_spec p ""); [contradiction|].
  unfold fs.chmodSync, ret. now rewrite Hex.
Qed.

Lemma downloadHelm_returns_what_findHelm_found_witness :
  "v3.5.3" <> ""
  /\ fst (downloadHelm (Some "v3.5.3") windows_world)
     = Ok "C:\hostedtoolcache\windows\helm\3.5.3\x64\windows-amd64\helm.exe".
Proof.
  assert (Hv : "v3.5.3" <> "") by discriminate.
  split; [exact Hv|].
  destruct (findHelm "C:\hostedtoolcache\windows\helm\3.5.3\x64" (record (EvFind helmToolName "v3.5.3") windows_world))
    as [r w1] eqn:Hfind.
  assert (Hr : fst (findHelm "C:\hostedtoolcache\windows\helm\3.5.3\x64"
                      (record (EvFind helmToolName "v3.5.3") windows_world))
               = Ok "C:\hostedtoolcache\windows\helm\3.5.3\x64\windows-amd64\helm.exe")
    by (vm_compute; reflexivity).
  rewrite Hfind in Hr. cbn [fst] in Hr. subst r.
  assert (Hl : cache_lookup windows_world "v3.5.3"
               = Ok "C:\hostedtoolcache\windows\helm\3.5.3\x64") by (vm_compute; reflexivity).
  destruct (downloadHelm_returns_what_findHelm_found "v3.5.3" windows_world w1
              "C:\hostedtoolcache\windows\helm\3.5.3\x64" _ Hv Hl ltac:(discriminate) Hfind)
    as (_ & _ & ->).
  reflexivity.
Defined.

(** ** The download URL and the executable's name *)

Section Urls.

Lemma string_app_cancel_r (a b s : string) : a +:+ s = b +:+ s -> a = b.
Proof.
  intros H.
  assert (Hlen : String.length a = String.length b).
  { apply (f_equal String.length) in H. rewrite !string_length_app in H. lia. }
  revert b H Hlen. induction a as [|x a IH]; intros [|y b] H Hlen;
    try discriminate Hlen; [reflexivity|].
  simpl in H, Hlen. injection H as -> H. f_equal. apply IH; [exact H | lia].
Qed.

Lemma windows_is_not_unix (os : string) :
  is_windows os = true -> String.eqb os "Linux" = false /\ String.eqb os "Darwin" = false.
Proof.
  intros H. split; apply String.eqb_neq; intros ->; discriminate H.
Qed.

End Urls.

(** X6: for every platform the download URL is on the release host,
    names a zip archive for the version, and determines the version: two
    versions with the same URL are the same version. *)
Theorem download_url_determines_version (os version : string) :
  Js.startsWith (getHelmDownloadURL os version) ("https://get.helm.sh/helm-" +:+ version) = true
  /\ (exists platform, getHelmDownloadURL os version
                       = "https://get.helm.sh/helm-" +:+ version +:+ platform +:+ ".zip")
  /\ forall version', getHelmDownloadURL os version = getHelmDownloadURL os version' ->
                      version = version'.
Proof.
  assert (Hinj : forall suffix version',
            "https://get.helm.sh/helm-" +:+ version +:+ suffix
            = "https://get.helm.sh/helm-" +:+ version' +:+ suffix -> version = version').
  { intros suffix version' H. apply String.app_inj in H.
    now apply string_app_cancel_r in H. }
  unfold getHelmDownloadURL.
  destruct (String.eqb os "Linux"); [|destruct (String.eqb os "Darwin")].
  - split; [rewrite <- string_app_assoc; apply startsWith_app|].
    split; [now exists "-linux-amd64" | intros version'; apply Hinj].
  - split; [rewrite <- string_app_assoc; apply startsWith_app|].
    split; [now exists "-darwin-amd64" | intros version'; apply Hinj].
  - split; [rewrite <- string_app_assoc; apply startsWith_app|].
    split; [now exists "-windows-amd64" | intros version'; apply Hinj].
Qed.

Lemma download_url_determines_version_witness :
  getHelmDownloadURL "Darwin" "v3.5.0" = "https://get.helm.sh/helm-v3.5.0-darwin-amd64.zip"
  /\ forall version',
       getHelmDownloadURL "Darwin" "v3.5.0" = getHelmDownloadURL "Darwin" version' ->
       "v3.5.0" = version'.
Proof.
  split; [reflexivity|].
  exact (proj2 (proj2 (download_url_determines_version "Darwin" "v3.5.0"))).
Defined.

(** X7: the archive and the executable's name can disagree.  When the
    executable is looked up as helm.exe the archive is the Windows one;
    but a platform that is neither Linux nor Darwin and whose name does
    not start with Win also gets the Windows archive, and there the
    executable is looked up as plain helm. *)
Theorem fallback_platform_mismatch (os version : string) :
  (getExecutableExtension os = ".exe" ->
   getHelmDownloadURL os version
   = "https://get.helm.sh/helm-" +:+ version +:+ "-windows-amd64.zip")
  /\ (os <> "Linux" -> os <> "Darwin" -> Js.startsWith os "Win" = false ->
      getHelmDownloadURL os version
      = "https://get.helm.sh/helm-" +:+ version +:+ "-windows-amd64.zip"
      /\ helmToolName +:+ getExecutableExtension os = "helm").
Proof.
  unfold getExecutableExtension, getHelmDownloadURL. split.
  - destruct (is_windows os) eqn:Hw; [|discriminate]. intros _.
    destruct (windows_is_not_unix os Hw) as [-> ->]. reflexivity.
  - intros Hl Hd Hw. apply String.eqb_neq in Hl, Hd. rewrite Hl, Hd.
    unfold is_windows. rewrite Hw. split; reflexivity.
Qed.

Lemma fallback_platform_mismatch_witness :
  getExecutableExtension "Windows_NT" = ".exe"
  /\ getHelmDownloadURL "Windows_NT" "v3.5.3"
     = "https://get.helm.sh/helm-v3.5.3-windows-amd64.zip"
  /\ getHelmDownloadURL "FreeBSD" "v3.5.3"
     = "https://get.helm.sh/helm-v3.5.3-windows-amd64.zip"
  /\ helmToolName +:+ getExecutableExtension "FreeBSD" = "helm".
Proof.
  split; [reflexivity|]. split.
  - apply (proj1 (fallback_platform_mismatch "Windows_NT" "v3.5.3")). reflexivity.
  - apply (proj2 (fallback_platform_mismatch "FreeBSD" "v3.5.3"));
      [discriminate | discriminate | reflexivity].
Defined.

(** ** Family-scoped discovery, further *)

Section DiscoveryMore.

Lemma getLatest_none_world (type : string) (w : world) nodes :
  token_supplied w -> discovery_reply w = Ok (Some nodes) ->
  List.find (fun release => isValidVersion (tagName release) type) (rev nodes) = None ->
  exists msg,
    getLatestHelmVersionFor type w
    = (Ok (getStableHelmVersionFor type),
       record (EvWarning msg) (record (EvGraphql (authorization w)) w)).
Proof.
  intros Ht Hr Hf. unfold getLatestHelmVersionFor, bind.
  rewrite (getInput_token w Ht). unfold try_catch, graphql_releases, bind, emit.
  fold (authorization w). cbn [graphql_endpoint record]. fold (discovery_reply w).
  rewrite Hr. unfold ret. rewrite Hf. eauto.
Qed.

Lemma default_is_family_stable (type : string) :
  type = "v2" \/ type = "v3" -> family_stable type (getStableHelmVersionFor type).
Proof.
  intros [-> | ->]; apply isValidVersion_iff; reflexivity.
Qed.

End DiscoveryMore.

(** X8: for the two families the action asks for, whatever family-scoped
    discovery returns, a listed tag or the default, is a version of that
    family without "rc". *)
Theorem discovery_stays_in_family (type : string) (w : world) (r : string) :
  type = "v2" \/ type = "v3" ->
  fst (getLatestHelmVersionFor type w) = Ok r ->
  family_stable type r.
Proof.
  intros Ht H. apply getLatest_result in H as [H | ->].
  - now apply isValidVersion_iff.
  - now apply default_is_family_stable.
Qed.

Lemma discovery_stays_in_family_witness :
  fst (getLatestHelmVersionFor "v2" sample_world) = Ok "v2.17.0"
  /\ family_stable "v2" "v2.17.0".
Proof.
  assert (H : fst (getLatestHelmVersionFor "v2" sample_world) = Ok "v2.17.0")
    by reflexivity.
  split; [exact H|].
  apply (discovery_stays_in_family "v2" sample_world "v2.17.0"); [now left | exact H].
Defined.

(** X9: with the token input supplied, family-scoped discovery sends
    exactly one query and changes nothing else; it warns exactly when it
    falls back to the family default, once, and not at all when it returns
    a tag of the listing. *)
Theorem discovery_warns_on_fallback (type : string) (w : world) :
  token_supplied w ->
  exists v w',
    getLatestHelmVersionFor type w = (Ok v, w')
    /\ ((w' = record (EvGraphql (authorization w)) w
         /\ exists nodes, discovery_reply w = Ok (Some nodes) /\ In (mkRelease v) nodes)
        \/ (v = getStableHelmVersionFor type
            /\ exists msg,
                w' = record (EvWarning msg) (record (EvGraphql (authorization w)) w))).
Proof.
  intros Ht. destruct (discovery_reply w) as [[nodes|]|e] eqn:Hr.
  - destruct (List.find (fun release => isValidVersion (tagName release) type) (rev nodes))
      as [x|] eqn:Hf.
    + exists (tagName x), (record (EvGraphql (authorization w)) w).
      split; [now apply getLatest_found with nodes|]. left. split; [reflexivity|].
      exists nodes. split; [reflexivity|].
      apply find_some in Hf as [Hin _]. apply in_rev in Hin. now destruct x.
    + destruct (getLatest_none_world type w nodes Ht Hr Hf) as [msg Hrun].
      do 2 eexists. split; [exact Hrun|]. right. eauto.
  - destruct (getLatest_failed type w Ht) as [msg Hrun]; [now left|].
    do 2 eexists. split; [exact Hrun|]. right. eauto.
  - destruct (getLatest_failed type w Ht) as [msg Hrun]; [right; eauto|].
    do 2 eexists. split; [exact Hrun|]. right. eauto.
Qed.

Lemma discovery_warns_on_fallback_witness :
  token_supplied sample_world
  /\ exists v w', getLatestHelmVersionFor "v3" sample_world = (Ok v, w').
Proof.
  assert (Ht : token_supplied sample_world) by (vm_compute; discriminate).
  split; [exact Ht|].
  destruct (discovery_warns_on_fallback "v3" sample_world Ht) as (v & w' & H & _).
  now exists v, w'.
Defined.

(** ** Global discovery, further *)

Section SemverMore.

Import Semver.

Lemma orElse_opp (c d : comparison) : CompOpp (orElse c d) = orElse (CompOpp c) (CompOpp d).
Proof. now destruct c. Qed.

Lemma compareIdentifiers_antisym (x y : identifier) :
  compareIdentifiers y x = CompOpp (compareIdentifiers x y).
Proof.
  unfold compareIdentifiers. rewrite !string_order.
  destruct (numeric_value x), (numeric_value y); try reflexivity.
  - apply N.compare_antisym.
  - apply String.compare_antisym.
Qed.

Lemma identifier_eqb_sym (x y : identifier) : identifier_eqb x y = identifier_eqb y x.
Proof.
  destruct x, y; simpl; try reflexivity; [apply N.eqb_sym | apply String.eqb_sym].
Qed.

Lemma comparePreLoop_antisym (a b : list identifier) :
  comparePreLoop b a = CompOpp (comparePreLoop a b).
Proof.
  revert b. induction a as [|x a IH]; intros [|y b]; try reflexivity.
  cbn [comparePreLoop]. rewrite (identifier_eqb_sym y x).
  destruct (identifier_eqb x y); [apply IH | apply compareIdentifiers_antisym].
Qed.

Lemma compareVersions_antisym (x y : SemVer) :
  compareVersions y x = CompOpp (compareVersions x y).
Proof.
  unfold compareVersions, compareMain, comparePre.
  rewrite !orElse_opp, <- !compareIdentifiers_antisym. do 3 f_equal.
  destruct (prerelease x), (prerelease y); try reflexivity.
  apply comparePreLoop_antisym.
Qed.

Lemma comparePreLoop_refl (a : list identifier) : comparePreLoop a a = Eq.
Proof.
  induction a as [|x a IH]; [reflexivity|]. cbn [comparePreLoop].
  now rewrite identifier_eqb_refl.
Qed.

Lemma compareVersions_refl (x : SemVer) : compareVersions x x = Eq.
Proof.
  unfold compareVersions, compareMain, comparePre.
  rewrite !compareIdentifiers_refl. cbn [orElse].
  destruct (prerelease x) eqn:E; [reflexivity|]. rewrite <- E. apply comparePreLoop_refl.
Qed.

(** A comparison that [gt] could make came out one way or the other. *)
Lemma gt_false_gte (a b : string) : gt a b = Ok false -> gte b a = Ok true.
Proof.
  unfold gt, gte, compare.
  destruct (construct a) as [x|]; [|discriminate].
  destruct (construct b) as [y|]; [|discriminate].
  rewrite (compareVersions_antisym x y).
  destruct (compareVersions x y); cbn; congruence.
Qed.

Lemma gt_true_gte_self (a b : string) : gt a b = Ok true -> gte a a = Ok true.
Proof.
  unfold gt, gte, compare.
  destruct (construct a) as [x|]; [|discriminate]. intros _.
  now rewrite compareVersions_refl.
Qed.

End SemverMore.

Section GlobalMore.

Lemma visitResponse_candidate latest response latest' :
  visitResponse latest response = Ok latest' ->
  match candidate response with
  | None => latest' = latest
  | Some c =>
      exists b, gt_nullable c latest = Ok b /\ latest' = if b then Some c else latest
  end.
Proof.
  unfold visitResponse, candidate.
  destruct (if Json.truthy response then Json.get response "tag_name" else None)
    as [tag_name|]; [|now intros [= <-]].
  destruct (Json.truthy tag_name); [|now intros [= <-]].
  destruct (Json.toString tag_name) as [tag|e]; [|discriminate].
  destruct (Semver.clean tag) as [c|]; [|now intros [= <-]].
  destruct (negb (String.eqb c "")); cbn [andb]; [|now intros [= <-]].
  destruct (Js.indexOf c "rc" =? -1); [|now intros [= <-]].
  destruct (gt_nullable c latest) as [[|]|e]; [| |discriminate]; intros [= <-]; eauto.
Qed.

Lemma candidate_no_rc response c : candidate response = Some c -> ~ Js.contains c "rc".
Proof.
  unfold candidate.
  destruct (if Json.truthy response then Json.get response "tag_name" else None)
    as [tag_name|]; [|discriminate].
  destruct (Json.truthy tag_name); [|discriminate].
  destruct (Json.toString tag_name) as [tag|e]; [|discriminate].
  destruct (Semver.clean tag) as [c'|]; [|discriminate].
  destruct (negb (String.eqb c' "")); cbn [andb]; [|discriminate].
  destruct (Js.indexOf c' "rc" =? -1) eqn:E; [|discriminate].
  intros [= <-]. apply indexOf_absent. now apply Z.eqb_eq.
Qed.

(** The running maximum: it is the start value or a candidate met so
    far, and it is not below anything it was already not below, nor
    below any candidate met. *)
Lemma forEachResponse_greatest items :
  forall (P : string -> Prop) l l',
    forEachResponse items (Some l) = Ok l' ->
    (forall c, P c -> Semver.gte l c = Ok true) ->
    exists m,
      l' = Some m
      /\ (m = l \/ exists response, In response items /\ candidate response = Some m)
      /\ (forall c, P c -> Semver.gte m c = Ok true)
      /\ (forall response c, In response items -> candidate response = Some c ->
                             Semver.gte m c = Ok true).
Proof.
  induction items as [|response rest IH]; intros P l l'; cbn [forEachResponse].
  - intros [= <-] HP. exists l. split; [reflexivity|]. split; [now left|].
    split; [exact HP|]. intros ? ? [].
  - destruct (visitResponse (Some l) response) as [l1|e] eqn:Hv; [|discriminate].
    intros Hrest HP. apply visitResponse_candidate in Hv.
    destruct (candidate response) as [c|] eqn:Hc.
    + destruct Hv as (b & Hgt & ->). cbn [gt_nullable] in Hgt. destruct b.
      * (* the candidate replaces the maximum *)
        destruct (IH (fun x => P x \/ x = c) c l' Hrest) as (m & -> & Hm & HmP & Hmrest).
        { intros x [Hx | ->].
          - eapply gt_gte_trans; [exact Hgt | now apply HP].
          - eapply gt_true_gte_self; exact Hgt. }
        exists m. split; [reflexivity|]. split.
        { right. destruct Hm as [-> | (r & Hr & Hrc)].
          - exists response. split; [now left | exact Hc].
          - exists r. split; [now right | exact Hrc]. }
        split; [intros x Hx; apply HmP; now left|].
        intros r x [<- | Hin] Hx; [|now apply (Hmrest r)].
        apply HmP. right. congruence.
      * (* the maximum stays *)
        destruct (IH (fun x => P x \/ x = c) l l' Hrest) as (m & -> & Hm & HmP & Hmrest).
        { intros x [Hx | ->]; [now apply HP | now apply gt_false_gte]. }
        exists m. split; [reflexivity|]. split.
        { destruct Hm as [-> | (r & Hr & Hrc)]; [now left | right; exists r].
          split; [now right | exact Hrc]. }
        split; [intros x Hx; apply HmP; now left|].
        intros r x [<- | Hin] Hx; [|now apply (Hmrest r)].
        apply HmP. right. congruence.
    + subst l1. destruct (IH P l l' Hrest HP) as (m & -> & Hm & HmP & Hmrest).
      exists m. split; [reflexivity|]. split.
      { destruct Hm as [-> | (r & Hr & Hrc)]; [now left | right; exists r].
        split; [now right | exact Hrc]. }
      split; [exact HmP|].
      intros r x [<- | Hin] Hx; [congruence | now apply (Hmrest r)].
Qed.

End GlobalMore.

Section GlobalRun.

(** The two ways global discovery ends: after a completed scan of the
    listing, or with a warning and the default. *)
Lemma getStableHelmVersion_cases (w : world) :
  exists r w',
    getStableHelmVersion w = (Ok r, w')
    /\ os_type w' = os_type w /\ inputs w' = inputs w /\ env w' = env w
    /\ dirs w' = dirs w /\ tool_cache w' = tool_cache w
    /\ ((trace w' = EvDownload helmAllReleasesUrl :: trace w
         /\ exists items latest,
             web w helmAllReleasesUrl = Ok (JsonText (JArray items))
             /\ forEachResponse items (Semver.clean stableHelmVersion) = Ok latest
             /\ r = v_plus latest)
        \/ (r = stableHelmVersion
            /\ exists msg,
                trace w' = EvWarning msg :: EvDownload helmAllReleasesUrl :: trace w)).
Proof.
  unfold getStableHelmVersion, try_catch, bind, toolCache.downloadTool, bind, emit,
    temp_path, core.warning, emit, ret.
  simpl_world.
  destruct (web w helmAllReleasesUrl) as [body|e].
  2:{ do 2 eexists. split; [reflexivity|]. simpl_world.
      repeat (split; [reflexivity|]). right. split; [reflexivity | eauto]. }
  unfold readJson. simpl_world. rewrite lookup_insert_eq.
  destruct body as [value| |];
    try (do 2 eexists; split; [reflexivity|]; simpl_world;
         repeat (split; [reflexivity|]); right; split; [reflexivity | eauto]; fail).
  unfold lift, scanResponses.
  destruct value as [| | | |items|];
    try (do 2 eexists; split; [reflexivity|]; simpl_world;
         repeat (split; [reflexivity|]); right; split; [reflexivity | eauto]; fail).
  destruct (forEachResponse items (Semver.clean stableHelmVersion)) as [latest|e] eqn:Hscan.
  - do 2 eexists. split; [reflexivity|]. simpl_world.
    repeat (split; [reflexivity|]). left. split; [reflexivity|]. eauto.
  - do 2 eexists. split; [reflexivity|]. simpl_world.
    repeat (split; [reflexivity|]). right. split; [reflexivity | eauto].
Qed.

Lemma clean_seed : Semver.clean stableHelmVersion = Some "3.2.1".
Proof. vm_compute. reflexivity. Qed.

Lemma contains_after_v (l : string) : Js.contains ("v" +:+ l) "rc" -> Js.contains l "rc".
Proof.
  intros (pre & post & H). destruct pre as [|c pre]; simpl in H; [discriminate|].
  injection H as _ H. now exists pre, post.
Qed.

End GlobalRun.

(** X10: when global discovery returns without a warning, the version
    after the "v" is the greatest one put forward: it is the seed or the
    cleaned, "rc"-free tag of an entry of the listing, and [semver.gte]
    holds between it and the seed and between it and every such tag. *)
Theorem global_discovery_picks_greatest (w w' : world) (items : list json) (r : string) :
  web w helmAllReleasesUrl = Ok (JsonText (JArray items)) ->
  getStableHelmVersion w = (Ok r, w') ->
  trace w' = EvDownload helmAllReleasesUrl :: trace w ->
  exists l,
    r = "v" +:+ l
    /\ (l = "3.2.1" \/ exists response, In response items /\ candidate response = Some l)
    /\ Semver.gte l "3.2.1" = Ok true
    /\ forall response c, In response items -> candidate response = Some c ->
                          Semver.gte l c = Ok true.
Proof.
  intros Hweb Hrun Htrace.
  destruct (getStableHelmVersion_cases w) as (r0 & w0 & Hrun0 & _ & _ & _ & _ & _ & Hcase).
  rewrite Hrun in Hrun0. injection Hrun0 as <- <-.
  destruct Hcase as [(_ & items' & latest & Hweb' & Hscan & ->) | (_ & msg & Hwarn)];
    [|rewrite Htrace in Hwarn; discriminate].
  rewrite Hweb in Hweb'. injection Hweb' as <-.
  rewrite clean_seed in Hscan.
  destruct (forEachResponse_greatest items (fun c => c = "3.2.1") "3.2.1" latest Hscan)
    as (m & -> & Hm & Hseed & Hall).
  { intros c ->. vm_compute. reflexivity. }
  exists m. split; [reflexivity|]. split; [exact Hm|]. split; [now apply Hseed | exact Hall].
Qed.

Lemma global_discovery_picks_greatest_witness :
  exists w',
    getStableHelmVersion sample_world = (Ok "v3.5.3", w')
    /\ Semver.gte "3.5.3" "3.4.0" = Ok true.
Proof.
  destruct (getStableHelmVersion sample_world) as [r w'] eqn:Hrun.
  assert (Hr : r = Ok "v3.5.3")
    by (change r with (fst (r, w')); rewrite <- Hrun; vm_compute; reflexivity).
  assert (Ht : trace w' = EvDownload helmAllReleasesUrl :: trace sample_world)
    by (change w' with (snd (r, w')); rewrite <- Hrun; vm_compute; reflexivity).
  subst r. exists w'. split; [reflexivity|].
  destruct (global_discovery_picks_greatest sample_world w' _ _ eq_refl Hrun Ht)
    as (l & Hl & _ & _ & Hall).
  injection Hl as <-.
  apply (Hall (JObject [("tag_name", JString "v3.4.0")])); [now left | reflexivity].
Defined.

(** X11: global discovery never returns a string with "rc" in it,
    whatever the listing holds. *)
Theorem global_discovery_never_returns_rc (w : world) :
  exists r w', getStableHelmVersion w = (Ok r, w') /\ ~ Js.contains r "rc".
Proof.
  destruct (getStableHelmVersion_cases w) as (r & w' & Hrun & _ & _ & _ & _ & _ & Hcase).
  exists r, w'. split; [exact Hrun|].
  destruct Hcase as [(_ & items & latest & _ & Hscan & ->) | (-> & _)].
  - rewrite clean_seed in Hscan.
    destruct (forEachResponse_greatest items (fun _ => False) "3.2.1" latest Hscan)
      as (m & -> & Hm & _); [intros ? []|].
    intros H. apply contains_after_v in H. revert H.
    destruct Hm as [-> | (response & _ & Hc)].
    + apply indexOf_absent. reflexivity.
    + now apply candidate_no_rc in Hc.
  - apply indexOf_absent. reflexivity.
Qed.

(** X12: global discovery fetches the listing exactly once and leaves
    the tool cache, the directories and the environment alone; it warns,
    once, exactly when it falls back to the default after an error, which
    it does whenever the listing cannot be fetched, is not JSON or is not
    an array. *)
Theorem global_discovery_effects (w : world) :
  exists r w',
    getStableHelmVersion w = (Ok r, w')
    /\ env w' = env w /\ dirs w' = dirs w /\ tool_cache w' = tool_cache w
    /\ (trace w' = EvDownload helmAllReleasesUrl :: trace w
        \/ (r = stableHelmVersion
            /\ exists msg,
                trace w' = EvWarning msg :: EvDownload helmAllReleasesUrl :: trace w))
    /\ (listing_fails w ->
        exists msg, trace w' = EvWarning msg :: EvDownload helmAllReleasesUrl :: trace w).
Proof.
  destruct (getStableHelmVersion_cases w)
    as (r & w' & Hrun & _ & _ & Henv & Hdirs & Hcache & Hcase).
  exists r, w'. repeat (split; [assumption|]). split.
  - destruct Hcase as [(Ht & _) | Hwarn]; [now left | now right].
  - intros Hfail. destruct Hcase as [(_ & items & latest & Hweb & _) | (_ & Hwarn)];
      [|exact Hwarn].
    unfold listing_fails in Hfail. now rewrite Hweb in Hfail.
Qed.

Lemma global_discovery_effects_witness :
  listing_fails offline_world
  /\ exists r w', getStableHelmVersion offline_world = (Ok r, w')
                  /\ exists msg, trace w' = [EvWarning msg; EvDownload helmAllReleasesUrl].
Proof.
  assert (Hf : listing_fails offline_world) by exact I.
  split; [exact Hf|].
  destruct (global_discovery_effects offline_world)
    as (r & w' & Hrun & _ & _ & _ & _ & Hwarn).
  exists r, w'. split; [exact Hrun|]. exact (Hwarn Hf).
Defined.

(** ** Acquisition, further *)

Section AcquireMore.

Lemma locateHelm_ok c w0 p w1 :
  locateHelm c w0 = (Ok p, w1) ->
  w1 = record (EvChmod p "777") (record (EvChmod c "777") w0)
  /\ exists entries,
      dirs w0 !! c = Some entries
      /\ In p (walkSync (os_type w0) c (Directory entries) [] (helm_executable w0)).
Proof.
  unfold locateHelm, bind.
  destruct (findHelm c w0) as [[p0|e] w'] eqn:Hfind; [|discriminate].
  destruct (findHelm_found _ _ _ _ Hfind) as (-> & entries & rest & Hd & Hwalk).
  destruct (String.eqb p0 ""); [discriminate|].
  unfold fs.chmodSync, ret. destruct (path_exists _ p0); [|discriminate].
  intros [= <- <-]. split; [reflexivity|]. exists entries. split; [exact Hd|].
  rewrite Hwalk. now left.
Qed.

Lemma located_path c w0 p w1 :
  locateHelm c w0 = (Ok p, w1) ->
  same_store w0 w1
  /\ path_exists w1 p = true
  /\ exists entries,
      dirs w0 !! c = Some entries
      /\ entry_of (os_type w0) c (Directory entries) (helm_executable w0) p.
Proof.
  intros H. destruct (locateHelm_ok _ _ _ _ H) as (-> & entries & Hd & Hin).
  apply walkSync_sound in Hin as (Hentry & Hpaths & _).
  split; [repeat split|]. split; [|eauto].
  apply (path_exists_in_tree _ c entries); [exact Hd | exact Hpaths].
Qed.



End AcquireMore.

(** X13: a version that is in the tool cache is served from the file
    system alone: nothing is downloaded, unpacked or registered, files,
    directories and cache stay as they are, and the outcome is the same
    on every runner with the same store, whatever its network answers. *)
Theorem cached_version_needs_no_network (version c : string) (w : world) :
  version <> "" ->
  cache_lookup w version = Ok c -> c <> "" ->
  exists r w1 evs,
    downloadHelm (Some version) w = (r, w1)
    /\ extends w w1 evs /\ acquisitions evs = []
    /\ same_store w w1
    /\ forall w', same_store w w' -> fst (downloadHelm (Some version) w') = r.
Proof.
  intros Hv Hc Hne.
  destruct (downloadHelm (Some version) w) as [r w1] eqn:Hrun.
  destruct (downloadHelm_hit_spec version w c r w1 Hv Hc Hne Hrun)
    as (Hs & (evs & He & Hq & _) & Hst).
  exists r, w1, evs. split; [reflexivity|]. split; [exact He|].
  split; [now apply quiet_counts|]. split; [exact Hs|].
  intros w' Hs'.
  assert (Hc' : cache_lookup w' version = Ok c)
    by (rewrite (cache_lookup_same w w' version Hs'); exact Hc).
  rewrite (downloadHelm_hit version w' c Hv Hc' Hne).
  apply Hst. eapply same_store_trans; [exact Hs' | apply same_store_record].
Qed.

Lemma cached_version_needs_no_network_witness :
  "v3.5.3" <> ""
  /\ exists r w1 evs,
      downloadHelm (Some "v3.5.3") windows_world = (r, w1)
      /\ extends windows_world w1 evs /\ acquisitions evs = [].
Proof.
  assert (Hv : "v3.5.3" <> "") by discriminate.
  split; [exact Hv|].
  assert (Hl : cache_lookup windows_world "v3.5.3"
               = Ok "C:\hostedtoolcache\windows\helm\3.5.3\x64") by (vm_compute; reflexivity).
  destruct (cached_version_needs_no_network "v3.5.3"
              "C:\hostedtoolcache\windows\helm\3.5.3\x64" windows_world
              Hv Hl ltac:(discriminate))
    as (r & w1 & evs & Hrun & He & Hq & _).
  exists r, w1, evs. split; [exact Hrun | split; [exact He | exact Hq]].
Defined.

(** X14: when [downloadHelm] returns a path, the walk found it in the
    directory of a complete entry of the tool cache for helm, as the path
    of an entry with the executable's name, and it exists; for an
    explicit version the entry is the one of its cleaned form. *)
Theorem downloadHelm_result_is_cached_executable (version p : string) (w w1 : world) :
  version <> "" ->
  downloadHelm (Some version) w = (Ok p, w1) ->
  exists key entries,
    (helmToolName, key) ∈ tool_cache w1
    /\ dirs w1 !! cache_path w1 helmToolName key = Some entries
    /\ entry_of (os_type w1) (cache_path w1 helmToolName key) (Directory entries)
         (helm_executable w1) p
    /\ path_exists w1 p = true
    /\ (toolCache._isExplicitVersion version = true -> Semver.clean version = Some key).
Proof.
  intros Hv Hrun.
  destruct (cache_lookup_cases w version) as [(c & Hc & Hne) | [Hmiss | (e & Hth)]].
  - rewrite (downloadHelm_hit version w c Hv Hc Hne) in Hrun.
    destruct (located_path _ _ _ _ Hrun) as (Hs & Hex & entries & Hd & Hentry).
    assert (Hkey : exists key,
               c = cache_path w helmToolName key /\ (helmToolName, key) ∈ tool_cache w
               /\ (toolCache._isExplicitVersion version = true ->
                   Semver.clean version = Some key)).
    { destruct (toolCache._isExplicitVersion version) eqn:He.
      - apply explicit_clean in He as [c' Hc'].
        rewrite (cache_lookup_explicit w version c' Hc') in Hc.
        destruct (bool_decide _) eqn:Hin; injection Hc as <-; [|contradiction].
        apply bool_decide_eq_true in Hin. exists c'. auto.
      - destruct (cache_lookup_entry w version c Hc Hne) as (key & Hk & Hin).
        exists key. split; [exact Hk|]. split; [exact Hin | discriminate]. }
    destruct Hkey as (key & -> & Hin & Hexp).
    pose proof Hs as (Ho & _ & Hdirs & Htc & Ha & Hr & _). simpl_world.
    exists key, entries. unfold cache_path, helm_executable in *.
    rewrite <- Ho, <- Ha, <- Hr, <- Htc, <- Hdirs. auto.
  - rewrite (downloadHelm_miss version w Hv Hmiss) in Hrun. unfold bind in Hrun.
    destruct (fetchIntoCache (os_type w) version (record (EvFind helmToolName version) w))
      as [[c|e] wf] eqn:Hf; [|discriminate].
    change (os_type w) with (os_type (record (EvFind helmToolName version) w)) in Hf.
    apply fetchIntoCache_spec
      in Hf as (evs & _ & _ & _ & _ & (Ho' & Ha' & Hr' & _) & -> & Hreg & _).
    destruct (located_path _ _ _ _ Hrun) as (Hs & Hex & entries & Hd & Hentry).
    pose proof Hs as (Ho & _ & Hdirs & Htc & Ha & Hr & _). simpl_world.
    exists (toolCache.versionDirectory version), entries.
    unfold cached_directory, cache_path, helm_executable in *. simpl_world.
    rewrite <- Ho, <- Ha, <- Hr, <- Htc, <- Hdirs, <- Ho', <- Ha', <- Hr'.
    split; [rewrite Hreg; apply elem_of_union_l, elem_of_singleton; reflexivity|].
    split; [exact Hd|]. split; [rewrite <- Ho' in Hentry; exact Hentry|].
    split; [exact Hex|].
    intros [c' Hc']%explicit_clean. unfold toolCache.versionDirectory. now rewrite Hc'.
  - rewrite (downloadHelm_lookup_throws version w e Hv Hth) in Hrun. discriminate Hrun.
Qed.

Lemma downloadHelm_result_is_cached_executable_witness :
  "v3.5.0" <> ""
  /\ exists w1,
      downloadHelm (Some "v3.5.0") sample_world
      = (Ok "/opt/hostedtoolcache/helm/3.5.0/x64/linux-amd64/helm", w1)
      /\ (helmToolName, "3.5.0") ∈ tool_cache w1.
Proof.
  assert (Hv : "v3.5.0" <> "") by discriminate.
  split; [exact Hv|].
  destruct (downloadHelm (Some "v3.5.0") sample_world) as [r w1] eqn:Hrun.
  assert (Hr : r = Ok "/opt/hostedtoolcache/helm/3.5.0/x64/linux-amd64/helm")
    by (change r with (fst (r, w1)); rewrite <- Hrun; vm_compute; reflexivity).
  subst r. exists w1. split; [reflexivity|].
  destruct (downloadHelm_result_is_cached_executable _ _ _ _ Hv Hrun)
    as (key & entries & Hin & _ & _ & _ & Hkey).
  assert (Hk : Semver.clean "v3.5.0" = Some key) by (apply Hkey; reflexivity).
  vm_compute in Hk. injection Hk as <-. exact Hin.
Defined.

(** X15: a failed transfer leaves nothing behind but the record of the
    lookup and of the attempt: no file, directory or cache entry is
    created, and the next call for the version ends the same way after
    one more attempt. *)
Theorem failed_transfer_leaves_no_cache_entry (version : string) (w : world) (e : exn) :
  version <> "" ->
  cache_lookup w version = Ok "" ->
  web w (getHelmDownloadURL (os_type w) version) = Throw e ->
  let failure := Error ("Failed to download Helm from location "
                        +:+ getHelmDownloadURL (os_type w) version) in
  let attempt w := record (EvDownload (getHelmDownloadURL (os_type w) version))
                     (record (EvFind helmToolName version) w) in
  downloadHelm (Some version) w = (Throw failure, attempt w)
  /\ same_store w (attempt w)
  /\ downloadHelm (Some version) (attempt w) = (Throw failure, attempt (attempt w)).
Proof.
  intros Hv Hmiss Hweb failure attempt.
  assert (Hstep : forall w0,
            cache_lookup w0 version = Ok "" ->
            web w0 (getHelmDownloadURL (os_type w0) version) = Throw e ->
            downloadHelm (Some version) w0
            = (Throw (Error ("Failed to download Helm from location "
                             +:+ getHelmDownloadURL (os_type w0) version)), attempt w0)).
  { intros w0 Hm Hw. rewrite (downloadHelm_miss version w0 Hv Hm). unfold bind.
    change (os_type w0) with (os_type (record (EvFind helmToolName version) w0)).
    rewrite (fetchIntoCache_failed version _ e) by exact Hw. reflexivity. }
  split; [now apply Hstep|]. split; [repeat split|].
  apply (Hstep (attempt w)); [|exact Hweb].
  unfold attempt. now rewrite !cache_lookup_record.
Qed.

Lemma failed_transfer_leaves_no_cache_entry_witness :
  "v3.5.3" <> ""
  /\ exists w1, downloadHelm (Some "v3.5.3") offline_world
                = (Throw (Error "Failed to download Helm from location https://get.helm.sh/helm-v3.5.3-linux-amd64.zip"), w1)
                /\ same_store offline_world w1.
Proof.
  assert (Hv : "v3.5.3" <> "") by discriminate.
  split; [exact Hv|].
  assert (Hl : cache_lookup offline_world "v3.5.3" = Ok "") by (vm_compute; reflexivity).
  destruct (failed_transfer_leaves_no_cache_entry "v3.5.3" offline_world
              (Error "getaddrinfo ENOTFOUND") Hv Hl eq_refl) as (Hrun & Hs & _).
  eexists. split; [exact Hrun | exact Hs].
Defined.

(** X16: for an explicit version, an archive without the executable
    is registered in the cache all the same.  The call fails with the
    not-found error, and so does every later call for the version, from
    the cache and without a new download. *)
Theorem archive_without_executable_stays_cached (version : string) (w : world)
  (entries : list (string * node)) :
  toolCache._isExplicitVersion version = true ->
  cache_lookup w version = Ok "" ->
  web w (getHelmDownloadURL (os_type w) version) = Ok (ZipArchive entries) ->
  ~ has_file (helm_executable w) (Directory entries) ->
  let failure := Error ("Helm executable not found in path "
                        +:+ cached_directory w version) in
  exists w1 w2 evs,
    downloadHelm (Some version) w = (Throw failure, w1)
    /\ cache_lookup w1 version = Ok (cached_directory w version)
    /\ downloadHelm (Some version) w1 = (Throw failure, w2)
    /\ extends w1 w2 evs /\ acquisitions evs = [].
Proof.
  intros He Hmiss Hweb Hno failure.
  pose proof (explicit_nonempty _ He) as Hv.
  apply explicit_clean in He as [k Hk].
  assert (Hdir : toolCache.versionDirectory version = k).
  { unfold toolCache.versionDirectory. now rewrite Hk. }
  set (w0 := record (EvFind helmToolName version) w).
  set (c := cached_directory w version).
  destruct (fetchIntoCache_ok version w0 entries Hweb)
    as (wf & Hf & Hd & (Hos & Ha & Hr & Hsat) & Htc).
  assert (Hexe : forall w', os_type w' = os_type w ->
                   ~ has_file (helm_executable w') (Directory entries)).
  { intros w' Hw'. unfold helm_executable in *. now rewrite Hw'. }
  set (w1 := record (EvChmod c "777") wf).
  set (w2 := record (EvChmod c "777") (record (EvFind helmToolName version) w1)).
  assert (Hreg : cache_lookup w1 version = Ok c).
  { rewrite (cache_lookup_explicit w1 version k Hk).
    assert (Hin : (helmToolName, k) ∈ tool_cache w1).
    { unfold w1. simpl_world. rewrite Htc, Hdir.
      apply elem_of_union_l, elem_of_singleton. reflexivity. }
    rewrite (bool_decide_eq_true_2 _ Hin). f_equal.
    unfold c, cached_directory, cache_path, w1. simpl_world.
    now rewrite Hdir, <- Hos, <- Ha, <- Hr. }
  exists w1, w2, [EvChmod c "777"; EvFind helmToolName version].
  split; [|split; [exact Hreg|split; [|split; reflexivity]]].
  - rewrite (downloadHelm_miss version w Hv Hmiss). unfold bind.
    fold w0. change (os_type w) with (os_type w0). rewrite Hf.
    apply (locateHelm_not_found c wf entries Hd). apply Hexe. now rewrite <- Hos.
  - rewrite (downloadHelm_hit version w1 c Hv Hreg (cache_path_nonempty _ _ _)).
    apply (locateHelm_not_found c _ entries); [exact Hd|]. apply Hexe.
    unfold w1. simpl_world. now rewrite <- Hos.
Qed.

Lemma archive_without_executable_stays_cached_witness :
  toolCache._isExplicitVersion "v3.5.3" = true
  /\ exists w1,
      downloadHelm (Some "v3.5.3") empty_archive_world
      = (Throw (Error "Helm executable not found in path /opt/hostedtoolcache/helm/3.5.3/x64"), w1)
      /\ cache_lookup w1 "v3.5.3" = Ok "/opt/hostedtoolcache/helm/3.5.3/x64".
Proof.
  assert (Hx : toolCache._isExplicitVersion "v3.5.3" = true) by reflexivity.
  split; [exact Hx|].
  assert (Hl : cache_lookup empty_archive_world "v3.5.3" = Ok "") by (vm_compute; reflexivity).
  destruct (archive_without_executable_stays_cached "v3.5.3" empty_archive_world
              [("linux-amd64", Directory [("LICENSE", File)])] Hx Hl eq_refl)
    as (w1 & _ & _ & Hrun & Hreg & _).
  { cbn. intros [[H|[]]|[]]. discriminate H. }
  exists w1. split; [exact Hrun | exact Hreg].
Defined.



(** ** The entry point, further *)

Section RunMore.

Lemma getLatest_no_token (type : string) (w : world) :
  ~ token_supplied w ->
  getLatestHelmVersionFor type w
  = (Throw (Error "Input required and not supplied: token"), w).
Proof.
  intros H. unfold getLatestHelmVersionFor, bind.
  now rewrite (getInput_token_missing w H).
Qed.

Lemma getLatest_worlds (type : string) (w : world) r w' :
  getLatestHelmVersionFor type w = (r, w') ->
  w' = w
  \/ w' = record (EvGraphql (authorization w)) w
  \/ exists msg, w' = record (EvWarning msg) (record (EvGraphql (authorization w)) w).
Proof.
  destruct (String.eqb_spec (token_input w) "") as [E|E].
  - rewrite getLatest_no_token by (unfold token_supplied; tauto).
    intros [= _ <-]. now left.
  - destruct (discovery_reply w) as [[nodes|]|e] eqn:Hr.
    + destruct (List.find (fun release => isValidVersion (tagName release) type) (rev nodes))
        as [x|] eqn:Hf.
      * rewrite (getLatest_found type w nodes x E Hr Hf). intros [= _ <-]. right. now left.
      * destruct (getLatest_none_world type w nodes E Hr Hf) as [msg ->].
        intros [= _ <-]. right. right. eauto.
    + destruct (getLatest_failed type w E) as [msg ->]; [now left|].
      intros [= _ <-]. right. right. eauto.
    + destruct (getLatest_failed type w E) as [msg ->]; [right; eauto|].
      intros [= _ <-]. right. right. eauto.
Qed.

End RunMore.

(** X17: resolution never touches the tool cache, the directories or the
    environment.  In legacy mode it always returns a version and never
    sends the graph query; outside legacy mode it never fetches the
    release listing. *)
Theorem resolution_effects (version : string) (w w' : world) (r : result string) :
  run_version version w = (r, w') ->
  exists evs,
    extends w w' evs
    /\ tool_cache w' = tool_cache w /\ dirs w' = dirs w /\ env w' = env w
    /\ (legacy_mode w ->
        count_events is_graphql evs = 0%nat /\ exists v, r = Ok v)
    /\ (~ legacy_mode w -> count_events is_download evs = 0%nat).
Proof.
  intros Hrun. destruct (classic_legacy w) as [Hl|Hl].
  - rewrite (run_version_legacy version w Hl) in Hrun.
    destruct (String.eqb (Js.toLocaleLowerCase version) "latest").
    + destruct (getStableHelmVersion_cases w)
        as (r0 & w0 & Hrun0 & _ & _ & Henv & Hdirs & Hcache & Hcase).
      rewrite Hrun in Hrun0. injection Hrun0 as -> ->.
      destruct Hcase as [(Ht & _) | (_ & msg & Ht)].
      * exists [EvDownload helmAllReleasesUrl].
        repeat (split; [assumption|]). split; [|tauto]. intros _. split; [reflexivity | eauto].
      * exists [EvWarning msg; EvDownload helmAllReleasesUrl].
        repeat (split; [assumption|]). split; [|tauto]. intros _. split; [reflexivity | eauto].
    + exists []. destruct (negb _); injection Hrun as <- <-;
        (repeat (split; [reflexivity|])); (split; [|tauto]); intros _;
        (split; [reflexivity | eauto]).
  - rewrite (run_version_default version w Hl) in Hrun.
    assert (Hfam : forall type, getLatestHelmVersionFor type w = (r, w') ->
              exists evs, extends w w' evs
                /\ tool_cache w' = tool_cache w /\ dirs w' = dirs w /\ env w' = env w
                /\ count_events is_download evs = 0%nat).
    { intros type H. apply getLatest_worlds in H as [-> | [-> | [msg ->]]].
      - exists []. repeat split.
      - exists [EvGraphql (authorization w)]. repeat split.
      - exists [EvWarning msg; EvGraphql (authorization w)]. repeat split. }
    assert (Hplain : forall v, (Ok v, w) = (r, w') ->
              exists evs, extends w w' evs
                /\ tool_cache w' = tool_cache w /\ dirs w' = dirs w /\ env w' = env w
                /\ count_events is_download evs = 0%nat).
    { intros v [= <- <-]. exists []. repeat split. }
    assert (Hgoal : exists evs, extends w w' evs
                /\ tool_cache w' = tool_cache w /\ dirs w' = dirs w /\ env w' = env w
                /\ count_events is_download evs = 0%nat).
    { repeat match type of Hrun with
             | context [if ?b then _ else _] => destruct b
             end; eauto. }
    destruct Hgoal as (evs & He & Hc & Hd & Hen & Hcount).
    exists evs. repeat (split; [assumption|]). split; [tauto | now intros _].
Qed.

Lemma resolution_effects_witness :
  legacy_mode offline_legacy_world
  /\ exists r w' evs,
      run_version "latest" offline_legacy_world = (r, w')
      /\ extends offline_legacy_world w' evs
      /\ count_events is_graphql evs = 0%nat.
Proof.
  assert (Hl : legacy_mode offline_legacy_world) by reflexivity.
  split; [exact Hl|].
  destruct (run_version "latest" offline_legacy_world) as [r w'] eqn:Hrun.
  destruct (resolution_effects _ _ _ _ Hrun) as (evs & He & _ & _ & _ & Hleg & _).
  exists r, w', evs. split; [reflexivity|]. split; [exact He|]. now apply Hleg.
Defined.

(** X18: a missing required input fails the run before anything is
    done.  Without the [version] input, and outside legacy mode without
    the [token] input when the version calls for family-scoped discovery,
    the run ends with the missing-input error, the entry point reports it
    as the failure, and nothing else has happened. *)
Theorem missing_input_fails_before_any_effect (w : world) :
  (default "" (inputs w !! "version") = "" ->
   main w
   = record (EvSetFailed (Error "Input required and not supplied: version")) w)
  /\ (forall raw,
        inputs w !! "version" = Some raw -> raw <> "" ->
        ~ legacy_mode w -> needs_family_discovery (Js.trim raw) ->
        ~ token_supplied w ->
        main w
        = record (EvSetFailed (Error "Input required and not supplied: token")) w).
Proof.
  split.
  - intros H. unfold main, run, bind, core.getInput. rewrite H. reflexivity.
  - intros raw Hin Hne Hl Hneed Ht.
    assert (Hres : run_version (Js.trim raw) w
                   = (Throw (Error "Input required and not supplied: token"), w)).
    { rewrite (run_version_default _ w Hl).
      unfold LATEST_HELM3_VERSION, LATEST_HELM2_VERSION.
      destruct Hneed as [E | [E | E]].
      - rewrite E. cbn [String.eqb orb]. now apply getLatest_no_token.
      - rewrite E. rewrite orb_true_r. now apply getLatest_no_token.
      - rewrite E. cbn. now apply getLatest_no_token. }
    unfold main, run. unfold bind at 1. rewrite (getInput_version w raw Hin Hne).
    unfold bind at 1. rewrite Hres. reflexivity.
Qed.

Lemma missing_input_fails_before_any_effect_witness :
  default "" (inputs offline_world !! "nothing") = ""
  /\ main tokenless_world
     = record (EvSetFailed (Error "Input required and not supplied: token")) tokenless_world
  /\ main (linux_runner ∅ ∅ sample_web (fun _ => Ok None) ∅ ∅)
     = record (EvSetFailed (Error "Input required and not supplied: version"))
         (linux_runner ∅ ∅ sample_web (fun _ => Ok None) ∅ ∅).
Proof.
  split; [reflexivity|]. split.
  - apply (proj2 (missing_input_fails_before_any_effect tokenless_world) "latest");
      [reflexivity | discriminate | vm_compute; discriminate | now left
      | vm_compute; intros H; now apply H].
  - apply (proj1 (missing_input_fails_before_any_effect
                    (linux_runner ∅ ∅ sample_web (fun _ => Ok None) ∅ ∅))).
    reflexivity.
Defined.

(** X19: once the executable is acquired the run succeeds whatever the
    state of PATH.  It publishes the path as the output helm-path after
    the confirmation line; a PATH that is set ends up starting with the
    executable's directory, which is added only when PATH does not start
    with it already; a PATH that is not set is left alone. *)
Theorem run_publishes_the_executable (w wa wb : world) (raw version p : string) :
  inputs w !! "version" = Some raw -> raw <> "" ->
  run_version (Js.trim raw) w = (Ok version, wa) ->
  downloadHelm (Some version) wa = (Ok p, wb) ->
  let dir := path.dirname (os_type wb) p in
  let line := "Helm tool version: '" +:+ version +:+ "' has been cached at " +:+ p in
  exists w',
    run w = (Ok tt, w') /\ main w = w'
    /\ (exists evs, trace w' = EvSetOutput "helm-path" p :: EvLog line :: evs
                    /\ (evs = trace wb \/ evs = EvAddPath dir :: trace wb))
    /\ (forall P, env wb !! "PATH" = Some P ->
                  exists P', env w' !! "PATH" = Some P' /\ Js.startsWith P' dir = true)
    /\ (forall P, env wb !! "PATH" = Some P -> Js.startsWith P dir = true ->
                  env w' = env wb
                  /\ trace w' = EvSetOutput "helm-path" p :: EvLog line :: trace wb)
    /\ (env wb !! "PATH" = None ->
        env w' = env wb
        /\ trace w' = EvSetOutput "helm-path" p :: EvLog line :: trace wb).
Proof.
  intros Hin Hne Hres Hdl dir line.
  assert (Hrun : run w
                 = bind (try_catch
                           (bind (gets (fun w => env w !! "PATH"))
                              (fun PATH =>
                                 match PATH with
                                 | None => throw (TypeError "Cannot read properties of undefined (reading 'startsWith')")
                                 | Some P =>
                                     if negb (Js.startsWith P dir)
                                     then core.addPath dir else ret tt
                                 end))
                           (fun _ => ret tt))
                     (fun _ => bind (console_log line)
                                 (fun _ => core.setOutput "helm-path" p)) wb).
  { unfold run. unfold bind at 1. rewrite (getInput_version w raw Hin Hne).
    unfold bind at 1. rewrite Hres. unfold bind at 1. rewrite Hdl. reflexivity. }
  unfold main. rewrite Hrun.
  unfold bind, try_catch, gets, throw, ret, console_log, core.setOutput, core.addPath, emit.
  destruct (env wb !! "PATH") as [P|] eqn:HP.
  - destruct (Js.startsWith P dir) eqn:Hs; cbn [negb].
    + eexists. split; [reflexivity|]. split; [reflexivity|]. simpl_world.
      split; [eexists; split; [reflexivity | now left]|].
      split; [intros P0 [= <-]; eauto|].
      split; [intros; split; reflexivity | discriminate].
    + eexists. split; [reflexivity|]. split; [reflexivity|]. simpl_world.
      split; [eexists; split; [reflexivity | now right]|].
      split.
      { intros P0 [= <-]. rewrite lookup_insert_eq. eexists. split; [reflexivity|].
        apply startsWith_app. }
      split; [intros P0 [= <-] H; congruence | discriminate].
  - eexists. split; [reflexivity|]. split; [reflexivity|]. simpl_world.
    split; [eexists; split; [reflexivity | now left]|].
    split; [discriminate|]. split; [discriminate | split; reflexivity].
Qed.

Lemma run_publishes_the_executable_witness :
  exists w',
    run sample_world = (Ok tt, w')
    /\ env w' !! "PATH" = Some "/opt/hostedtoolcache/helm/3.5.0/x64/linux-amd64:/usr/bin".
Proof.
  destruct (run_version (Js.trim "latest") sample_world) as [rv wa] eqn:Hres.
  assert (Hrv : rv = Ok "v3.5.0")
    by (change rv with (fst (rv, wa)); rewrite <- Hres; vm_compute; reflexivity).
  subst rv.
  destruct (downloadHelm (Some "v3.5.0") wa) as [rp wb] eqn:Hdl.
  assert (Hrp : rp = Ok "/opt/hostedtoolcache/helm/3.5.0/x64/linux-amd64/helm").
  { change rp with (fst (rp, wb)). rewrite <- Hdl.
    change wa with (snd (Ok "v3.5.0", wa)). rewrite <- Hres. vm_compute. reflexivity. }
  subst rp.
  destruct (run_publishes_the_executable sample_world wa wb "latest" "v3.5.0" _
              eq_refl ltac:(discriminate) Hres Hdl)
    as (w' & Hrun & _ & _ & _ & _ & _).
  exists w'. split; [exact Hrun|].
  change w' with (snd (Ok tt, w')). rewrite <- Hrun. vm_compute. reflexivity.
Defined.
